(** * sso_pipeline: reconciliation of sewer-overflow events with permits

    A shallow embedding of [sso_pipeline.py]: of
    [merge_sso_with_collection_system] and the pandas operations it is
    written with, of [download_sso_zip] and of the member lookup of
    [load_sso_tables], followed by the properties of the reconciled and
    summarised tables.

    Modelling conventions.
    - A DataFrame is an ordered list of labelled columns over a positional
      index ([frame]); a cell is a missing value, an integer, a float or a
      text.  A column whose cells are all integers of the int64 range is
      an int64 column, a column of floats and missing values a float64
      column, any other an object column.
    - An integer is an unbounded [Z]; int64 arithmetic is written out with
      its wrap-around ([wrap64]).  A float is given by its value, a
      rational: negating a float and comparing it with a constant are
      exact on binary64; adding floats up is not and is left to the
      interface.  Floats are finite: a text that pandas reads as an
      infinity is not among the inputs considered.
    - What pandas delegates to its parsers, printers and float arithmetic
      is an interface, [PandasText], with the laws the development uses.
      Where pandas 2 and pandas 3 differ (what [astype(str)] makes of the
      null, which suffixed labels a merge refuses) the interface carries
      the choice.
    - Labels are unique within an input frame, as [pd.read_csv] yields
      them. *)

From Stdlib Require Import ZArith QArith Qabs String Ascii List Lia Lqa DecimalString.
From stdpp Require Import base list strings option sorting.

Open Scope string_scope.

(** ** Cells *)

Inductive cell : Type :=
  | NaN
  | Int (z : Z)
  | Num (q : Q)
  | Str (s : string).

#[global] Instance Q_eq_dec : EqDecision Q.
Proof. solve_decision. Defined.

#[global] Instance cell_eq_dec : EqDecision cell.
Proof. solve_decision. Defined.

Definition isna (c : cell) : bool :=
  match c with NaN => true | _ => false end.

(** The number a numeric cell stands for. *)
Definition value (c : cell) : option Q :=
  match c with
  | Int z => Some (inject_Z z)
  | Num q => Some q
  | _ => None
  end.

(** The representative of a cell under numeric equality: [1] and [1.0]
    are equal and hash alike. *)
Definition canon (c : cell) : cell :=
  match c with
  | Int z => Num (inject_Z z)
  | Num q => Num (Qred q)
  | _ => c
  end.

(** int64 arithmetic: the result of an operation, wrapped around. *)
Definition wrap64 (z : Z) : Z := ((z + 2 ^ 63) mod 2 ^ 64 - 2 ^ 63)%Z.

Definition fits_int64 (z : Z) : bool :=
  ((- 2 ^ 63 <=? z) && (z <? 2 ^ 63))%Z.

Definition is_int (c : cell) : bool :=
  match c with Int _ => true | _ => false end.

Definition is_int64 (c : cell) : bool :=
  match c with Int z => fits_int64 z | _ => false end.

(** A rational that is a whole number. *)
Definition whole (q : Q) : Prop := exists z : Z, (q == inject_Z z)%Q.

Definition exact_sum (l : list Q) : Q := foldr Qplus 0%Q l.

Definition sum_abs (l : list Q) : Q := foldr (fun q acc => Qabs q + acc)%Q 0%Q l.

(** ** Text operations: [str.strip] and [str.upper] *)

Module Text.

Definition code (c : ascii) : nat := nat_of_ascii c.

(** Python's [str.isspace] on ASCII: TAB, LF, VT, FF, CR, the four
    separators FS, GS, RS, US, and the space. *)
Definition is_space (c : ascii) : bool :=
  let n := code c in
  ((9 <=? n)%nat && (n <=? 13)%nat) || ((28 <=? n)%nat && (n <=? 32)%nat).

Definition is_lower (c : ascii) : bool :=
  let n := code c in (97 <=? n)%nat && (n <=? 122)%nat.

Definition is_upper (c : ascii) : bool :=
  let n := code c in (65 <=? n)%nat && (n <=? 90)%nat.

Definition upper_char (c : ascii) : ascii :=
  if is_lower c then ascii_of_nat (code c - 32) else c.

Definition swapcase_char (c : ascii) : ascii :=
  if is_lower c then ascii_of_nat (code c - 32)
  else if is_upper c then ascii_of_nat (code c + 32)
  else c.

Fixpoint upper (s : string) : string :=
  match s with
  | EmptyString => EmptyString
  | String c s' => String (upper_char c) (upper s')
  end.

Fixpoint lstrip (s : string) : string :=
  match s with
  | EmptyString => EmptyString
  | String c s' => if is_space c then lstrip s' else s
  end.

Fixpoint rstrip (s : string) : string :=
  match s with
  | EmptyString => EmptyString
  | String c s' =>
      match rstrip s' with
      | EmptyString => if is_space c then EmptyString else String c EmptyString
      | r => String c r
      end
  end.

Definition strip (s : string) : string := rstrip (lstrip s).

(** A text made of whitespace only. *)
Fixpoint blank (s : string) : bool :=
  match s with
  | EmptyString => true
  | String c s' => is_space c && blank s'
  end.

(** Two texts of the same length that differ, position by position, in
    the case of a letter at most. *)
Fixpoint same_but_case (s t : string) : bool :=
  match s, t with
  | EmptyString, EmptyString => true
  | String c s', String d t' =>
      (bool_decide (c = d) || bool_decide (d = swapcase_char c))
      && same_but_case s' t'
  | _, _ => false
  end.


(** A text of ASCII characters only. *)
Definition is_ascii (c : ascii) : bool := (code c <? 128)%nat.

Fixpoint ascii_only (s : string) : bool :=
  match s with
  | EmptyString => true
  | String c s' => is_ascii c && ascii_only s'
  end.

End Text.

(** ** Exceptions *)

Inductive exn : Type :=
  | KeyError (label : string)
  | MergeError
  | ValueError.

Inductive result (A : Type) : Type :=
  | Ok (a : A)
  | Err (e : exn).
Arguments Ok {A} a.
Arguments Err {A} e.

Definition bind {A B : Type} (r : result A) (k : A -> result B) : result B :=
  match r with
  | Ok a => k a
  | Err e => Err e
  end.

Notation "'let!' x ':=' r 'in' k" := (bind r (fun x => k))
  (at level 10, x name, r at level 100, k at level 200,
   format "'[v' 'let!'  x  ':='  r  'in' '/' k ']'").

Definition is_ok {A : Type} (r : result A) : bool :=
  match r with Ok _ => true | Err _ => false end.

(** ** The interface of pandas *)

Class PandasText : Type := {
  (** [str(x)] of a float, as [astype(str)] prints a float cell *)
  repr_float : Q -> string;
  (** what [astype(str)] makes of the null: pandas 3 leaves it null,
      pandas 2 prints it as the text [nan] *)
  null_stays_null : bool;
  (** the integer [pd.to_numeric] reads out of a text that is an integer
      literal *)
  parse_int : string -> option Z;
  (** the float [pd.to_numeric] reads out of any other text, if there is
      one *)
  parse_float : string -> option Q;
  (** the float64 nearest to an integer *)
  float_of_int : Z -> Q;
  (** the sum of a float64 column without nulls, as [groupby.sum] adds it
      up in row order *)
  float_sum : list Q -> Q;
  (** [pd.to_datetime(col, errors="coerce")]: one timestamp (the wall
      clock time, in nanoseconds) or NaT per cell, the format being
      inferred for the column as a whole; raises [ValueError] on texts
      with different UTC offsets *)
  to_datetime : list cell -> result (list (option Z));
  (** [Timestamp.year] *)
  year_of : Z -> Z;
  (** whether a merge also refuses a suffixed label that repeats a label
      of the other frame: pandas 3 does *)
  strict_suffixes : bool;
  float_of_int_exact : forall z : Z,
    (Z.abs z <= 2 ^ 53)%Z -> float_of_int z = inject_Z z;
  float_sum_exact : forall l : list Q,
    Forall whole l -> (sum_abs l <= inject_Z (2 ^ 53))%Q ->
    (float_sum l == exact_sum l)%Q;
  to_datetime_length : forall col ts,
    to_datetime col = Ok ts -> length ts = length col;
  to_datetime_null : forall col ts (i : nat),
    to_datetime col = Ok ts -> col !! i = Some NaN -> ts !! i = Some None
}.

(** ** Frames *)

Record frame : Type := Frame {
  nrows : nat;
  cols : list (string * list cell)
}.

Definition labels (f : frame) : list string := (cols f).*1.

(** Every column spans the index. *)
Definition well_formed (f : frame) : Prop :=
  Forall (fun p => length p.2 = nrows f) (cols f).

Fixpoint assoc (c : string) (l : list (string * list cell)) : option (list cell) :=
  match l with
  | [] => None
  | (k, v) :: l' => if decide (k = c) then Some v else assoc c l'
  end.

(** [df.get(c)]: the column, or [None]. *)
Definition get (f : frame) (c : string) : option (list cell) :=
  assoc c (cols f).

(** [df[c]]: the column, or [KeyError]. *)
Definition getitem (f : frame) (c : string) : result (list cell) :=
  match get f c with
  | Some v => Ok v
  | None => Err (KeyError c)
  end.

(** What can stand on the right of [df[c] = ...]: a column, or a scalar
    that is repeated along the index. *)
Inductive assignable : Type :=
  | Series (col : list cell)
  | Scalar (c : cell).

Definition broadcast (n : nat) (a : assignable) : list cell :=
  match a with
  | Series col => col
  | Scalar c => replicate n c
  end.

(** [df[c] = a]: in place when the label exists, else a new last column. *)
Definition setitem (f : frame) (c : string) (a : assignable) : frame :=
  let v := broadcast (nrows f) a in
  if decide (c ∈ labels f)
  then Frame (nrows f)
         (fmap (fun p => if decide (p.1 = c) then (c, v) else p) (cols f))
  else Frame (nrows f) (cols f ++ [(c, v)]).

(** [df.drop(columns=names, errors="ignore")] *)
Definition drop_ignore (names : list string) (f : frame) : frame :=
  Frame (nrows f) (filter (fun p => p.1 ∉ names) (cols f)).

(** [df.drop(columns=names)]: [KeyError] on the first label not found. *)
Definition drop (names : list string) (f : frame) : result frame :=
  match filter (fun n => n ∉ labels f) names with
  | [] => Ok (drop_ignore names f)
  | n :: _ => Err (KeyError n)
  end.

(** ** Column operations *)

Definition string_of_Z (z : Z) : string :=
  NilZero.string_of_int (Z.to_int z).

Section Columns.
Context `{PandasText}.

(** [astype(str)] on one cell: an integer prints as its decimal numeral,
    a float as Python prints it, a text is itself; the null, where it is
    printed at all, prints as [nan]. *)
Definition astype_str (c : cell) : string :=
  match c with
  | NaN => "nan"
  | Int z => string_of_Z z
  | Num q => repr_float q
  | Str s => s
  end.

(** [.astype(str).str.strip().str.upper()] on one cell that is printed. *)
Definition normalize_cell (c : cell) : string :=
  Text.upper (Text.strip (astype_str c)).

(** The join key [.astype(str).str.strip().str.upper()] makes of one
    cell: where [astype(str)] leaves the null null, so do [strip] and
    [upper]. *)
Definition normalize_key (c : cell) : cell :=
  if null_stays_null && isna c then NaN else Str (normalize_cell c).

Definition normalize (col : list cell) : list cell :=
  fmap normalize_key col.

(** What [pd.to_numeric(..., errors="coerce")] reads out of one cell. *)
Definition to_numeric_cell (c : cell) : cell :=
  match c with
  | Str s => match parse_int s with
             | Some z => Int z
             | None => match parse_float s with
                       | Some q => Num q
                       | None => NaN
                       end
             end
  | _ => c
  end.

(** An integer in a float64 column. *)
Definition as_float (c : cell) : cell :=
  match c with
  | Int z => Num (float_of_int z)
  | _ => c
  end.

(** [pd.to_numeric(col, errors="coerce")]: an int64 column when every
    cell reads as an integer of the int64 range, else a float64 column. *)
Definition to_numeric_column (col : list cell) : list cell :=
  let cells := fmap to_numeric_cell col in
  if forallb is_int64 cells then cells else fmap as_float cells.

(** [pd.to_numeric(x, errors="coerce")] where [x] is what [df.get]
    returned: a column is converted; [None] is a scalar and comes back
    as the scalar [nan]. *)
Definition to_numeric (x : option (list cell)) : assignable :=
  match x with
  | Some col => Series (to_numeric_column col)
  | None => Scalar NaN
  end.

(** [.dt.year] on one timestamp, as a cell of the [year] column. *)
Definition year_cell (t : option Z) : cell :=
  match t with
  | Some ns => Num (inject_Z (year_of ns))
  | None => NaN
  end.

(** The floats of a float64 column, its nulls left out. *)
Definition floats (l : list cell) : list Q :=
  omap (fun c => value (as_float c)) l.

End Columns.

(** The integers of an int64 column. *)
Definition ints (l : list cell) : list Z :=
  omap (fun c => match c with Int z => Some z | _ => None end) l.

(** Comparisons of a numeric column with a constant; a missing value
    satisfies none of them. *)
Definition cell_lt (q : Q) (c : cell) : bool :=
  match value c with
  | Some x => match (x ?= q)%Q with Lt => true | _ => false end
  | None => false
  end.

Definition cell_ge (q : Q) (c : cell) : bool :=
  match value c with
  | Some x => match (x ?= q)%Q with Lt => false | _ => true end
  | None => false
  end.

Definition cell_le (q : Q) (c : cell) : bool :=
  match value c with
  | Some x => match (x ?= q)%Q with Gt => false | _ => true end
  | None => false
  end.

Definition cell_between (lo hi : Q) (c : cell) : bool :=
  cell_ge lo c && cell_le hi c.

(** Unary minus on a numeric cell: exact on a float, wrapped around on an
    int64, where the least integer is its own negative; [-nan] is [nan]. *)
Definition cell_neg (c : cell) : cell :=
  match c with
  | Int z => Int (wrap64 (- z))
  | Num x => Num (- x)
  | _ => c
  end.

Definition lt (col : list cell) (q : Q) : list bool := fmap (cell_lt q) col.
Definition ge (col : list cell) (q : Q) : list bool := fmap (cell_ge q) col.
Definition between (col : list cell) (lo hi : Q) : list bool :=
  fmap (cell_between lo hi) col.
Definition mask_and (m1 m2 : list bool) : list bool := zip_with andb m1 m2.

(** The column [col] with the rows selected by [mask] negated. *)
Definition negate_where (mask : list bool) (col : list cell) : list cell :=
  zip_with (fun (m : bool) x => if m then cell_neg x else x) mask col.

(** [df.loc[mask, cs] = -df.loc[mask, cs]] *)
Fixpoint loc_negate (f : frame) (mask : list bool) (cs : list string)
  : result frame :=
  match cs with
  | [] => Ok f
  | c :: cs' =>
      let! col := getitem f c in
      loc_negate (setitem f c (Series (negate_where mask col))) mask cs'
  end.

(** ** The left join *)

Definition helper_columns : list string := ["_permit_join"; "_cs_join"].

(** [duplicated()]: whether a label repeats an earlier one. *)
Fixpoint duplicated_from (seen l : list string) : list bool :=
  match l with
  | [] => []
  | x :: l' => bool_decide (x ∈ seen) :: duplicated_from (x :: seen) l'
  end.

Definition duplicated (l : list string) : list bool := duplicated_from [] l.

(** The key of every row: the cells of the key columns, numbers reduced. *)
Definition key_rows (n : nat) (keycols : list (list cell)) : list (list cell) :=
  fmap (fun i => fmap (fun col => canon (nth i col NaN)) keycols) (seq 0 n).

(** The positions, counted from [j], of the right rows carrying key [k],
    in right order. *)
Fixpoint matches_from (j : nat) (k : list cell) (rkeys : list (list cell))
  : list nat :=
  match rkeys with
  | [] => []
  | k' :: rkeys' =>
      if decide (k' = k) then j :: matches_from (S j) k rkeys'
      else matches_from (S j) k rkeys'
  end.

Definition matches (k : list cell) (rkeys : list (list cell)) : list nat :=
  matches_from 0 k rkeys.

(** The indexer of a left join: every left position (counted from [i]), in
    left order, paired with each matching right position, or with none
    when nothing matches. *)
Fixpoint left_indexer_from (i : nat) (lkeys rkeys : list (list cell))
  : list (nat * option nat) :=
  match lkeys with
  | [] => []
  | k :: lkeys' =>
      match matches k rkeys with
      | [] => [(i, None)]
      | js => fmap (fun j => (i, Some j)) js
      end ++ left_indexer_from (S i) lkeys' rkeys
  end.

Definition left_indexer (lkeys rkeys : list (list cell))
  : list (nat * option nat) :=
  left_indexer_from 0 lkeys rkeys.

Definition take_left (ix : list (nat * option nat)) (col : list cell)
  : list cell :=
  fmap (fun p => nth p.1 col NaN) ix.

Definition take_right (ix : list (nat * option nat)) (col : list cell)
  : list cell :=
  fmap (fun p => match p.2 with
                | Some j => nth j col NaN
                | None => NaN
                end) ix.

Fixpoint getitems (f : frame) (cs : list string) : result (list (list cell)) :=
  match cs with
  | [] => Ok []
  | c :: cs' =>
      let! col := getitem f c in
      let! rest := getitems f cs' in
      Ok (col :: rest)
  end.

(** The labels of the right frame after suffixing those the left frame has
    too (the left suffix is empty, so left labels stay as they are). *)
Definition suffixed (left_labels : list string) (suffix : string)
    (right_labels : list string) : list string :=
  fmap (fun l => if decide (l ∈ left_labels) then l ++ suffix else l)
      right_labels.

Section Merge.
Context `{PandasText}.

(** Whether suffixing makes a right label repeat another one that it did
    not repeat before, or (pandas 3) makes it repeat a label that only
    the left frame has: pandas refuses to merge then. *)
Definition suffix_clash (left_labels : list string) (suffix : string)
    (right_labels : list string) : bool :=
  existsb (fun p : bool * bool => p.1 && negb p.2)
    (zip (duplicated (suffixed left_labels suffix right_labels))
         (duplicated right_labels))
  || (strict_suffixes
      && existsb (fun l => bool_decide (l ∈ left_labels)
                           && negb (bool_decide (l ∈ right_labels)))
           (suffixed left_labels suffix right_labels)).

(** [left.merge(right, how="left", on=on, suffixes=("", suffix))] *)
Definition merge_left (left right : frame) (on : list string) (suffix : string)
  : result frame :=
  let! lk := getitems left on in
  let! rk := getitems right on in
  let right' := drop_ignore on right in
  let rlabels := suffixed (labels left) suffix (labels right') in
  if suffix_clash (labels left) suffix (labels right')
  then Err MergeError
  else
    let ix := left_indexer (key_rows (nrows left) lk)
                           (key_rows (nrows right) rk) in
    Ok (Frame (length ix)
          (fmap (fun p => (p.1, take_left ix p.2)) (cols left)
           ++ zip rlabels (fmap (fun p => take_right ix p.2) (cols right')))).

End Merge.

(** ** Grouping and aggregation *)

(** The order in which [groupby] sorts the values of a key column:
    numbers, then texts, then the missing value. *)
Definition cell_leb (a b : cell) : bool :=
  match value a, value b with
  | Some x, Some y => Qle_bool x y
  | Some _, None => true
  | None, Some _ => false
  | None, None =>
      match a, b with
      | Str s, Str t => String.leb s t
      | Str _, _ => true
      | _, Str _ => false
      | _, _ => true
      end
  end.

Fixpoint key_leb (k1 k2 : list cell) : bool :=
  match k1, k2 with
  | [], _ => true
  | _ :: _, [] => false
  | a :: k1', b :: k2' =>
      if decide (a = b) then key_leb k1' k2' else cell_leb a b
  end.

(** One row of [df_summary], as far as the aggregation reads it. *)
Record event_row : Type := EventRow {
  group_key : list cell;
  event_key : cell;
  sso_volume_gal : cell;
  sso_start_dt : option Z;
  sso_end_dt : option Z
}.

Record summary_row : Type := SummaryRow {
  key : list cell;
  sso_event_count : nat;
  sso_total_volume_gal : Q;
  sso_first_event : option Z;
  sso_last_event : option Z
}.

(** [nunique]: the distinct values, the missing one left out. *)
Definition nunique (l : list cell) : nat :=
  length (remove_dups (fmap canon (filter (fun c => c ≠ NaN) l))).

Section Aggregation.
Context `{PandasText}.

(** [sum]: missing values are skipped and the empty sum is 0; an int64
    column is added up in int64, a float64 column in float64. *)
Definition nansum (l : list cell) : Q :=
  if forallb is_int l
  then inject_Z (wrap64 (foldr Z.add 0%Z (ints l)))
  else float_sum (floats l).

(** [min] and [max] of timestamps: NaT is skipped; NaT when all are. *)
Definition nanreduce (f : Z -> Z -> Z) (l : list (option Z)) : option Z :=
  fold_left (fun acc t => match acc, t with
                          | Some a, Some b => Some (f a b)
                          | None, _ => t
                          | _, None => acc
                          end) l None.

Definition nanmin : list (option Z) -> option Z := nanreduce Z.min.
Definition nanmax : list (option Z) -> option Z := nanreduce Z.max.

(** The keys of the groups, each once, sorted. *)
Definition group_keys (rows : list event_row) : list (list cell) :=
  merge_sort (fun k1 k2 => key_leb k1 k2) (remove_dups (fmap group_key rows)).

(** The rows of the group of key [k], in table order. *)
Definition group_of (k : list cell) (rows : list event_row) : list event_row :=
  filter (fun r => group_key r = k) rows.

Definition aggregate (k : list cell) (g : list event_row) : summary_row :=
  {| key := k;
     sso_event_count := nunique (fmap event_key g);
     sso_total_volume_gal := nansum (fmap sso_volume_gal g);
     sso_first_event := nanmin (fmap sso_start_dt g);
     sso_last_event := nanmax (fmap sso_end_dt g) |}.

(** [groupby(cols, dropna=False).agg(...).reset_index()] *)
Definition groupby_agg (rows : list event_row) : list summary_row :=
  fmap (fun k => aggregate k (group_of k rows)) (group_keys rows).

End Aggregation.

(** ** The pipeline *)

Record outputs : Type := Outputs {
  collection_system_permit_raw : frame;
  sewer_overflow_bypass_event_raw : frame;
  sso_events_with_collection_system : frame;
  sso_summary_by_permit_year : list summary_row
}.

Definition summary_group_cols : list string :=
  ["permit_identifier"; "collection_system_identifier";
   "collection_system_name"; "collection_system_owner_type_desc";
   "collection_system_population"].

Section Pipeline.
Context `{PandasText}.

(** Normalized join keys (robust to whitespace/case), written into the
    caller's two frames. *)
Definition join_keys (df_coll df_sso : frame) : result (frame * frame) :=
  let! p := getitem df_coll "permit_identifier" in
  let df_coll := setitem df_coll "_permit_join" (Series (normalize p)) in
  let! p := getitem df_sso "permit_identifier" in
  let df_sso := setitem df_sso "_permit_join" (Series (normalize p)) in
  let! c := getitem df_coll "collection_system_identifier" in
  let df_coll := setitem df_coll "_cs_join" (Series (normalize c)) in
  let! c := getitem df_sso "collection_system_identifier" in
  let df_sso := setitem df_sso "_cs_join" (Series (normalize c)) in
  Ok (df_coll, df_sso).

(** Coordinate cleanup (fix sign errors for US systems), written into
    the caller's events frame. *)
Definition coordinate_cleanup (df_sso : frame) : result frame :=
  let df_sso := setitem df_sso "latitude_measure"
                  (to_numeric (get df_sso "latitude_measure")) in
  let df_sso := setitem df_sso "longitude_measure"
                  (to_numeric (get df_sso "longitude_measure")) in
  (* 1) rows with negative latitude -> flip both *)
  let! lat := getitem df_sso "latitude_measure" in
  let mask_both := lt lat 0 in
  let! df_sso := loc_negate df_sso mask_both
                   ["latitude_measure"; "longitude_measure"] in
  (* 2) rows with lat >= 0 and positive lon 60-110 -> flip lon only *)
  let! lat := getitem df_sso "latitude_measure" in
  let! lon := getitem df_sso "longitude_measure" in
  let mask_lon_only := mask_and (ge lat 0) (between lon 60 110) in
  loc_negate df_sso mask_lon_only ["longitude_measure"].

(** The rows the aggregation reads, built from [df_summary]: the merged
    frame with the parsed [sso_start_dt], [sso_end_dt], [sso_volume_gal]
    and [year] set on it. *)
Definition summary_rows (df_merged : frame) : result (list event_row) :=
  let! start := getitem df_merged "sewer_overflow_bypass_start_datetime" in
  let! sso_start_dt := to_datetime start in
  let! end_ := getitem df_merged "sewer_overflow_bypass_end_datetime" in
  let! sso_end_dt := to_datetime end_ in
  let! vol := getitem df_merged
                "sewer_overflow_bypass_discharge_volume_gallons" in
  let sso_volume_gal : list cell := to_numeric_column vol in
  let year : list cell := fmap year_cell sso_start_dt in
  let! keycols := getitems df_merged summary_group_cols in
  let! ek := getitem df_merged "sewer_overflow_bypass_event_key" in
  Ok (fmap (fun i =>
             {| group_key :=
                  fmap (fun col => canon (nth i col NaN)) (keycols ++ [year])%list;
                event_key := nth i ek NaN;
                sso_volume_gal := nth i sso_volume_gal NaN;
                sso_start_dt := nth i sso_start_dt None;
                sso_end_dt := nth i sso_end_dt None |})
          (seq 0 (nrows df_merged))).

Definition summarize (df_merged : frame) : result (list summary_row) :=
  let! rows := summary_rows df_merged in
  Ok (groupby_agg rows).

(** The event-level table: coordinates cleaned, permits joined on the
    normalized keys, helper columns dropped.  Returns the merged frame
    and the caller's two frames as the steps left them. *)
Definition reconcile (df_coll df_sso : frame)
  : result (frame * (frame * frame)) :=
  let! keyed := join_keys df_coll df_sso in
  let df_coll := keyed.1 in
  let! df_sso := coordinate_cleanup keyed.2 in
  let! df_merged := merge_left df_sso df_coll helper_columns "_coll" in
  let! df_merged := drop helper_columns df_merged in
  Ok (df_merged, (df_coll, df_sso)).

(** [merge_sso_with_collection_system(df_coll, df_sso)]: the four output
    tables, and the two argument frames as the call leaves them (the
    function writes its helper and coordinate columns into them). *)
Definition merge_sso_with_collection_system (df_coll df_sso : frame)
  : result (outputs * (frame * frame)) :=
  (* keep raw copies *)
  let df_coll_raw := df_coll in
  let df_sso_raw := df_sso in
  let! r := reconcile df_coll df_sso in
  let df_merged := r.1 in
  let df_coll_raw := drop_ignore helper_columns df_coll_raw in
  let df_sso_raw := drop_ignore helper_columns df_sso_raw in
  let! sso_summary := summarize df_merged in
  Ok ({| collection_system_permit_raw := df_coll_raw;
         sewer_overflow_bypass_event_raw := df_sso_raw;
         sso_events_with_collection_system := df_merged;
         sso_summary_by_permit_year := sso_summary |},
      r.2).

End Pipeline.

(** ** Row-wise readings *)

(** The numeric column the cleanup starts from: the coerced column, or the
    broadcast [nan] when the frame has no such column. *)
Definition parsed `{PandasText} (f : frame) (c : string) : list cell :=
  broadcast (nrows f) (to_numeric (get f c)).

(** What the two masked assignments do to one row (latitude, longitude). *)
Definition flip_both (p : cell * cell) : cell * cell :=
  if cell_lt 0 p.1 then (cell_neg p.1, cell_neg p.2) else p.

Definition flip_lon_only (p : cell * cell) : cell * cell :=
  if cell_ge 0 p.1 && cell_between 60 110 p.2 then (p.1, cell_neg p.2) else p.

Definition row_cleanup (p : cell * cell) : cell * cell :=
  flip_lon_only (flip_both p).

(** The columns the cleanup leaves, in closed form. *)
Section Cleaned.
Context `{PandasText}.

Definition flipped_lat (f : frame) : list cell :=
  negate_where (lt (parsed f "latitude_measure") 0)
               (parsed f "latitude_measure").

Definition flipped_lon (f : frame) : list cell :=
  negate_where (lt (parsed f "latitude_measure") 0)
               (parsed f "longitude_measure").

Definition cleaned_lon (f : frame) : list cell :=
  negate_where (mask_and (ge (flipped_lat f) 0)
                         (between (flipped_lon f) 60 110))
               (flipped_lon f).

Definition cleaned (f : frame) : frame :=
  let f1 := setitem f "latitude_measure"
              (to_numeric (get f "latitude_measure")) in
  let f2 := setitem f1 "longitude_measure"
              (to_numeric (get f "longitude_measure")) in
  let f3 := setitem f2 "latitude_measure" (Series (flipped_lat f)) in
  let f4 := setitem f3 "longitude_measure" (Series (flipped_lon f)) in
  setitem f4 "longitude_measure" (Series (cleaned_lon f)).

End Cleaned.

(** The labelled cells of row [i]. *)
Definition row_at (f : frame) (i : nat) : list (string * cell) :=
  (fun p : string * list cell => (p.1, nth i p.2 NaN)) <$> cols f.

(** The frame has a column labelled [c], and every column so labelled is
    [v]. *)
Definition col_is (f : frame) (c : string) (v : list cell) : Prop :=
  c ∈ labels f /\ forall col, (c, col) ∈ cols f -> col = v.

(** A cell [pd.to_numeric] leaves as it is: a number or the null. *)
Definition numeric (c : cell) : Prop :=
  match c with Str _ => False | _ => True end.

(** The cell of column [c] in row [i], when there is one. *)
Definition cell_at (f : frame) (c : string) (i : nat) : option cell :=
  get f c ≫= fun col => col !! i.

(** The normalized key pair of every row of an input frame. *)
Definition normalized_keys `{PandasText} (f : frame) : list (list cell) :=
  key_rows (nrows f)
    [normalize (default [] (get f "permit_identifier"));
     normalize (default [] (get f "collection_system_identifier"))].

(** How many rows of [rkeys] carry the key [k]. *)
Definition fan_out (rkeys : list (list cell)) (k : list cell) : nat :=
  length (filter (fun k' => k' = k) rkeys).

(** The row a left join makes of left row [i] and right row [oj] (or of no
    right row): the left cells, then the right cells other than the keys
    under their suffixed labels. *)
Definition joined_row (left right : frame) (on : list string) (suffix : string)
    (i : nat) (oj : option nat) : list (string * cell) :=
  row_at left i ++
  fmap (fun q : string * list cell =>
          (if decide (q.1 ∈ labels left) then (q.1 ++ suffix)%string else q.1,
           match oj with Some j => nth j q.2 NaN | None => NaN end))
       (cols (drop_ignore on right)).

(** The frames and the index of the reconciliation, in closed form. *)
Section Reconciled.
Context `{PandasText}.

(** An input frame with its two helper columns written. *)
Definition keyed (f : frame) : frame :=
  let f1 := setitem f "_permit_join"
              (Series (normalize (default [] (get f "permit_identifier")))) in
  setitem f1 "_cs_join"
    (Series (normalize
               (default [] (get f "collection_system_identifier")))).

Definition join_index (df_coll df_sso : frame) : list (nat * option nat) :=
  left_indexer (normalized_keys df_sso) (normalized_keys df_coll).

Definition merged (df_coll df_sso : frame) : frame :=
  let left := cleaned (keyed df_sso) in
  let right' := drop_ignore helper_columns (keyed df_coll) in
  let ix := join_index df_coll df_sso in
  drop_ignore helper_columns
    (Frame (length ix)
       (fmap (fun p => (p.1, take_left ix p.2)) (cols left)
        ++ zip (suffixed (labels left) "_coll" (labels right'))
               (fmap (fun p => take_right ix p.2) (cols right')))).

(** Whether the merge of the reconciliation is refused for its labels. *)
Definition labels_clash (df_coll df_sso : frame) : bool :=
  suffix_clash (labels (cleaned (keyed df_sso))) "_coll"
    (labels (drop_ignore helper_columns (keyed df_coll))).

End Reconciled.

(** The order of the rows of a left join: by left position, and for one
    left position by right position. *)
Definition index_lt (p q : nat * option nat) : Prop :=
  p.1 < q.1 \/
  (p.1 = q.1 /\
   match p.2, q.2 with
   | Some j, Some j' => j < j'
   | _, _ => False
   end).

(** The columns the call reads by name: the two identifiers, and the
    columns of the merged table the summary is made from. *)
Definition identifier_columns : list string :=
  ["permit_identifier"; "collection_system_identifier"].

Definition summary_inputs : list string :=
  ["sewer_overflow_bypass_start_datetime";
   "sewer_overflow_bypass_end_datetime";
   "sewer_overflow_bypass_discharge_volume_gallons";
   "permit_identifier"; "collection_system_identifier";
   "collection_system_name"; "collection_system_owner_type_desc";
   "collection_system_population";
   "sewer_overflow_bypass_event_key"].

(** ** What the aggregation reads of the merged table *)

Section Reading.
Context `{PandasText}.

(** [r] is what the aggregation reads of row [i] of the merged table [m],
    the start and end columns being read as the timestamps [ts] and [te]
    and the volume column as the numbers [vols]: the first five grouping
    values are the cells of the five grouping columns, the sixth is the
    year of the start. *)
Record reads (m : frame) (ts te : list (option Z)) (vols : list cell)
    (i : nat) (r : event_row) : Prop := Reads {
  reads_key : forall n c, summary_group_cols !! n = Some c ->
    exists x, cell_at m c i = Some x /\ group_key r !! n = Some (canon x);
  reads_year : group_key r !! 5 = Some (year_cell (sso_start_dt r));
  reads_length : length (group_key r) = 6;
  reads_start : ts !! i = Some (sso_start_dt r);
  reads_end : te !! i = Some (sso_end_dt r);
  reads_event_key :
    cell_at m "sewer_overflow_bypass_event_key" i = Some (event_key r);
  reads_volume : vols !! i = Some (sso_volume_gal r)
}.

(** [rows] are the rows the aggregation reads of [m], one for each row of
    [m] and in its order. *)
Definition summary_input (m : frame) (rows : list event_row) : Prop :=
  exists start end_ vol ts te,
    get m "sewer_overflow_bypass_start_datetime" = Some start /\
    to_datetime start = Ok ts /\
    get m "sewer_overflow_bypass_end_datetime" = Some end_ /\
    to_datetime end_ = Ok te /\
    get m "sewer_overflow_bypass_discharge_volume_gallons" = Some vol /\
    length rows = nrows m /\
    forall i r, rows !! i = Some r ->
      reads m ts te (to_numeric_column vol) i r.

End Reading.

(** Whether the datetime column [c] of [m], if [m] has it, is read
    without an exception. *)
Definition datetime_ok `{PandasText} (m : frame) (c : string) : bool :=
  match get m c with
  | Some col => is_ok (to_datetime col)
  | None => true
  end.

(** ** The tables the properties are stated for *)

(** A column is of one kind: int64, or without an integer. *)
Definition of_one_kind (col : list cell) : Prop :=
  Forall (fun c => is_int64 c = true) col \/
  Forall (fun c => is_int c = false) col.

(** A number that negation negates: any float, and any int64 but the
    least, which is its own negative. *)
Definition negatable (c : cell) : Prop :=
  match c with
  | Int z => (- 2 ^ 63 < z < 2 ^ 63)%Z
  | _ => True
  end.

(** Column [c] of [f], if [f] has it, reads as no integer beyond the
    int64 range.  (pandas takes such integers as uint64, as floats or as
    Python objects from case to case; the model takes them as floats.) *)
Definition int64_column `{PandasText} (f : frame) (c : string) : bool :=
  match get f c with
  | Some col => forallb (fun x => match to_numeric_cell x with
                                  | Int z => fits_int64 z
                                  | _ => true
                                  end) col
  | None => true
  end.

(** No cell of column [c] of [f] reads as the least int64. *)
Definition least_int64_free `{PandasText} (f : frame) (c : string) : bool :=
  forallb (fun x => negb (bool_decide (x = Int (- 2 ^ 63))))
    (broadcast (nrows f) (to_numeric (get f c))).

(** The texts of the identifier columns are ASCII, where [Text.strip] and
    [Text.upper] are Python's [str.strip] and [str.upper]. *)
Definition ascii_cell (c : cell) : bool :=
  match c with Str s => Text.ascii_only s | _ => true end.

Definition ascii_column (f : frame) (c : string) : bool :=
  match get f c with
  | Some col => forallb ascii_cell col
  | None => true
  end.

Definition ascii_identifiers (f : frame) : bool :=
  ascii_column f "permit_identifier"
  && ascii_column f "collection_system_identifier".

(** ** Fetching the archive and finding the two tables

    [download_sso_zip] and the member lookup of [load_sso_tables].  The
    world the download acts on is the cache file and the requests sent
    so far; what a request meets is a parameter of the call: no answer
    (the request raises) or a response with a status and a body. *)

Module Source.

Inductive io_exn :=
| StopIteration
| RequestException
| HTTPError (status : Z).

Record response := Response {
  status_code : Z;
  content : list Byte.byte
}.

Record world := World {
  zip_file : option (list Byte.byte);
  requests_sent : nat
}.

(** [Response.raise_for_status]: client and server errors raise. *)
Definition raise_for_status (r : response) : io_exn + unit :=
  if ((400 <=? status_code r) && (status_code r <? 600))%Z
  then inl (HTTPError (status_code r))
  else inr tt.

Definition requests_get (server : option response) (w : world)
  : (io_exn + response) * world :=
  let w' := World (zip_file w) (S (requests_sent w)) in
  match server with
  | Some r => (inr r, w')
  | None => (inl RequestException, w')
  end.

Definition write_bytes (data : list Byte.byte) (w : world) : world :=
  World (Some data) (requests_sent w).

Definition exists_ (w : world) : bool :=
  match zip_file w with Some _ => true | None => false end.

Definition download_sso_zip (force : bool) (server : option response)
    (w : world) : (io_exn + unit) * world :=
  if exists_ w && negb force then (inr tt, w)
  else
    let '(resp, w) := requests_get server w in
    match resp with
    | inl e => (inl e, w)
    | inr resp =>
        match raise_for_status resp with
        | inl e => (inl e, w)
        | inr _ => (inr tt, write_bytes (content resp) w)
        end
    end.

Definition lower_char (c : ascii) : ascii :=
  if Text.is_upper c then ascii_of_nat (Text.code c + 32) else c.

Fixpoint lower (s : string) : string :=
  match s with
  | EmptyString => EmptyString
  | String c s' => String (lower_char c) (lower s')
  end.

(** [pat in s]. *)
Fixpoint contains (pat s : string) : bool :=
  String.prefix pat s
  || match s with
     | EmptyString => false
     | String _ s' => contains pat s'
     end.

(** [next(n for n in names if pat in n.lower())]. *)
Definition find_name (pat : string) (names : list string)
  : io_exn + string :=
  match List.find (fun n => contains pat (lower n)) names with
  | Some n => inr n
  | None => inl StopIteration
  end.

Definition table_names (names : list string) : io_exn + (string * string) :=
  match find_name "collection_system_permit" names with
  | inl e => inl e
  | inr coll_name =>
      match find_name "sewer_overflow_bypass_event" names with
      | inl e => inl e
      | inr sso_name => inr (coll_name, sso_name)
      end
  end.

(** [pat] occurs in [s]. *)
Definition occurs_in (pat s : string) : Prop :=
  exists a b, s = a ++ pat ++ b.

(** [n] is the first of [names] whose lower-case form has [pat] in it. *)
Definition first_match (pat : string) (names : list string) (n : string)
  : Prop :=
  exists before after,
    names = (before ++ n :: after)%list /\
    occurs_in pat (lower n) /\
    forall m, m ∈ before -> ~ occurs_in pat (lower m).

End Source.

(** ** The reference correction, as the specification words it *)

Module Reference.

(** Rule A: if latitude < 0, negate both latitude and longitude. *)
Definition rule_a (lat lon : Q) : Q * Q :=
  if Qlt_le_dec lat 0 then (- lat, - lon)%Q else (lat, lon).

(** Rule B: if latitude >= 0 and longitude lies in [60, 110], negate the
    longitude only. *)
Definition rule_b (lat lon : Q) : Q * Q :=
  if Qle_bool 0 lat && (Qle_bool 60 lon && Qle_bool lon 110)
  then (lat, - lon)%Q else (lat, lon).

(** Rule A first, Rule B on what Rule A left. *)
Definition correct (lat lon : Q) : Q * Q :=
  let a := rule_a lat lon in rule_b a.1 a.2.

(** The sum of the values that are there. *)
Definition total (l : list cell) : Q :=
  foldr Qplus 0%Q (omap value l).

End Reference.

(** ** A pandas for closed examples

    It reads decimal integers and decimal fractions, and timestamps
    written [YYYY-MM-DD], [YYYY-MM-DD HH:MM:SS] or
    [YYYY-MM-DD HH:MM:SS+HH:MM] (with [T] for the blank, [-] for [+]),
    the first text of a column deciding which of the three the column is
    read as.  A timestamp is kept as the number its wall clock digits
    spell.  Its floats are added up exactly and print as [n.0] when
    whole, so the examples keep to whole numbers that binary64 adds up
    exactly. *)

Module Plain.

Definition read_int (s : string) : option Z :=
  Z.of_int <$> NilZero.int_of_string s.

Definition digit (c : ascii) : option Z :=
  let n := Z.of_nat (nat_of_ascii c) in
  if ((48 <=? n) && (n <=? 57))%Z then Some (n - 48)%Z else None.

Fixpoint number (acc : Z) (s : string) : option Z :=
  match s with
  | EmptyString => Some acc
  | String c s' =>
      match digit c with
      | Some d => number (10 * acc + d)%Z s'
      | None => None
      end
  end.

(** The [len] digits of [s] from position [pos]. *)
Definition field (pos len : nat) (s : string) : option Z :=
  let t := substring pos len s in
  if (String.length t =? len)%nat then number 0 t else None.

Definition is_char (pos : nat) (cs : list ascii) (s : string) : bool :=
  match String.get pos s with
  | Some c => bool_decide (c ∈ cs)
  | None => false
  end.

(** A decimal fraction: digits, a point, digits, with a sign or none. *)
Definition read_decimal (s : string) : option Q :=
  let neg := is_char 0 ["-"%char] s in
  let body := if neg then substring 1 (String.length s - 1) s else s in
  match String.index 0 "." body with
  | Some p =>
      let frac := substring (S p) (String.length body - S p) body in
      match number 0 (substring 0 p body), number 0 frac with
      | Some a, Some b =>
          if ((0 <? p) && (0 <? String.length frac))%nat
          then let q := (inject_Z a
                         + inject_Z b / inject_Z (10 ^ Z.of_nat (String.length frac)))%Q in
               Some (Qred (if neg then - q else q))
          else None
      | _, _ => None
      end
  | None => None
  end.

Definition days_in_month (y m : Z) : Z :=
  if (m =? 2)%Z
  then if ((y mod 4 =? 0) && (negb (y mod 100 =? 0) || (y mod 400 =? 0)))%Z
       then 29%Z else 28%Z
  else if ((m =? 4) || (m =? 6) || (m =? 9) || (m =? 11))%Z then 30%Z
  else 31%Z.

Definition read_date (s : string) : option Z :=
  match field 0 4 s, field 5 2 s, field 8 2 s with
  | Some y, Some m, Some d =>
      if is_char 4 ["-"%char] s && is_char 7 ["-"%char] s
         && ((1 <=? m) && (m <=? 12) && (1 <=? d)
             && (d <=? days_in_month y m))%Z
      then Some (y * 10000 + m * 100 + d)%Z
      else None
  | _, _, _ => None
  end.

Definition read_time (s : string) : option Z :=
  match field 11 2 s, field 14 2 s, field 17 2 s with
  | Some h, Some m, Some sec =>
      if is_char 10 ["T"%char; " "%char] s
         && is_char 13 [":"%char] s && is_char 16 [":"%char] s
         && ((h <=? 23) && (m <=? 59) && (sec <=? 59))%Z
      then Some (h * 10000 + m * 100 + sec)%Z
      else None
  | _, _, _ => None
  end.

(** The UTC offset, in minutes. *)
Definition read_offset (s : string) : option Z :=
  match field 20 2 s, field 23 2 s with
  | Some h, Some m =>
      if is_char 19 ["+"%char; "-"%char] s && is_char 22 [":"%char] s
         && ((h <=? 23) && (m <=? 59))%Z
      then Some ((if is_char 19 ["-"%char] s then -1 else 1) * (60 * h + m))%Z
      else None
  | _, _ => None
  end.

(** The wall clock digits of a timestamp and its offset, if it has one. *)
Definition read_stamp (s : string) : option (Z * option Z) :=
  match String.length s with
  | 10 => (fun d => (d * 1000000, None)%Z) <$> read_date s
  | 19 =>
      match read_date s, read_time s with
      | Some d, Some t => Some (d * 1000000 + t, None)%Z
      | _, _ => None
      end
  | 25 =>
      match read_date s, read_time s, read_offset s with
      | Some d, Some t, Some o => Some (d * 1000000 + t, Some o)%Z
      | _, _, _ => None
      end
  | _ => None
  end.

(** The length of the texts the column is read as: that of its first
    text. *)
Fixpoint first_shape (col : list cell) : option nat :=
  match col with
  | [] => None
  | Str s :: _ => Some (String.length s)
  | _ :: col' => first_shape col'
  end.

Definition read_cell (shape : option nat) (c : cell) : option (Z * option Z) :=
  match c with
  | Str s => if bool_decide (shape = Some (String.length s))
             then read_stamp s else None
  | _ => None
  end.

Definition to_datetime (col : list cell) : result (list (option Z)) :=
  let stamps := fmap (read_cell (first_shape col)) col in
  match remove_dups (omap (fun st => st ≫= snd) stamps) with
  | _ :: _ :: _ => Err ValueError
  | _ => Ok (fmap (fmap fst) stamps)
  end.

Definition repr_float (q : Q) : string :=
  if decide (Qden q = 1%positive)
  then string_of_Z (Qnum q) ++ ".0"
  else string_of_Z (Qnum q) ++ "/" ++ string_of_Z (Zpos (Qden q)).

End Plain.

Definition pandas_text (pandas3 : bool) : PandasText.
Proof.
  refine {| repr_float := Plain.repr_float;
            null_stays_null := pandas3;
            parse_int := Plain.read_int;
            parse_float := Plain.read_decimal;
            float_of_int := inject_Z;
            float_sum := exact_sum;
            to_datetime := Plain.to_datetime;
            year_of t := (t / 10000000000)%Z;
            strict_suffixes := pandas3 |}.
  - reflexivity.
  - reflexivity.
  - intros col ts. unfold Plain.to_datetime.
    destruct (remove_dups _) as [|? [|? ?]]; intros [= <-];
      rewrite !length_fmap; reflexivity.
  - intros col ts i. unfold Plain.to_datetime.
    destruct (remove_dups _) as [|? [|? ?]]; intros [= <-] Hi;
      rewrite !list_lookup_fmap, Hi; reflexivity.
Defined.

(** pandas 3, and pandas 2. *)
Definition plain_text : PandasText := pandas_text true.
Definition plain_text2 : PandasText := pandas_text false.

(** ** Tables for closed examples *)

Module Examples.

(** Two permit rows for one collection system; their identifiers differ
    in case and trailing whitespace only. *)
Definition permits : frame :=
  Frame 2
    [("permit_identifier", [Str "IA0012345"; Str "ia0012345 "]);
     ("collection_system_identifier", [Str "1"; Str "1"]);
     ("collection_system_name", [Str "North"; Str "North"]);
     ("collection_system_owner_type_desc",
      [Str "Municipal"; Str "Municipal"]);
     ("collection_system_population", [Num 1200; NaN])].

(** One event, reported with both coordinate signs flipped. *)
Definition events : frame :=
  Frame 1
    [("permit_identifier", [Str " ia0012345 "]);
     ("collection_system_identifier", [Str "1"]);
     ("sewer_overflow_bypass_event_key", [Int 1]);
     ("sewer_overflow_bypass_start_datetime", [Str "2020-03-01"]);
     ("sewer_overflow_bypass_end_datetime", [Str "2020-03-02"]);
     ("sewer_overflow_bypass_discharge_volume_gallons", [Str "1000"]);
     ("latitude_measure", [Num (-41)]);
     ("longitude_measure", [Num 98])].

(** The permits, with a column of their own that bears a helper name. *)
Definition permits_with_helper_name : frame :=
  Frame 2 (cols permits ++ [("_cs_join", [Str "a"; Str "b"])]).

(** An event with a negative latitude and no longitude. *)
Definition events_without_longitude : frame :=
  Frame 1
    [("permit_identifier", [Str "IA0012345"]);
     ("collection_system_identifier", [Str "1"]);
     ("latitude_measure", [Num (-5)]);
     ("longitude_measure", [NaN])].

(** Three events of one permit: two without a parsable start, one of
    them without a volume. *)
Definition events_with_nulls : frame :=
  Frame 3
    [("permit_identifier", [Str "IA1"; Str "IA1"; Str "IA1"]);
     ("collection_system_identifier", [Str "7"; Str "7"; Str "7"]);
     ("sewer_overflow_bypass_event_key", [Int 1; Int 2; Int 2]);
     ("sewer_overflow_bypass_start_datetime",
      [Str "2021-05-01"; Str "unknown"; NaN]);
     ("sewer_overflow_bypass_end_datetime",
      [Str "2021-05-02"; Str "2022-01-03"; NaN]);
     ("sewer_overflow_bypass_discharge_volume_gallons",
      [Str "1000"; Str "n/a"; Str "2000"]);
     ("latitude_measure", [Num 40; Str "north"; Num 13]);
     ("longitude_measure", [Num 88; Num 75; Num 144])].

Definition permit_one : frame :=
  Frame 1
    [("permit_identifier", [Str "ia1"]);
     ("collection_system_identifier", [Str "7"]);
     ("collection_system_name", [Str "East"]);
     ("collection_system_owner_type_desc", [NaN]);
     ("collection_system_population", [NaN])].

(** The event of [events] with every parsed cell unreadable. *)
Definition events_garbled : frame :=
  Frame 1
    [("permit_identifier", [Str " ia0012345 "]);
     ("collection_system_identifier", [Str "1"]);
     ("sewer_overflow_bypass_event_key", [Int 1]);
     ("sewer_overflow_bypass_start_datetime", [Str "yesterday"]);
     ("sewer_overflow_bypass_end_datetime", [NaN]);
     ("sewer_overflow_bypass_discharge_volume_gallons", [Str "a lot"]);
     ("latitude_measure", [Str "north"]);
     ("longitude_measure", [Str "west"])].

(** An event table without a latitude column, and one without the permit
    identifier column. *)
Definition events_without_latitude_column : frame :=
  Frame 1
    [("permit_identifier", [Str "IA0012345"]);
     ("collection_system_identifier", [Str "1"]);
     ("longitude_measure", [Num 88])].

Definition events_without_identifier_column : frame :=
  Frame 1
    [("collection_system_identifier", [Str "1"]);
     ("latitude_measure", [Num 40]);
     ("longitude_measure", [Num 88])].

(** An event with a negative latitude, in a table without a longitude
    column. *)
Definition events_without_longitude_column : frame :=
  Frame 1
    [("permit_identifier", [Str "IA0012345"]);
     ("collection_system_identifier", [Str "1"]);
     ("latitude_measure", [Num (-5)])].

(** Two events, the second without a permit identifier, and a permit
    whose identifier is spelled [nan]. *)
Definition events_null_identifier : frame :=
  Frame 2
    [("permit_identifier", [Str "IA1"; NaN]);
     ("collection_system_identifier", [Str "7"; Str "7"])].

Definition permit_spelled_nan : frame :=
  Frame 1
    [("permit_identifier", [Str "nan"]);
     ("collection_system_identifier", [Str "7"]);
     ("collection_system_name", [Str "East"])].

(** Two events of one permit and one year whose volumes, integers, add up
    to more than an int64 holds. *)
Definition events_big_volumes : frame :=
  Frame 2
    [("permit_identifier", [Str "IA1"; Str "IA1"]);
     ("collection_system_identifier", [Str "7"; Str "7"]);
     ("sewer_overflow_bypass_event_key", [Int 1; Int 2]);
     ("sewer_overflow_bypass_start_datetime",
      [Str "2021-05-01"; Str "2021-06-01"]);
     ("sewer_overflow_bypass_end_datetime",
      [Str "2021-05-02"; Str "2021-06-02"]);
     ("sewer_overflow_bypass_discharge_volume_gallons",
      [Int 9223372036854775807; Int 1]);
     ("latitude_measure", [Num 40; Num 41]);
     ("longitude_measure", [Num (-88); Num (-89)])].

(** Two events whose starts are well-formed timestamps with different
    UTC offsets. *)
Definition events_mixed_offsets : frame :=
  Frame 2
    [("permit_identifier", [Str "IA0012345"; Str "IA0012345"]);
     ("collection_system_identifier", [Str "1"; Str "1"]);
     ("sewer_overflow_bypass_event_key", [Int 1; Int 2]);
     ("sewer_overflow_bypass_start_datetime",
      [Str "2020-01-01T00:00:00+01:00"; Str "2020-06-01T00:00:00+02:00"]);
     ("sewer_overflow_bypass_end_datetime",
      [Str "2020-01-02"; Str "2020-06-02"]);
     ("sewer_overflow_bypass_discharge_volume_gallons",
      [Int 1000; Int 2000]);
     ("latitude_measure", [Num 40; Num 41]);
     ("longitude_measure", [Num (-88); Num (-89)])].

(** An event with a negative latitude and a longitude that is no number. *)
Definition events_unparsable_longitude : frame :=
  Frame 1
    [("permit_identifier", [Str "IA0012345"]);
     ("collection_system_identifier", [Str "1"]);
     ("latitude_measure", [Num (-5)]);
     ("longitude_measure", [Str "west"])].

Definition archive_names : list string :=
  ["README.txt"; "Collection_System_Permit.csv";
   "SEWER_OVERFLOW_BYPASS_EVENT.csv"; "collection_system_permit_old.csv"].

Definition archive_names_lower : list string :=
  ["readme.TXT"; "collection_system_permit.csv";
   "sewer_overflow_bypass_event.csv"; "COLLECTION_SYSTEM_PERMIT_OLD.CSV"].

Definition archive_bytes : list Byte.byte := [Byte.x50; Byte.x4b].

End Examples.

(** * Properties *)

(** A decidable closed proposition, settled by evaluating its decision. *)
Ltac by_computation :=
  match goal with
  | |- ?P => apply (bool_decide_unpack P); vm_compute; exact I
  end.

(** ** Texts *)

Module TextFacts.
Import Text.

Lemma is_space_upper_char c : is_space (upper_char c) = is_space c.
Proof. destruct c as [[] [] [] [] [] [] [] []]; reflexivity. Qed.

Lemma upper_char_swapcase c : upper_char (swapcase_char c) = upper_char c.
Proof. destruct c as [[] [] [] [] [] [] [] []]; reflexivity. Qed.

Lemma lstrip_upper s : lstrip (upper s) = upper (lstrip s).
Proof.
  induction s as [|c s IH]; simpl; [reflexivity|].
  rewrite is_space_upper_char. destruct (is_space c); [exact IH|reflexivity].
Qed.

Lemma rstrip_upper s : rstrip (upper s) = upper (rstrip s).
Proof.
  induction s as [|c s IH]; simpl; [reflexivity|].
  rewrite IH. destruct (rstrip s); simpl; [|reflexivity].
  rewrite is_space_upper_char. destruct (is_space c); reflexivity.
Qed.

Lemma strip_upper s : strip (upper s) = upper (strip s).
Proof. unfold strip. rewrite lstrip_upper. apply rstrip_upper. Qed.

Lemma same_but_case_upper s t :
  same_but_case s t = true -> upper s = upper t.
Proof.
  revert t. induction s as [|c s IH]; intros [|d t]; simpl; try discriminate.
  - reflexivity.
  - intros Hst. apply andb_prop in Hst as [Hcd Hst].
    rewrite (IH _ Hst). f_equal.
    apply orb_prop in Hcd as [Hcd|Hcd]; apply bool_decide_eq_true in Hcd;
      subst d; [reflexivity|]. symmetry. apply upper_char_swapcase.
Qed.

Lemma lstrip_blank_app l s : blank l = true -> lstrip (l ++ s) = lstrip s.
Proof.
  induction l as [|c l IH]; simpl; [reflexivity|].
  intros Hl. apply andb_prop in Hl as [Hc Hl]. rewrite Hc. auto.
Qed.

Lemma rstrip_blank r : blank r = true -> rstrip r = "".
Proof.
  induction r as [|c r IH]; simpl; [reflexivity|].
  intros Hr. apply andb_prop in Hr as [Hc Hr]. rewrite (IH Hr), Hc.
  reflexivity.
Qed.

Lemma rstrip_app_blank s r : blank r = true -> rstrip (s ++ r) = rstrip s.
Proof.
  intros Hr. induction s as [|c s IH]; simpl.
  - apply rstrip_blank, Hr.
  - rewrite IH. reflexivity.
Qed.

Lemma strip_app_blank s r : blank r = true -> strip (s ++ r) = strip s.
Proof.
  intros Hr. unfold strip. induction s as [|c s IH]; simpl.
  - change (EmptyString ++ r) with r.
    replace (lstrip r) with EmptyString; [reflexivity|].
    clear -Hr. induction r as [|c r IH]; simpl; [reflexivity|].
    simpl in Hr. apply andb_prop in Hr as [Hc Hr]. rewrite Hc. auto.
  - destruct (is_space c); [exact IH|].
    change (String c (s ++ r)) with (String c s ++ r).
    apply rstrip_app_blank, Hr.
Qed.

(** Whitespace around a text and the case of its letters do not show in
    the stripped, uppercased text. *)
Lemma upper_strip_padded l r l' r' a b :
  blank l = true -> blank r = true -> blank l' = true -> blank r' = true ->
  same_but_case a b = true ->
  upper (strip (l ++ a ++ r)) = upper (strip (l' ++ b ++ r')).
Proof.
  intros Hl Hr Hl' Hr' Hab.
  assert (Hpad : forall x y z, blank x = true -> blank z = true ->
                   strip (x ++ y ++ z) = strip y).
  { intros x y z Hx Hz. unfold strip at 1. rewrite (lstrip_blank_app _ _ Hx).
    apply (strip_app_blank y z Hz). }
  rewrite !Hpad by assumption.
  rewrite <- !strip_upper. f_equal. apply same_but_case_upper, Hab.
Qed.

End TextFacts.

(** ** Frames *)

Module FrameFacts.

Lemma assoc_None c l : assoc c l = None <-> c ∉ l.*1.
Proof.
  induction l as [|[k v] l IH]; simpl.
  - split; [intros _; apply not_elem_of_nil|reflexivity].
  - rewrite not_elem_of_cons. destruct (decide (k = c)) as [->|Hne].
    + split; [discriminate|]. intros [Hc _]. congruence.
    + rewrite IH. split; [intros Hc; split; [congruence|exact Hc]|tauto].
Qed.

Lemma assoc_is_Some c l : is_Some (assoc c l) <-> c ∈ l.*1.
Proof.
  destruct (assoc c l) as [v|] eqn:Hc.
  - split; [intros _|intros _; eauto].
    destruct (decide (c ∈ l.*1)) as [|Hn]; [assumption|].
    apply assoc_None in Hn. congruence.
  - split; [intros [v Hv]; discriminate|].
    intros Hin. apply assoc_None in Hc. contradiction.
Qed.

Lemma assoc_Some_elem c v l : assoc c l = Some v -> (c, v) ∈ l.
Proof.
  induction l as [|[k w] l IH]; simpl; [discriminate|].
  destruct (decide (k = c)) as [->|Hne].
  - intros [= ->]. apply list_elem_of_here.
  - intros Hc. apply list_elem_of_further, IH, Hc.
Qed.

Lemma assoc_replace c v l :
  c ∈ l.*1 ->
  assoc c ((fun p : string * list cell =>
              if decide (p.1 = c) then (c, v) else p) <$> l) = Some v.
Proof.
  induction l as [|[k w] l IH]; simpl; [intros Hc; inversion Hc|].
  intros Hc. destruct (decide (k = c)) as [->|Hne]; simpl.
  - destruct (decide (c = c)); congruence.
  - destruct (decide (k = c)); [congruence|]. apply IH.
    apply elem_of_cons in Hc as [Hc|Hc]; [congruence|assumption].
Qed.

Lemma assoc_replace_ne c d v l :
  c <> d ->
  assoc d ((fun p : string * list cell =>
              if decide (p.1 = c) then (c, v) else p) <$> l) = assoc d l.
Proof.
  intros Hcd. induction l as [|[k w] l IH]; simpl; [reflexivity|].
  destruct (decide (k = c)) as [->|Hne]; simpl.
  - destruct (decide (c = d)); [congruence|]. exact IH.
  - destruct (decide (k = d)); [reflexivity|]. exact IH.
Qed.

Lemma assoc_app c l1 l2 :
  assoc c (l1 ++ l2) =
  match assoc c l1 with Some v => Some v | None => assoc c l2 end.
Proof.
  induction l1 as [|[k w] l1 IH]; simpl; [reflexivity|].
  destruct (decide (k = c)); [reflexivity|]. exact IH.
Qed.

Lemma nrows_setitem f c a : nrows (setitem f c a) = nrows f.
Proof. unfold setitem. destruct (decide (c ∈ labels f)); reflexivity. Qed.

Lemma labels_setitem f c a :
  labels (setitem f c a) =
  if decide (c ∈ labels f) then labels f else (labels f ++ [c])%list.
Proof.
  unfold setitem, labels. destruct (decide (c ∈ (cols f).*1)); simpl.
  - rewrite <- list_fmap_compose. apply list_fmap_ext.
    intros i [k w] _. simpl. destruct (decide (k = c)); simpl; congruence.
  - rewrite fmap_app. reflexivity.
Qed.

Lemma elem_of_labels_setitem f c a d :
  d ∈ labels (setitem f c a) <-> d = c \/ d ∈ labels f.
Proof.
  rewrite labels_setitem. destruct (decide (c ∈ labels f)) as [Hc|Hc].
  - split; [tauto|]. intros [->|Hd]; assumption.
  - rewrite elem_of_app, list_elem_of_singleton. tauto.
Qed.

Lemma get_setitem_eq f c a :
  get (setitem f c a) c = Some (broadcast (nrows f) a).
Proof.
  unfold get, setitem. destruct (decide (c ∈ labels f)) as [Hc|Hc]; simpl.
  - apply assoc_replace, Hc.
  - rewrite assoc_app. apply assoc_None in Hc. rewrite Hc. simpl.
    destruct (decide (c = c)); congruence.
Qed.

Lemma get_setitem_ne f c d a : c <> d -> get (setitem f c a) d = get f d.
Proof.
  intros Hcd. unfold get, setitem.
  destruct (decide (c ∈ labels f)) as [Hc|Hc]; simpl.
  - apply assoc_replace_ne, Hcd.
  - rewrite assoc_app. destruct (assoc d (cols f)); [reflexivity|]. simpl.
    destruct (decide (c = d)); congruence.
Qed.

Lemma get_is_Some f c : is_Some (get f c) <-> c ∈ labels f.
Proof. apply assoc_is_Some. Qed.

Lemma get_None f c : get f c = None <-> c ∉ labels f.
Proof. apply assoc_None. Qed.

Lemma getitem_Ok f c v : getitem f c = Ok v <-> get f c = Some v.
Proof.
  unfold getitem. destruct (get f c); split; intros Hv;
    inversion Hv; reflexivity.
Qed.

Lemma getitem_Err f c : c ∉ labels f -> getitem f c = Err (KeyError c).
Proof. intros Hc. unfold getitem. apply get_None in Hc. rewrite Hc. reflexivity. Qed.

Lemma getitem_elem f c : c ∈ labels f -> exists v, getitem f c = Ok v.
Proof.
  intros Hc. apply get_is_Some in Hc as [v Hv]. exists v.
  apply getitem_Ok, Hv.
Qed.

Lemma getitem_setitem_eq f c a :
  getitem (setitem f c a) c = Ok (broadcast (nrows f) a).
Proof. apply getitem_Ok, get_setitem_eq. Qed.

Lemma getitem_setitem_ne f c d a :
  c <> d -> getitem (setitem f c a) d = getitem f d.
Proof. intros Hcd. unfold getitem. rewrite get_setitem_ne by exact Hcd. reflexivity. Qed.

Lemma well_formed_setitem f c a :
  well_formed f -> length (broadcast (nrows f) a) = nrows f ->
  well_formed (setitem f c a).
Proof.
  unfold well_formed. intros Hf Ha. rewrite nrows_setitem.
  unfold setitem. destruct (decide (c ∈ labels f)); simpl.
  - apply Forall_fmap. eapply Forall_impl; [exact Hf|].
    intros [k w] Hw. simpl in *. destruct (decide (k = c)); simpl; congruence.
  - apply Forall_app. split; [exact Hf|]. apply Forall_singleton. exact Ha.
Qed.

Lemma well_formed_get f c v :
  well_formed f -> get f c = Some v -> length v = nrows f.
Proof.
  intros Hf Hv. apply assoc_Some_elem in Hv.
  unfold well_formed in Hf. rewrite Forall_forall in Hf.
  apply (Hf (c, v)). exact Hv.
Qed.

(** Dropping columns *)

Lemma nrows_drop_ignore names f : nrows (drop_ignore names f) = nrows f.
Proof. reflexivity. Qed.

Lemma labels_drop_ignore names f :
  labels (drop_ignore names f) = filter (fun l => l ∉ names) (labels f).
Proof.
  unfold labels, drop_ignore. simpl.
  induction (cols f) as [|[k w] l IH]; simpl; [reflexivity|].
  rewrite !filter_cons. simpl.
  destruct (decide (k ∉ names)); simpl; [f_equal|]; exact IH.
Qed.

Lemma drop_ignore_id names f :
  (forall n, n ∈ names -> n ∉ labels f) -> drop_ignore names f = f.
Proof.
  intros Hn. destruct f as [n l]. unfold drop_ignore, labels in *. simpl in *.
  f_equal. induction l as [|[k w] l IH]; [reflexivity|].
  rewrite filter_cons. simpl. destruct (decide (k ∉ names)) as [Hk|Hk].
  - f_equal. apply IH. intros m Hm Hl. apply (Hn m Hm). simpl.
    apply list_elem_of_further, Hl.
  - exfalso. apply Hk. intros Hk'. apply (Hn k Hk'). simpl.
    apply list_elem_of_here.
Qed.

Lemma drop_ignore_setitem names f c a :
  c ∈ names -> drop_ignore names (setitem f c a) = drop_ignore names f.
Proof.
  intros Hc. unfold drop_ignore, setitem.
  destruct (decide (c ∈ labels f)); simpl; f_equal.
  - induction (cols f) as [|[k w] l IH]; simpl; [reflexivity|].
    rewrite !filter_cons. destruct (decide (k = c)) as [->|Hne]; simpl.
    + destruct (decide (c ∉ names)); [contradiction|]. exact IH.
    + destruct (decide (k ∉ names)); simpl; [f_equal|]; exact IH.
  - rewrite filter_app, filter_cons. simpl.
    destruct (decide (c ∉ names)); [contradiction|].
    rewrite filter_nil. apply app_nil_r.
Qed.

Lemma drop_Ok names f :
  (forall n, n ∈ names -> n ∈ labels f) ->
  drop names f = Ok (drop_ignore names f).
Proof.
  intros Hn. unfold drop.
  destruct (filter (fun n => n ∉ labels f) names) as [|n l] eqn:Hf;
    [reflexivity|].
  assert (Hin : n ∈ filter (fun n => n ∉ labels f) names)
    by (rewrite Hf; apply list_elem_of_here).
  apply list_elem_of_filter in Hin as [Hnot Hin]. destruct (Hnot (Hn n Hin)).
Qed.

Lemma drop_inv names f g : drop names f = Ok g -> g = drop_ignore names f.
Proof.
  unfold drop. destruct (filter _ names); intros Hg; inversion Hg.
  reflexivity.
Qed.

End FrameFacts.

(** ** Coordinate cleanup *)

Section CleanupFacts.
Context `{PandasText}.
Import FrameFacts.

Lemma cell_lt_value q c x :
  value c = Some x -> (cell_lt q c = true <-> (x < q)%Q).
Proof.
  intros Hc. unfold cell_lt. rewrite Hc, Qlt_alt.
  destruct (x ?= q)%Q; intuition congruence.
Qed.

Lemma cell_ge_value q c x :
  value c = Some x -> (cell_ge q c = true <-> (q <= x)%Q).
Proof.
  intros Hc. unfold cell_ge. rewrite Hc, Qle_alt, <- Qcompare_antisym.
  destruct (q ?= x)%Q; simpl; intuition congruence.
Qed.

Lemma cell_le_value q c x :
  value c = Some x -> (cell_le q c = true <-> (x <= q)%Q).
Proof.
  intros Hc. unfold cell_le. rewrite Hc, Qle_alt.
  destruct (x ?= q)%Q; intuition congruence.
Qed.

Lemma cell_lt_Num q x : cell_lt q (Num x) = true <-> (x < q)%Q.
Proof. apply cell_lt_value. reflexivity. Qed.

Lemma cell_ge_Num q x : cell_ge q (Num x) = true <-> (q <= x)%Q.
Proof. apply cell_ge_value. reflexivity. Qed.

Lemma cell_le_Num q x : cell_le q (Num x) = true <-> (x <= q)%Q.
Proof. apply cell_le_value. reflexivity. Qed.

Lemma cell_lt_value_None q c : value c = None -> cell_lt q c = false.
Proof. intros Hc. unfold cell_lt. rewrite Hc. reflexivity. Qed.

Lemma wrap64_fits z : fits_int64 z = true -> wrap64 z = z.
Proof.
  unfold fits_int64, wrap64. intros Hz.
  apply andb_true_iff in Hz as [Hlo Hhi].
  apply Z.leb_le in Hlo. apply Z.ltb_lt in Hhi.
  rewrite Z.mod_small by lia. lia.
Qed.

Lemma wrap64_least : wrap64 (- - 2 ^ 63) = (- 2 ^ 63)%Z.
Proof. reflexivity. Qed.

Lemma length_to_numeric_column col :
  length (to_numeric_column col) = length col.
Proof.
  unfold to_numeric_column. destruct (forallb _ _);
    rewrite ?length_fmap; reflexivity.
Qed.

Lemma parsed_setitem_other f c d a :
  c <> d -> parsed (setitem f c a) d = parsed f d.
Proof.
  intros Hcd. unfold parsed.
  rewrite nrows_setitem, get_setitem_ne by exact Hcd. reflexivity.
Qed.

Lemma length_parsed f c : well_formed f -> length (parsed f c) = nrows f.
Proof.
  intros Hf. unfold parsed, to_numeric.
  destruct (get f c) as [col|] eqn:Hc; simpl.
  - rewrite length_to_numeric_column. eapply well_formed_get; eassumption.
  - apply length_replicate.
Qed.

(** The cleanup never raises, and leaves the frame [cleaned]. *)
Lemma coordinate_cleanup_eq f : coordinate_cleanup f = Ok (cleaned f).
Proof.
  unfold coordinate_cleanup, cleaned, loc_negate.
  rewrite (get_setitem_ne f "latitude_measure" "longitude_measure")
    by discriminate.
  set (f1 := setitem f "latitude_measure" _).
  set (f2 := setitem f1 "longitude_measure" _).
  assert (Hlat2 : getitem f2 "latitude_measure"
                  = Ok (parsed f "latitude_measure")).
  { unfold f2. rewrite getitem_setitem_ne by discriminate.
    apply getitem_setitem_eq. }
  assert (Hlon2 : getitem f2 "longitude_measure"
                  = Ok (parsed f "longitude_measure")).
  { unfold f2. rewrite getitem_setitem_eq. unfold f1.
    rewrite nrows_setitem. reflexivity. }
  rewrite Hlat2. simpl.
  rewrite getitem_setitem_ne, Hlon2 by discriminate. simpl.
  rewrite getitem_setitem_ne, getitem_setitem_eq by discriminate. simpl.
  rewrite getitem_setitem_eq. simpl.
  reflexivity.
Qed.

Lemma nrows_cleaned f : nrows (cleaned f) = nrows f.
Proof. unfold cleaned. rewrite !nrows_setitem. reflexivity. Qed.

Lemma get_cleaned_lat f :
  get (cleaned f) "latitude_measure" = Some (flipped_lat f).
Proof.
  unfold cleaned. rewrite !get_setitem_ne by discriminate.
  apply get_setitem_eq.
Qed.

Lemma get_cleaned_lon f :
  get (cleaned f) "longitude_measure" = Some (cleaned_lon f).
Proof. unfold cleaned. apply get_setitem_eq. Qed.

Lemma get_cleaned_other f c :
  c <> "latitude_measure" -> c <> "longitude_measure" ->
  get (cleaned f) c = get f c.
Proof.
  intros Hlat Hlon. unfold cleaned.
  rewrite !get_setitem_ne by congruence. reflexivity.
Qed.

Lemma elem_of_labels_cleaned f d :
  d ∈ labels (cleaned f) <->
  d = "latitude_measure" \/ d = "longitude_measure" \/ d ∈ labels f.
Proof. unfold cleaned. rewrite !elem_of_labels_setitem. tauto. Qed.

(** Row by row, the masked assignments are [row_cleanup]. *)
Lemma cleaned_lookup f i la lo :
  parsed f "latitude_measure" !! i = Some la ->
  parsed f "longitude_measure" !! i = Some lo ->
  flipped_lat f !! i = Some (row_cleanup (la, lo)).1 /\
  cleaned_lon f !! i = Some (row_cleanup (la, lo)).2.
Proof.
  intros Hla Hlo.
  assert (Hfl : flipped_lat f !! i = Some (flip_both (la, lo)).1).
  { unfold flipped_lat, negate_where, lt.
    rewrite lookup_zip_with, list_lookup_fmap, Hla. simpl.
    unfold flip_both. simpl. destruct (cell_lt 0 la); reflexivity. }
  assert (Hfo : flipped_lon f !! i = Some (flip_both (la, lo)).2).
  { unfold flipped_lon, negate_where, lt.
    rewrite lookup_zip_with, list_lookup_fmap, Hla, Hlo. simpl.
    unfold flip_both. simpl. destruct (cell_lt 0 la); reflexivity. }
  split.
  - rewrite Hfl. unfold row_cleanup, flip_lon_only.
    destruct (_ && _); reflexivity.
  - unfold cleaned_lon, negate_where, mask_and, ge, between.
    rewrite !lookup_zip_with, !list_lookup_fmap, Hfl, Hfo. simpl.
    unfold row_cleanup, flip_lon_only.
    destruct (flip_both (la, lo)) as [la1 lo1]. simpl.
    destruct (_ && _); reflexivity.
Qed.

Lemma row_cleanup_Num x y :
  row_cleanup (Num x, Num y) =
  (Num (Reference.correct x y).1, Num (Reference.correct x y).2).
Proof.
  unfold row_cleanup, Reference.correct, flip_both, Reference.rule_a.
  simpl fst. simpl snd.
  assert (Hb : forall a b,
             flip_lon_only (Num a, Num b) =
             (Num (Reference.rule_b a b).1, Num (Reference.rule_b a b).2)).
  { intros a b. unfold flip_lon_only, Reference.rule_b, cell_between.
    simpl fst. simpl snd.
    assert (H1 : cell_ge 0 (Num a) = Qle_bool 0 a).
    { apply eq_true_iff_eq. rewrite cell_ge_Num, Qle_bool_iff. tauto. }
    assert (H2 : cell_ge 60 (Num b) = Qle_bool 60 b).
    { apply eq_true_iff_eq. rewrite cell_ge_Num, Qle_bool_iff. tauto. }
    assert (H3 : cell_le 110 (Num b) = Qle_bool b 110).
    { apply eq_true_iff_eq. rewrite cell_le_Num, Qle_bool_iff. tauto. }
    rewrite H1, H2, H3. destruct (_ && _); reflexivity. }
  destruct (Qlt_le_dec x 0) as [Hx|Hx].
  - apply cell_lt_Num in Hx. rewrite Hx. simpl cell_neg. apply Hb.
  - assert (Hn : cell_lt 0 (Num x) = false).
    { apply not_true_is_false. rewrite cell_lt_Num. lra. }
    rewrite Hn. apply Hb.
Qed.

Lemma row_cleanup_nan_lat lo : row_cleanup (NaN, lo) = (NaN, lo).
Proof. reflexivity. Qed.

Lemma row_cleanup_nan_lon la :
  row_cleanup (la, NaN) = (if cell_lt 0 la then cell_neg la else la, NaN).
Proof.
  unfold row_cleanup, flip_both, flip_lon_only, cell_between. simpl.
  destruct (cell_lt 0 la); simpl; rewrite andb_false_r; reflexivity.
Qed.

End CleanupFacts.

(** ** The left join *)

Module JoinFacts.

Lemma length_matches_from j k rk :
  length (matches_from j k rk) = fan_out rk k.
Proof.
  unfold fan_out. revert j. induction rk as [|k' rk IH]; intros j; simpl;
    [reflexivity|].
  rewrite filter_cons. destruct (decide (k' = k)); simpl; rewrite IH;
    reflexivity.
Qed.

Lemma elem_of_matches_from j k rk x :
  x ∈ matches_from j k rk <-> j <= x /\ rk !! (x - j) = Some k.
Proof.
  revert j. induction rk as [|k' rk IH]; intros j; simpl.
  - rewrite elem_of_nil. split; [tauto|]. intros [_ Hx].
    rewrite lookup_nil in Hx. discriminate.
  - assert (Hstep : x ∈ matches_from (S j) k rk <->
                    j < x /\ (k' :: rk) !! (x - j) = Some k).
    { rewrite IH. split.
      - intros [Hle Hx]. split; [lia|].
        replace (x - j) with (S (x - S j)) by lia. exact Hx.
      - intros [Hlt Hx]. split; [lia|].
        replace (x - j) with (S (x - S j)) in Hx by lia. exact Hx. }
    destruct (decide (k' = k)) as [->|Hne].
    + rewrite elem_of_cons, Hstep. split.
      * intros [->|[Hlt Hx]]; [|split; [lia|exact Hx]].
        split; [lia|]. rewrite Nat.sub_diag. reflexivity.
      * intros [Hle Hx]. destruct (decide (x = j)) as [->|Hxj]; [tauto|].
        right. split; [lia|exact Hx].
    + rewrite Hstep. split; [intros [Hlt Hx]; split; [lia|exact Hx]|].
      intros [Hle Hx]. destruct (decide (x = j)) as [->|Hxj].
      * rewrite Nat.sub_diag in Hx. simpl in Hx. congruence.
      * split; [lia|exact Hx].
Qed.

Lemma matches_nil k rk : matches k rk = [] <-> k ∉ rk.
Proof.
  unfold matches. split.
  - intros Hm Hin. apply list_elem_of_lookup in Hin as [j Hj].
    assert (Hx : j ∈ matches_from 0 k rk).
    { apply elem_of_matches_from. split; [lia|].
      rewrite Nat.sub_0_r. exact Hj. }
    rewrite Hm in Hx. inversion Hx.
  - intros Hk. destruct (matches_from 0 k rk) as [|j l] eqn:Hm;
      [reflexivity|].
    assert (Hx : j ∈ matches_from 0 k rk)
      by (rewrite Hm; apply list_elem_of_here).
    apply elem_of_matches_from in Hx as [_ Hx].
    exfalso. apply Hk. eapply list_elem_of_lookup_2, Hx.
Qed.

(** The join has, for every left row, one row per matching right row,
    and one row when nothing matches. *)
Lemma length_left_indexer_from i lk rk :
  length (left_indexer_from i lk rk)
  = sum_list_with (fun k => Nat.max 1 (fan_out rk k)) lk.
Proof.
  revert i. induction lk as [|k lk IH]; intros i;
    cbn [left_indexer_from sum_list_with]; [reflexivity|].
  rewrite length_app, IH. f_equal.
  unfold matches. rewrite <- (length_matches_from 0 k rk).
  destruct (matches_from 0 k rk) as [|j l]; [reflexivity|].
  rewrite length_fmap. simpl. lia.
Qed.

Lemma length_left_indexer_ge i lk rk :
  length lk <= length (left_indexer_from i lk rk).
Proof.
  rewrite length_left_indexer_from.
  induction lk as [|k lk IH]; simpl; lia.
Qed.

Lemma length_left_indexer_unique i lk rk :
  (forall k, k ∈ lk -> fan_out rk k <= 1) ->
  length (left_indexer_from i lk rk) = length lk.
Proof.
  rewrite length_left_indexer_from.
  induction lk as [|k lk IH]; intros Hu; simpl; [reflexivity|].
  rewrite IH by (intros k' Hk'; apply Hu, list_elem_of_further, Hk').
  specialize (Hu k (list_elem_of_here _ _)). lia.
Qed.

Lemma elem_of_left_indexer_from i lk rk a ob :
  (a, ob) ∈ left_indexer_from i lk rk <->
  exists k, i <= a /\ lk !! (a - i) = Some k /\
            match ob with
            | Some b => rk !! b = Some k
            | None => k ∉ rk
            end.
Proof.
  revert i. induction lk as [|k lk IH]; intros i; simpl.
  - rewrite elem_of_nil. split; [tauto|]. intros (k & _ & Hk & _).
    rewrite lookup_nil in Hk. discriminate.
  - rewrite elem_of_app, IH.
    assert (Hhead :
      (a, ob) ∈ match matches k rk with
                | [] => [(i, None)]
                | js => (fun j => (i, Some j)) <$> js
                end <->
      a = i /\ match ob with
               | Some b => rk !! b = Some k
               | None => k ∉ rk
               end).
    { destruct (matches k rk) as [|j l] eqn:Hm.
      - apply matches_nil in Hm. rewrite list_elem_of_singleton. split.
        + intros [= -> ->]. tauto.
        + intros [-> Hob]. destruct ob as [b|]; [|reflexivity].
          exfalso. apply Hm. eapply list_elem_of_lookup_2, Hob.
      - rewrite <- Hm. rewrite list_elem_of_fmap. split.
        + intros (b & [= -> ->] & Hb). split; [reflexivity|].
          apply elem_of_matches_from in Hb as [_ Hb].
          rewrite Nat.sub_0_r in Hb. exact Hb.
        + intros [-> Hob]. destruct ob as [b|].
          * exists b. split; [reflexivity|]. apply elem_of_matches_from.
            split; [lia|]. rewrite Nat.sub_0_r. exact Hob.
          * exfalso. apply matches_nil in Hob. congruence. }
    rewrite Hhead. split.
    + intros [[-> Hob]|(k' & Hle & Hk' & Hob)].
      * exists k. split; [lia|]. rewrite Nat.sub_diag. tauto.
      * exists k'. split; [lia|]. split; [|exact Hob].
        replace (a - i) with (S (a - S i)) by lia. exact Hk'.
    + intros (k' & Hle & Hk' & Hob).
      destruct (decide (a = i)) as [->|Hai].
      * left. rewrite Nat.sub_diag in Hk'. simpl in Hk'.
        injection Hk' as ->. tauto.
      * right. exists k'. split; [lia|]. split; [|exact Hob].
        replace (a - i) with (S (a - S i)) in Hk' by lia. exact Hk'.
Qed.

Lemma length_key_rows n kc : length (key_rows n kc) = n.
Proof. unfold key_rows. rewrite length_fmap. apply length_seq. Qed.

Lemma lookup_key_rows n kc i :
  i < n ->
  key_rows n kc !! i = Some ((fun col => canon (nth i col NaN)) <$> kc).
Proof.
  intros Hi. unfold key_rows.
  rewrite list_lookup_fmap, lookup_seq_lt by exact Hi. reflexivity.
Qed.

End JoinFacts.

(** ** Reconciliation *)

Section ReconcileFacts.
Context `{PandasText}.
Import FrameFacts JoinFacts.

Lemma getitem_default f c :
  c ∈ labels f -> getitem f c = Ok (default [] (get f c)).
Proof.
  intros Hc. apply get_is_Some in Hc as [v Hv].
  unfold getitem. rewrite Hv. reflexivity.
Qed.

Lemma join_keys_Ok P E :
  "permit_identifier" ∈ labels P -> "permit_identifier" ∈ labels E ->
  "collection_system_identifier" ∈ labels P ->
  "collection_system_identifier" ∈ labels E ->
  join_keys P E = Ok (keyed P, keyed E).
Proof.
  intros HpP HpE HcP HcE. unfold join_keys, keyed.
  rewrite (getitem_default P _ HpP). simpl.
  rewrite (getitem_default E _ HpE). simpl.
  rewrite getitem_setitem_ne, (getitem_default P _ HcP) by discriminate.
  simpl.
  rewrite getitem_setitem_ne, (getitem_default E _ HcE) by discriminate.
  reflexivity.
Qed.

(** A missing identifier column is a [KeyError]. *)
Lemma join_keys_Err P E :
  ~ ("permit_identifier" ∈ labels P /\ "permit_identifier" ∈ labels E /\
     "collection_system_identifier" ∈ labels P /\
     "collection_system_identifier" ∈ labels E) ->
  exists c, c ∈ ["permit_identifier"; "collection_system_identifier"] /\
            join_keys P E = Err (KeyError c).
Proof.
  intros Hmiss. unfold join_keys.
  destruct (decide ("permit_identifier" ∈ labels P)) as [HpP|HpP];
    [|exists "permit_identifier"; split;
      [apply list_elem_of_here| rewrite (getitem_Err _ _ HpP); reflexivity]].
  rewrite (getitem_default P _ HpP). simpl.
  destruct (decide ("permit_identifier" ∈ labels E)) as [HpE|HpE];
    [|exists "permit_identifier"; split;
      [apply list_elem_of_here| rewrite (getitem_Err _ _ HpE); reflexivity]].
  rewrite (getitem_default E _ HpE). simpl.
  rewrite getitem_setitem_ne by discriminate.
  destruct (decide ("collection_system_identifier" ∈ labels P)) as [HcP|HcP];
    [|exists "collection_system_identifier"; split;
      [apply list_elem_of_further, list_elem_of_here
      | rewrite (getitem_Err _ _ HcP); reflexivity]].
  rewrite (getitem_default P _ HcP). simpl.
  rewrite getitem_setitem_ne by discriminate.
  destruct (decide ("collection_system_identifier" ∈ labels E)) as [HcE|HcE];
    [tauto|].
  exists "collection_system_identifier". split;
    [apply list_elem_of_further, list_elem_of_here
    | rewrite (getitem_Err _ _ HcE); reflexivity].
Qed.

Lemma join_keys_inv P E r :
  join_keys P E = Ok r ->
  ("permit_identifier" ∈ labels P /\ "permit_identifier" ∈ labels E /\
   "collection_system_identifier" ∈ labels P /\
   "collection_system_identifier" ∈ labels E) /\
  r = (keyed P, keyed E).
Proof.
  intros Hr.
  destruct (decide ("permit_identifier" ∈ labels P /\
                    "permit_identifier" ∈ labels E /\
                    "collection_system_identifier" ∈ labels P /\
                    "collection_system_identifier" ∈ labels E))
    as [Hall|Hmiss].
  - split; [exact Hall|]. destruct Hall as (HpP & HpE & HcP & HcE).
    rewrite (join_keys_Ok P E HpP HpE HcP HcE) in Hr. congruence.
  - apply join_keys_Err in Hmiss as (c & _ & Hc). congruence.
Qed.

Lemma nrows_keyed f : nrows (keyed f) = nrows f.
Proof. unfold keyed. rewrite !nrows_setitem. reflexivity. Qed.

Lemma get_keyed_permit f :
  get (keyed f) "_permit_join"
  = Some (normalize (default [] (get f "permit_identifier"))).
Proof.
  unfold keyed. rewrite get_setitem_ne by discriminate.
  apply get_setitem_eq.
Qed.

Lemma get_keyed_cs f :
  get (keyed f) "_cs_join"
  = Some (normalize (default [] (get f "collection_system_identifier"))).
Proof. unfold keyed. apply get_setitem_eq. Qed.

Lemma get_keyed_other f c :
  c <> "_permit_join" -> c <> "_cs_join" -> get (keyed f) c = get f c.
Proof.
  intros H1 H2. unfold keyed. rewrite !get_setitem_ne by congruence.
  reflexivity.
Qed.

Lemma elem_of_labels_keyed f d :
  d ∈ labels (keyed f) <->
  d = "_permit_join" \/ d = "_cs_join" \/ d ∈ labels f.
Proof. unfold keyed. rewrite !elem_of_labels_setitem. tauto. Qed.

Lemma drop_ignore_keyed f :
  drop_ignore helper_columns (keyed f) = drop_ignore helper_columns f.
Proof.
  unfold keyed.
  rewrite !drop_ignore_setitem; [reflexivity| |]; unfold helper_columns.
  - apply list_elem_of_here.
  - apply list_elem_of_further, list_elem_of_here.
Qed.

Lemma getitems_helpers_keyed f :
  getitems (keyed f) helper_columns
  = Ok [normalize (default [] (get f "permit_identifier"));
        normalize (default [] (get f "collection_system_identifier"))].
Proof.
  unfold getitems, helper_columns, getitem.
  rewrite get_keyed_permit, get_keyed_cs. reflexivity.
Qed.

Lemma getitems_helpers_cleaned f :
  getitems (cleaned (keyed f)) helper_columns
  = Ok [normalize (default [] (get f "permit_identifier"));
        normalize (default [] (get f "collection_system_identifier"))].
Proof.
  unfold getitems, helper_columns, getitem.
  rewrite !get_cleaned_other by discriminate.
  rewrite get_keyed_permit, get_keyed_cs. reflexivity.
Qed.

Lemma fst_relabel {A B : Type} (g : A -> B) (l : list (string * A)) :
  ((fun p : string * A => (p.1, g p.2)) <$> l).*1 = l.*1.
Proof.
  rewrite <- list_fmap_compose. apply list_fmap_ext. intros i [k v] _.
  reflexivity.
Qed.

(** The merge of the cleaned events with the keyed permits. *)
Lemma merge_left_reconciled P E :
  merge_left (cleaned (keyed E)) (keyed P) helper_columns "_coll" =
  if suffix_clash (labels (cleaned (keyed E))) "_coll"
       (labels (drop_ignore helper_columns (keyed P)))
  then Err MergeError
  else
    let ix := join_index P E in
    let right' := drop_ignore helper_columns (keyed P) in
    Ok (Frame (length ix)
          (fmap (fun p => (p.1, take_left ix p.2)) (cols (cleaned (keyed E)))
           ++ zip (suffixed (labels (cleaned (keyed E))) "_coll"
                            (labels right'))
                  (fmap (fun p => take_right ix p.2) (cols right')))).
Proof.
  unfold merge_left.
  rewrite getitems_helpers_cleaned, getitems_helpers_keyed. cbn [bind].
  rewrite nrows_cleaned, !nrows_keyed. reflexivity.
Qed.

Lemma drop_helpers_joined (left : frame) n (ix : list (nat * option nat))
    (rest : list (string * list cell)) :
  "_permit_join" ∈ labels left -> "_cs_join" ∈ labels left ->
  drop helper_columns
    (Frame n (fmap (fun p => (p.1, take_left ix p.2)) (cols left) ++ rest))
  = Ok (drop_ignore helper_columns
          (Frame n (fmap (fun p => (p.1, take_left ix p.2)) (cols left)
                    ++ rest))).
Proof.
  intros Hp Hc. apply drop_Ok. intros c Hn. unfold labels. cbn [cols].
  rewrite fmap_app, fst_relabel. apply elem_of_app. left.
  unfold helper_columns in Hn.
  apply elem_of_cons in Hn as [->|Hn]; [exact Hp|].
  apply list_elem_of_singleton in Hn as ->. exact Hc.
Qed.

Lemma reconcile_Ok P E :
  "permit_identifier" ∈ labels P -> "permit_identifier" ∈ labels E ->
  "collection_system_identifier" ∈ labels P ->
  "collection_system_identifier" ∈ labels E ->
  suffix_clash (labels (cleaned (keyed E))) "_coll"
    (labels (drop_ignore helper_columns (keyed P))) = false ->
  reconcile P E = Ok (merged P E, (keyed P, cleaned (keyed E))).
Proof.
  intros HpP HpE HcP HcE Hclash. unfold reconcile.
  rewrite (join_keys_Ok P E HpP HpE HcP HcE). cbn [bind fst snd].
  rewrite coordinate_cleanup_eq. cbn [bind].
  rewrite merge_left_reconciled, Hclash. cbn [bind].
  rewrite drop_helpers_joined.
  - reflexivity.
  - apply elem_of_labels_cleaned. right. right.
    apply elem_of_labels_keyed. tauto.
  - apply elem_of_labels_cleaned. right. right.
    apply elem_of_labels_keyed. tauto.
Qed.

Lemma reconcile_Err_keys P E :
  ~ ("permit_identifier" ∈ labels P /\ "permit_identifier" ∈ labels E /\
     "collection_system_identifier" ∈ labels P /\
     "collection_system_identifier" ∈ labels E) ->
  exists c, c ∈ ["permit_identifier"; "collection_system_identifier"] /\
            reconcile P E = Err (KeyError c).
Proof.
  intros Hmiss. apply join_keys_Err in Hmiss as (c & Hc & Hk).
  exists c. split; [exact Hc|]. unfold reconcile. rewrite Hk. reflexivity.
Qed.

Lemma reconcile_Err_clash P E :
  "permit_identifier" ∈ labels P -> "permit_identifier" ∈ labels E ->
  "collection_system_identifier" ∈ labels P ->
  "collection_system_identifier" ∈ labels E ->
  suffix_clash (labels (cleaned (keyed E))) "_coll"
    (labels (drop_ignore helper_columns (keyed P))) = true ->
  reconcile P E = Err MergeError.
Proof.
  intros HpP HpE HcP HcE Hclash. unfold reconcile.
  rewrite (join_keys_Ok P E HpP HpE HcP HcE). cbn [bind fst snd].
  rewrite coordinate_cleanup_eq. cbn [bind].
  rewrite merge_left_reconciled, Hclash. reflexivity.
Qed.

Lemma reconcile_inv P E r :
  reconcile P E = Ok r ->
  ("permit_identifier" ∈ labels P /\ "permit_identifier" ∈ labels E /\
   "collection_system_identifier" ∈ labels P /\
   "collection_system_identifier" ∈ labels E) /\
  suffix_clash (labels (cleaned (keyed E))) "_coll"
    (labels (drop_ignore helper_columns (keyed P))) = false /\
  r = (merged P E, (keyed P, cleaned (keyed E))).
Proof.
  intros Hr.
  destruct (decide ("permit_identifier" ∈ labels P /\
                    "permit_identifier" ∈ labels E /\
                    "collection_system_identifier" ∈ labels P /\
                    "collection_system_identifier" ∈ labels E))
    as [Hall|Hmiss].
  - split; [exact Hall|]. destruct Hall as (HpP & HpE & HcP & HcE).
    destruct (suffix_clash (labels (cleaned (keyed E))) "_coll"
                (labels (drop_ignore helper_columns (keyed P))))
      eqn:Hclash.
    + rewrite (reconcile_Err_clash P E HpP HpE HcP HcE Hclash) in Hr.
      discriminate.
    + rewrite (reconcile_Ok P E HpP HpE HcP HcE Hclash) in Hr.
      split; [reflexivity|]. congruence.
  - apply reconcile_Err_keys in Hmiss as (c & _ & Hc). congruence.
Qed.

End ReconcileFacts.

(** ** The merged table *)

Section MergedFacts.
Context `{PandasText}.
Import FrameFacts JoinFacts.

Lemma nrows_merged P E : nrows (merged P E) = length (join_index P E).
Proof. unfold merged. cbn [drop_ignore nrows]. reflexivity. Qed.

Lemma length_normalized_keys f : length (normalized_keys f) = nrows f.
Proof. apply length_key_rows. Qed.

Lemma nth_normalize col i c :
  col !! i = Some c -> nth i (normalize col) NaN = normalize_key c.
Proof.
  intros Hc. apply nth_lookup_Some. unfold normalize.
  rewrite list_lookup_fmap, Hc. reflexivity.
Qed.

Lemma canon_normalize_key c : canon (normalize_key c) = normalize_key c.
Proof. unfold normalize_key. destruct (_ && _); reflexivity. Qed.

(** The key of a row is the pair of its normalized identifiers. *)
Lemma lookup_normalized_keys f i a b :
  i < nrows f ->
  cell_at f "permit_identifier" i = Some a ->
  cell_at f "collection_system_identifier" i = Some b ->
  normalized_keys f !! i
  = Some [normalize_key a; normalize_key b].
Proof.
  intros Hi Ha Hb. unfold normalized_keys.
  rewrite lookup_key_rows by exact Hi. unfold cell_at in Ha, Hb.
  destruct (get f "permit_identifier") as [pid|]; [|discriminate].
  destruct (get f "collection_system_identifier") as [cs|]; [|discriminate].
  cbn [mbind option_bind default] in *.
  cbn [fmap list_fmap]. unfold id.
  rewrite (nth_normalize _ _ _ Ha), (nth_normalize _ _ _ Hb).
  rewrite !canon_normalize_key. reflexivity.
Qed.

Lemma length_join_index P E :
  length (join_index P E)
  = sum_list_with (fun k => Nat.max 1 (fan_out (normalized_keys P) k))
      (normalized_keys E).
Proof. apply length_left_indexer_from. Qed.

Lemma elem_of_join_index P E i oj :
  (i, oj) ∈ join_index P E <->
  exists k, normalized_keys E !! i = Some k /\
            match oj with
            | Some j => normalized_keys P !! j = Some k
            | None => k ∉ normalized_keys P
            end.
Proof.
  unfold join_index, left_indexer. rewrite elem_of_left_indexer_from.
  rewrite Nat.sub_0_r. split.
  - intros (k & _ & Hk & Hoj). eauto.
  - intros (k & Hk & Hoj). exists k. split; [lia|]. tauto.
Qed.

Lemma row_at_drop_ignore names f p :
  row_at (drop_ignore names f) p
  = filter (fun q => q.1 ∉ names) (row_at f p).
Proof.
  unfold row_at, drop_ignore. cbn [cols].
  induction (cols f) as [|[k v] l IH]; [reflexivity|].
  rewrite fmap_cons, !filter_cons. cbn [fst snd].
  destruct (decide (k ∉ names)); [rewrite fmap_cons; f_equal|]; exact IH.
Qed.

Lemma zip_fmap_same {A B C : Type} (a : A -> B) (b : A -> C) (l : list A) :
  zip (a <$> l) (b <$> l) = (fun x => (a x, b x)) <$> l.
Proof.
  induction l as [|x l IH]; [reflexivity|].
  rewrite !fmap_cons. cbn [zip zip_with]. f_equal. exact IH.
Qed.

Lemma nth_take_left ix p i oj col :
  ix !! p = Some (i, oj) -> nth p (take_left ix col) NaN = nth i col NaN.
Proof.
  intros Hp. apply nth_lookup_Some. unfold take_left.
  rewrite list_lookup_fmap, Hp. reflexivity.
Qed.

Lemma nth_take_right ix p i oj col :
  ix !! p = Some (i, oj) ->
  nth p (take_right ix col) NaN
  = match oj with Some j => nth j col NaN | None => NaN end.
Proof.
  intros Hp. apply nth_lookup_Some. unfold take_right.
  rewrite list_lookup_fmap, Hp. reflexivity.
Qed.

(** Every row of the merged table is an event row followed by the cells
    of the permit row it is paired with, or by nulls. *)
Lemma row_at_merged P E p i oj :
  join_index P E !! p = Some (i, oj) ->
  row_at (merged P E) p
  = filter (fun q => q.1 ∉ helper_columns)
      (joined_row (cleaned (keyed E)) (keyed P) helper_columns "_coll" i oj).
Proof.
  intros Hp. unfold merged. rewrite row_at_drop_ignore. f_equal.
  unfold row_at, joined_row. cbn [cols]. rewrite fmap_app. f_equal.
  - rewrite <- list_fmap_compose. apply list_fmap_ext. intros n [k v] _.
    cbn [compose fst snd]. f_equal. eapply nth_take_left, Hp.
  - unfold suffixed, labels. rewrite <- list_fmap_compose, zip_fmap_same.
    rewrite <- list_fmap_compose. apply list_fmap_ext. intros n [k v] _.
    cbn [compose fst snd]. f_equal. eapply nth_take_right, Hp.
Qed.

Lemma well_formed_drop_ignore (names : list string) f :
  well_formed f -> well_formed (drop_ignore names f).
Proof.
  unfold well_formed, drop_ignore. cbn [cols nrows]. intros Hf.
  apply Forall_forall. intros p Hp. apply list_elem_of_filter in Hp as [_ Hp].
  rewrite Forall_forall in Hf. apply Hf, Hp.
Qed.

(** Every column of a joined frame spans its rows. *)
Lemma well_formed_joined (L R : frame) (names : list string)
    (rlabels : list string) (ix : list (nat * option nat)) :
  well_formed
    (drop_ignore names
       (Frame (length ix)
          (fmap (fun p => (p.1, take_left ix p.2)) (cols L)
           ++ zip rlabels (fmap (fun p => take_right ix p.2) (cols R))))).
Proof.
  apply well_formed_drop_ignore. unfold well_formed. cbn [cols nrows].
  apply Forall_app. split.
  - apply Forall_fmap, Forall_forall. intros p _. cbn [compose snd].
    unfold take_left. apply length_fmap.
  - apply Forall_forall. intros [l col] Hp. cbn [snd].
    apply elem_of_zip_r in Hp. apply list_elem_of_fmap in Hp as (q & -> & _).
    unfold take_right. apply length_fmap.
Qed.

Lemma well_formed_merged P E : well_formed (merged P E).
Proof. unfold merged. apply well_formed_joined. Qed.

End MergedFacts.

(** ** The pipeline *)

Section PipelineFacts.
Context `{PandasText}.
Import FrameFacts JoinFacts.

Lemma pipeline_unfold P E :
  merge_sso_with_collection_system P E =
  bind (reconcile P E) (fun r =>
    bind (summarize r.1) (fun s =>
      Ok ({| collection_system_permit_raw := drop_ignore helper_columns P;
             sewer_overflow_bypass_event_raw :=
               drop_ignore helper_columns E;
             sso_events_with_collection_system := r.1;
             sso_summary_by_permit_year := s |}, r.2))).
Proof. reflexivity. Qed.

Lemma bind_Ok_inv {A B : Type} (r : result A) (k : A -> result B) b :
  bind r k = Ok b -> exists a, r = Ok a /\ k a = Ok b.
Proof. destruct r as [a|e]; [eauto|discriminate]. Qed.

Lemma pipeline_inv P E out st :
  merge_sso_with_collection_system P E = Ok (out, st) ->
  reconcile P E = Ok (merged P E, st) /\
  st = (keyed P, cleaned (keyed E)) /\
  summarize (merged P E)
    = Ok (sso_summary_by_permit_year out) /\
  out = {| collection_system_permit_raw := drop_ignore helper_columns P;
           sewer_overflow_bypass_event_raw := drop_ignore helper_columns E;
           sso_events_with_collection_system := merged P E;
           sso_summary_by_permit_year := sso_summary_by_permit_year out |}.
Proof.
  rewrite pipeline_unfold. intros Hrun.
  apply bind_Ok_inv in Hrun as (r & Hr & Hrun).
  apply bind_Ok_inv in Hrun as (s & Hs & Hrun).
  destruct (reconcile_inv P E r Hr) as (_ & _ & ->).
  cbn [fst snd] in Hs, Hrun. injection Hrun as <- <-.
  cbn [sso_summary_by_permit_year]. auto.
Qed.

Lemma pipeline_Ok P E s :
  reconcile P E = Ok (merged P E, (keyed P, cleaned (keyed E))) ->
  summarize (merged P E) = Ok s ->
  merge_sso_with_collection_system P E
  = Ok ({| collection_system_permit_raw := drop_ignore helper_columns P;
           sewer_overflow_bypass_event_raw := drop_ignore helper_columns E;
           sso_events_with_collection_system := merged P E;
           sso_summary_by_permit_year := s |},
        (keyed P, cleaned (keyed E))).
Proof.
  intros Hr Hs. rewrite pipeline_unfold, Hr. cbn [bind fst snd].
  rewrite Hs. reflexivity.
Qed.

End PipelineFacts.

(** ** Join cardinality *)

Section Cardinality.
Context `{PandasText}.
Import FrameFacts JoinFacts.

(** A pair of the join index is a row of the merged table. *)
Lemma indexed_row P E i oj :
  (i, oj) ∈ join_index P E ->
  exists p, p < nrows (merged P E) /\
    row_at (merged P E) p
    = filter (fun q => q.1 ∉ helper_columns)
        (joined_row (cleaned (keyed E)) (keyed P) helper_columns "_coll" i oj).
Proof.
  intros Hin. apply list_elem_of_lookup in Hin as [p Hp]. exists p. split.
  - rewrite nrows_merged. eapply lookup_lt_Some, Hp.
  - apply row_at_merged, Hp.
Qed.

(** No event row is lost by the join. *)
Lemma event_rows_kept P E i :
  i < nrows E -> exists oj, (i, oj) ∈ join_index P E.
Proof.
  intros Hi.
  destruct (normalized_keys E !! i) as [k|] eqn:Hk.
  - destruct (decide (k ∈ normalized_keys P)) as [Hin|Hout].
    + apply list_elem_of_lookup in Hin as [j Hj]. exists (Some j).
      apply elem_of_join_index. eauto.
    + exists None. apply elem_of_join_index. eauto.
  - apply lookup_ge_None in Hk. rewrite length_normalized_keys in Hk. lia.
Qed.

(** C1 (as amended).  The merged table returned by
    [merge_sso_with_collection_system] has, for every event row, one row
    per permit row that shares its normalized key pair, and one row when no
    permit row does.  So it never has fewer rows than the events table and
    keeps every event row; it has exactly as many rows when no event key is
    shared by more than one permit row. *)
Theorem merged_row_count (P E : frame) (out : outputs) (st : frame * frame) :
  merge_sso_with_collection_system P E = Ok (out, st) ->
  let m := sso_events_with_collection_system out in
  nrows m = sum_list_with
              (fun k => Nat.max 1 (fan_out (normalized_keys P) k))
              (normalized_keys E) /\
  nrows E <= nrows m /\
  ((forall k, k ∈ normalized_keys E -> fan_out (normalized_keys P) k <= 1) ->
   nrows m = nrows E) /\
  (forall i, i < nrows E ->
     exists p oj, p < nrows m /\
       row_at m p
       = filter (fun q => q.1 ∉ helper_columns)
           (joined_row st.2 st.1 helper_columns "_coll" i oj)).
Proof.
  intros Hrun. apply pipeline_inv in Hrun as (_ & -> & _ & ->).
  cbn [sso_events_with_collection_system fst snd].
  rewrite nrows_merged. repeat split.
  - apply length_join_index.
  - rewrite <- (length_normalized_keys E). apply length_left_indexer_ge.
  - intros Hu. rewrite <- (length_normalized_keys E).
    apply length_left_indexer_unique, Hu.
  - intros i Hi. destruct (event_rows_kept P E i Hi) as [oj Hin].
    destruct (indexed_row P E i oj Hin) as (p & Hp & Hrow).
    rewrite nrows_merged in Hp. eauto.
Qed.

End Cardinality.

(** On the example tables the one event matches both permit rows. *)
Lemma merged_row_count_witness :
  exists out st,
    merge_sso_with_collection_system (H := plain_text)
      Examples.permits Examples.events = Ok (out, st) /\
    nrows (sso_events_with_collection_system out)
    = sum_list_with
        (fun k => Nat.max 1
                    (fan_out (normalized_keys (H := plain_text)
                                Examples.permits) k))
        (normalized_keys (H := plain_text) Examples.events).
Proof.
  destruct (merge_sso_with_collection_system (H := plain_text)
              Examples.permits Examples.events) as [[out st]|e] eqn:Hrun;
    [|vm_compute in Hrun; discriminate].
  exists out, st. split; [reflexivity|].
  exact (proj1 (merged_row_count (H := plain_text) _ _ out st Hrun)).
Defined.

(** C1, as stated, fails: one event whose key pair is shared by two permit
    rows comes out as two rows of the merged table. *)
Lemma fan_out_duplicates_event_row :
  exists out st,
    merge_sso_with_collection_system (H := plain_text)
      Examples.permits Examples.events = Ok (out, st) /\
    nrows Examples.events = 1 /\
    nrows (sso_events_with_collection_system out) = 2.
Proof. vm_compute. eexists _, _. repeat split. Qed.

(** ** The raw outputs *)

Section RawOutputs.
Context `{PandasText}.
Import FrameFacts.

Lemma helper_free_drop_ignore f n :
  n ∈ helper_columns -> n ∉ labels (drop_ignore helper_columns f).
Proof.
  intros Hn. rewrite labels_drop_ignore. intros Hin.
  apply list_elem_of_filter in Hin as [Hnot _]. contradiction.
Qed.

(** C4 (as amended).  Each raw output is the corresponding input as it was
    supplied, less any column that bears a helper name: for input tables
    that have no column named [_permit_join] or [_cs_join] the raw outputs
    are the inputs, labels and cells alike (so the events keep their
    coordinates as supplied), and no raw output has a helper column. *)
Theorem raw_outputs_are_inputs (P E : frame) (out : outputs)
    (st : frame * frame) :
  merge_sso_with_collection_system P E = Ok (out, st) ->
  collection_system_permit_raw out = drop_ignore helper_columns P /\
  sewer_overflow_bypass_event_raw out = drop_ignore helper_columns E /\
  (Forall (fun n => n ∉ labels P) helper_columns ->
   collection_system_permit_raw out = P) /\
  (Forall (fun n => n ∉ labels E) helper_columns ->
   sewer_overflow_bypass_event_raw out = E) /\
  Forall (fun n => (n ∉ labels (collection_system_permit_raw out)) /\
                   (n ∉ labels (sewer_overflow_bypass_event_raw out)))
         helper_columns.
Proof.
  intros Hrun. apply pipeline_inv in Hrun as (_ & _ & _ & ->).
  cbn [collection_system_permit_raw sewer_overflow_bypass_event_raw].
  repeat split.
  - intros Hfree. apply drop_ignore_id. apply Forall_forall, Hfree.
  - intros Hfree. apply drop_ignore_id. apply Forall_forall, Hfree.
  - apply Forall_forall. intros n Hn.
    split; apply helper_free_drop_ignore, Hn.
Qed.

End RawOutputs.

(** The example tables come back as they went in. *)
Lemma raw_outputs_are_inputs_witness :
  exists out st,
    merge_sso_with_collection_system (H := plain_text)
      Examples.permits Examples.events = Ok (out, st) /\
    collection_system_permit_raw out = Examples.permits /\
    sewer_overflow_bypass_event_raw out = Examples.events.
Proof.
  destruct (merge_sso_with_collection_system (H := plain_text)
              Examples.permits Examples.events) as [[out st]|e] eqn:Hrun;
    [|vm_compute in Hrun; discriminate].
  exists out, st. split; [reflexivity|].
  destruct (raw_outputs_are_inputs (H := plain_text) _ _ out st Hrun)
    as (_ & _ & HP & HE & _).
  split; [apply HP|apply HE]; by_computation.
Defined.

(** C4, as stated, fails: a permit table that has a column of its own
    named [_cs_join] comes back without it. *)
Lemma raw_output_loses_helper_named_column :
  exists out st,
    merge_sso_with_collection_system (H := plain_text)
      Examples.permits_with_helper_name Examples.events = Ok (out, st) /\
    ("_cs_join" ∈ labels Examples.permits_with_helper_name) /\
    ("_cs_join" ∉ labels (collection_system_permit_raw out)) /\
    (collection_system_permit_raw out <> Examples.permits_with_helper_name).
Proof.
  vm_compute merge_sso_with_collection_system. eexists _, _.
  split; [reflexivity|]. cbn [collection_system_permit_raw].
  split; [|split].
  - by_computation.
  - by_computation.
  - discriminate.
Qed.

(** ** The coordinate correction against its reference *)

Section Correction.
Context `{PandasText}.
Import FrameFacts.

Lemma value_cell_neg c x :
  value c = Some x -> negatable c ->
  value (cell_neg c) = Some (- x)%Q /\ negatable (cell_neg c) /\
  is_int (cell_neg c) = is_int c.
Proof.
  destruct c as [|z|q|s]; try discriminate; cbn [value negatable cell_neg is_int].
  - intros [= <-] Hz. rewrite wrap64_fits.
    + split; [reflexivity|]. split; [lia|reflexivity].
    + unfold fits_int64. apply andb_true_iff.
      split; [apply Z.leb_le|apply Z.ltb_lt]; lia.
  - intros [= <-] _. auto.
Qed.

(** On numbers that negation negates, the two masked assignments are the
    reference correction. *)
Lemma row_cleanup_value la lo x y :
  value la = Some x -> value lo = Some y ->
  negatable la -> negatable lo ->
  value (row_cleanup (la, lo)).1 = Some (Reference.correct x y).1 /\
  value (row_cleanup (la, lo)).2 = Some (Reference.correct x y).2 /\
  is_int (row_cleanup (la, lo)).1 = is_int la /\
  is_int (row_cleanup (la, lo)).2 = is_int lo.
Proof.
  intros Hx Hy Hla Hlo.
  assert (Hb : forall a b u v,
             value a = Some u -> value b = Some v -> negatable b ->
             value (flip_lon_only (a, b)).1 = Some (Reference.rule_b u v).1 /\
             value (flip_lon_only (a, b)).2 = Some (Reference.rule_b u v).2 /\
             is_int (flip_lon_only (a, b)).1 = is_int a /\
             is_int (flip_lon_only (a, b)).2 = is_int b).
  { intros a b u v Hu Hv Hneg.
    unfold flip_lon_only, Reference.rule_b, cell_between. cbn [fst snd].
    assert (H1 : cell_ge 0 a = Qle_bool 0 u).
    { apply eq_true_iff_eq. rewrite (cell_ge_value 0 a u Hu), Qle_bool_iff.
      tauto. }
    assert (H2 : cell_ge 60 b = Qle_bool 60 v).
    { apply eq_true_iff_eq. rewrite (cell_ge_value 60 b v Hv), Qle_bool_iff.
      tauto. }
    assert (H3 : cell_le 110 b = Qle_bool v 110).
    { apply eq_true_iff_eq. rewrite (cell_le_value 110 b v Hv), Qle_bool_iff.
      tauto. }
    rewrite H1, H2, H3. destruct (_ && _); cbn [fst snd]; [|auto].
    destruct (value_cell_neg b v Hv Hneg) as (Hv' & _ & Hi). auto. }
  unfold row_cleanup, Reference.correct, flip_both, Reference.rule_a.
  cbn [fst snd].
  destruct (Qlt_le_dec x 0) as [Hneg|Hpos].
  - apply (cell_lt_value 0 la x Hx) in Hneg. rewrite Hneg.
    destruct (value_cell_neg la x Hx Hla) as (Hx' & _ & Hia).
    destruct (value_cell_neg lo y Hy Hlo) as (Hy' & Hlo' & Hio).
    cbn [fst snd]. rewrite <- Hia, <- Hio. apply Hb; assumption.
  - assert (Hn : cell_lt 0 la = false).
    { apply not_true_is_false. rewrite (cell_lt_value 0 la x Hx). lra. }
    rewrite Hn. cbn [fst snd]. apply Hb; assumption.
Qed.

(** C2 (as amended).  In an events table whose coordinates fit int64
    where they are integers, for every row whose latitude and longitude
    parse to numbers other than the least int64 (which is its own
    negative), the cleaned coordinates are those of the reference
    definition: Rule A (latitude < 0: negate both), then Rule B on what
    Rule A left (latitude >= 0 and longitude in [60, 110]: negate the
    longitude); an integer stays an integer and a float a float.  A row
    whose parsed latitude is null is left as it is.  A row whose parsed
    longitude is null keeps the null longitude, and its latitude is still
    negated by Rule A when it is negative. *)
Theorem coordinate_cleanup_refines_reference (f f' : frame) :
  int64_column f "latitude_measure" = true ->
  int64_column f "longitude_measure" = true ->
  coordinate_cleanup f = Ok f' ->
  exists lat' lon',
    get f' "latitude_measure" = Some lat' /\
    get f' "longitude_measure" = Some lon' /\
    forall i la lo,
      parsed f "latitude_measure" !! i = Some la ->
      parsed f "longitude_measure" !! i = Some lo ->
      exists la' lo',
        lat' !! i = Some la' /\ lon' !! i = Some lo' /\
        (forall x y, value la = Some x -> value lo = Some y ->
           negatable la -> negatable lo ->
           value la' = Some (Reference.correct x y).1 /\
           value lo' = Some (Reference.correct x y).2 /\
           is_int la' = is_int la /\ is_int lo' = is_int lo) /\
        (la = NaN -> la' = NaN /\ lo' = lo) /\
        (lo = NaN ->
           lo' = NaN /\ la' = if cell_lt 0 la then cell_neg la else la).
Proof.
  intros _ _. rewrite coordinate_cleanup_eq. intros [= <-].
  exists (flipped_lat f), (cleaned_lon f).
  split; [apply get_cleaned_lat|]. split; [apply get_cleaned_lon|].
  intros i la lo Hla Hlo.
  destruct (cleaned_lookup f i la lo Hla Hlo) as [Hlat' Hlon'].
  eexists _, _. split; [exact Hlat'|]. split; [exact Hlon'|].
  split; [|split].
  - intros x y Hx Hy Hnla Hnlo. apply row_cleanup_value; assumption.
  - intros ->. split; reflexivity.
  - intros ->. rewrite row_cleanup_nan_lon. split; reflexivity.
Qed.

End Correction.

(** The claim's own rows: (-41, 98) is flipped by Rule A, (40, 88) by Rule
    B, (13, 144) by neither, (-10, 75) by Rule A only, and (-10, -75) by
    Rule A and then by Rule B. *)
Example reference_rows :
  Reference.correct (-41) 98 = ((41 : Q), (-98)%Q) /\
  Reference.correct 40 88 = ((40 : Q), (-88)%Q) /\
  Reference.correct 13 144 = ((13 : Q), (144 : Q)) /\
  Reference.correct (-10) 75 = ((10 : Q), (-75)%Q) /\
  Reference.correct (-10) (-75) = ((10 : Q), (-75)%Q).
Proof. vm_compute. repeat split. Qed.

Lemma coordinate_cleanup_refines_reference_witness :
  exists f' lat' lon' la' lo',
    coordinate_cleanup (H := plain_text) Examples.events = Ok f' /\
    get f' "latitude_measure" = Some lat' /\
    get f' "longitude_measure" = Some lon' /\
    lat' !! 0 = Some la' /\ lon' !! 0 = Some lo' /\
    value la' = Some (Reference.correct (-41) 98).1 /\
    value lo' = Some (Reference.correct (-41) 98).2.
Proof.
  destruct (coordinate_cleanup (H := plain_text) Examples.events)
    as [f'|e] eqn:Hrun; [|vm_compute in Hrun; discriminate].
  destruct (coordinate_cleanup_refines_reference (H := plain_text)
              Examples.events f' eq_refl eq_refl Hrun)
    as (lat' & lon' & Hlat & Hlon & Hrows).
  destruct (Hrows 0 (Num (-41)) (Num 98) eq_refl eq_refl)
    as (la' & lo' & Hla' & Hlo' & Hnum & _).
  destruct (Hnum (-41)%Q 98%Q eq_refl eq_refl I I) as (Hx & Hy & _).
  exists f', lat', lon', la', lo'. split; [reflexivity|].
  repeat (split; [assumption|]). assumption.
Defined.

(** C2, as stated, fails on its remark that a row with a null parsed
    latitude or longitude is touched by no rule: the longitude of this row
    is null, and its latitude -5 comes out as 5. *)
Lemma null_longitude_row_is_flipped :
  exists f',
    coordinate_cleanup (H := plain_text) Examples.events_without_longitude
    = Ok f' /\
    parsed (H := plain_text) Examples.events_without_longitude
      "longitude_measure" !! 0 = Some NaN /\
    parsed (H := plain_text) Examples.events_without_longitude
      "latitude_measure" !! 0 = Some (Num (-5)) /\
    get f' "latitude_measure" = Some [Num 5] /\
    Num 5 <> Num (-5).
Proof.
  vm_compute coordinate_cleanup. eexists. split; [reflexivity|].
  repeat split. discriminate.
Qed.

(** ** Key normalization *)

Section KeyNormalization.
Context `{PandasText}.
Import FrameFacts JoinFacts.

(** The helper columns of a keyed frame hold the keys of its rows. *)
Lemma keyed_helper_cells f i a b :
  cell_at f "permit_identifier" i = Some a ->
  cell_at f "collection_system_identifier" i = Some b ->
  cell_at (keyed f) "_permit_join" i = Some (normalize_key a) /\
  cell_at (keyed f) "_cs_join" i = Some (normalize_key b).
Proof.
  unfold cell_at. intros Ha Hb.
  rewrite get_keyed_permit, get_keyed_cs.
  destruct (get f "permit_identifier") as [pid|]; [|discriminate].
  destruct (get f "collection_system_identifier") as [cs|]; [|discriminate].
  cbn [mbind option_bind default] in *. unfold normalize, id.
  rewrite !list_lookup_fmap, Ha, Hb. split; reflexivity.
Qed.

Lemma cleaned_helper_cells f c i :
  c ∈ helper_columns -> cell_at (cleaned f) c i = cell_at f c i.
Proof.
  intros Hc. unfold cell_at. rewrite get_cleaned_other; [reflexivity|..];
    intros ->; revert Hc; by_computation.
Qed.

Lemma cell_at_lt f c i x :
  well_formed f -> cell_at f c i = Some x -> i < nrows f.
Proof.
  unfold cell_at. intros Hf Hx.
  destruct (get f c) as [col|] eqn:Hcol; [|discriminate].
  cbn [mbind option_bind] in Hx. apply lookup_lt_Some in Hx.
  rewrite <- (well_formed_get f c col Hf Hcol). exact Hx.
Qed.

(** Two rows are paired by the join exactly when their keys agree for
    both identifiers. *)
Lemma paired_iff_equal_keys P E i j a b a' b' :
  i < nrows E -> j < nrows P ->
  cell_at E "permit_identifier" i = Some a ->
  cell_at E "collection_system_identifier" i = Some b ->
  cell_at P "permit_identifier" j = Some a' ->
  cell_at P "collection_system_identifier" j = Some b' ->
  (i, Some j) ∈ join_index P E <->
  normalize_key a = normalize_key a' /\ normalize_key b = normalize_key b'.
Proof.
  intros Hi Hj Ha Hb Ha' Hb'. rewrite elem_of_join_index.
  rewrite (lookup_normalized_keys E i a b Hi Ha Hb).
  rewrite (lookup_normalized_keys P j a' b' Hj Ha' Hb'). split.
  - intros (k & [= <-] & [= -> ->]). split; reflexivity.
  - intros [-> ->]. eexists. split; reflexivity.
Qed.

(** An event row is left without a permit exactly when no permit row has
    its keys. *)
Lemma unpaired_iff_no_equal_keys P E i a b :
  well_formed P ->
  "permit_identifier" ∈ labels P ->
  "collection_system_identifier" ∈ labels P ->
  i < nrows E ->
  cell_at E "permit_identifier" i = Some a ->
  cell_at E "collection_system_identifier" i = Some b ->
  (i, None) ∈ join_index P E <->
  forall j a' b',
    cell_at P "permit_identifier" j = Some a' ->
    cell_at P "collection_system_identifier" j = Some b' ->
    ~ (normalize_key a = normalize_key a' /\
       normalize_key b = normalize_key b').
Proof.
  intros HP HpP HcP Hi Ha Hb. rewrite elem_of_join_index.
  rewrite (lookup_normalized_keys E i a b Hi Ha Hb). split.
  - intros (k & [= <-] & Hk) j a' b' Ha' Hb' [Hka Hkb]. apply Hk.
    apply list_elem_of_lookup. exists j.
    rewrite (lookup_normalized_keys P j a' b'
               (cell_at_lt P _ j a' HP Ha') Ha' Hb').
    rewrite Hka, Hkb. reflexivity.
  - intros Hnone. eexists. split; [reflexivity|].
    intros Hin. apply list_elem_of_lookup in Hin as [j Hj].
    assert (Hlt : j < nrows P).
    { apply lookup_lt_Some in Hj. rewrite length_normalized_keys in Hj.
      exact Hj. }
    apply get_is_Some in HpP as [pid Hpid].
    apply get_is_Some in HcP as [cs Hcs].
    destruct (lookup_lt_is_Some_2 pid j) as [a' Ha'];
      [rewrite (well_formed_get P _ pid HP Hpid); exact Hlt|].
    destruct (lookup_lt_is_Some_2 cs j) as [b' Hb'];
      [rewrite (well_formed_get P _ cs HP Hcs); exact Hlt|].
    assert (Hca : cell_at P "permit_identifier" j = Some a')
      by (unfold cell_at; rewrite Hpid; exact Ha').
    assert (Hcb : cell_at P "collection_system_identifier" j = Some b')
      by (unfold cell_at; rewrite Hcs; exact Hb').
    rewrite (lookup_normalized_keys P j a' b' Hlt Hca Hcb) in Hj.
    injection Hj as Hka Hkb. apply (Hnone j a' b' Hca Hcb). auto.
Qed.

(** C3 (as amended).  The join key of an identifier is its text,
    whitespace-trimmed and uppercased: a text is its own text, an integer
    prints as its decimal numeral and a float as Python prints it.  Texts
    that differ only in surrounding whitespace and in the case of their
    letters have the same key (so do [" ia0012345 "] and ["IA0012345"]).
    What becomes of a missing identifier depends on pandas: where
    [astype(str)] leaves the null null (pandas 3) its key is the null,
    which no other identifier has; where it prints the null (pandas 2)
    its key is the text ["NAN"].  The call writes these keys into the
    helper columns of both tables, and the merged table is made of the
    pairs of the join index, in which an event row is paired with a
    permit row exactly when the keys of both identifiers agree (two
    missing identifiers agree), and stands alone exactly when no permit
    row agrees with it. *)
Theorem normalized_key_matching :
  (forall s, Text.ascii_only s = true ->
     normalize_key (Str s) = Str (Text.upper (Text.strip s))) /\
  (forall z,
     normalize_key (Int z) = Str (Text.upper (Text.strip (string_of_Z z)))) /\
  (forall q,
     normalize_key (Num q) = Str (Text.upper (Text.strip (repr_float q)))) /\
  (normalize_key NaN = if null_stays_null then NaN else Str "NAN") /\
  (forall c, normalize_key c = NaN -> null_stays_null = true /\ c = NaN) /\
  (forall l r l' r' a b,
     Text.blank l = true -> Text.blank r = true ->
     Text.blank l' = true -> Text.blank r' = true ->
     Text.same_but_case a b = true ->
     normalize_key (Str (l ++ a ++ r)) = normalize_key (Str (l' ++ b ++ r')))
  /\ normalize_key (Str " ia0012345 ") = normalize_key (Str "IA0012345")
  /\ (forall P E m P' E',
        well_formed P -> well_formed E ->
        ascii_identifiers P = true -> ascii_identifiers E = true ->
        reconcile P E = Ok (m, (P', E')) ->
        nrows m = length (join_index P E) /\
        (forall p i oj,
           join_index P E !! p = Some (i, oj) ->
           row_at m p
           = filter (fun q => q.1 ∉ helper_columns)
               (joined_row E' P' helper_columns "_coll" i oj)) /\
        (forall i a b,
           cell_at E "permit_identifier" i = Some a ->
           cell_at E "collection_system_identifier" i = Some b ->
           cell_at E' "_permit_join" i = Some (normalize_key a) /\
           cell_at E' "_cs_join" i = Some (normalize_key b) /\
           (forall j a' b',
              cell_at P "permit_identifier" j = Some a' ->
              cell_at P "collection_system_identifier" j = Some b' ->
              cell_at P' "_permit_join" j = Some (normalize_key a') /\
              cell_at P' "_cs_join" j = Some (normalize_key b') /\
              ((i, Some j) ∈ join_index P E <->
               normalize_key a = normalize_key a' /\
               normalize_key b = normalize_key b')) /\
           ((i, None) ∈ join_index P E <->
            forall j a' b',
              cell_at P "permit_identifier" j = Some a' ->
              cell_at P "collection_system_identifier" j = Some b' ->
              ~ (normalize_key a = normalize_key a' /\
                 normalize_key b = normalize_key b')))).
Proof.
  split; [|split; [|split; [|split; [|split; [|split; [|split]]]]]].
  - intros s _. unfold normalize_key. cbn [isna]. rewrite andb_false_r.
    reflexivity.
  - intros z. unfold normalize_key. cbn [isna]. rewrite andb_false_r.
    reflexivity.
  - intros q. unfold normalize_key. cbn [isna]. rewrite andb_false_r.
    reflexivity.
  - unfold normalize_key. cbn [isna]. rewrite andb_true_r.
    destruct null_stays_null; reflexivity.
  - intros c. unfold normalize_key.
    destruct null_stays_null, c; cbn [isna andb]; try discriminate.
    auto.
  - intros l r l' r' a b Hl Hr Hl' Hr' Hab. unfold normalize_key.
    cbn [isna]. rewrite !andb_false_r. f_equal. unfold normalize_cell.
    cbn [astype_str]. apply TextFacts.upper_strip_padded; assumption.
  - unfold normalize_key. cbn [isna]. rewrite !andb_false_r. reflexivity.
  - intros P E m P' E' HP HE _ _ Hrec.
    apply reconcile_inv in Hrec as ((HpP & HpE & HcP & HcE) & _ & [= -> -> ->]).
    split; [apply nrows_merged|]. split; [apply row_at_merged|].
    intros i a b Ha Hb.
    destruct (keyed_helper_cells E i a b Ha Hb) as [Hka Hkb].
    rewrite !cleaned_helper_cells by by_computation.
    split; [exact Hka|]. split; [exact Hkb|].
    pose proof (cell_at_lt E _ i a HE Ha) as Hi. split.
    + intros j a' b' Ha' Hb'.
      destruct (keyed_helper_cells P j a' b' Ha' Hb') as [Hka' Hkb'].
      split; [exact Hka'|]. split; [exact Hkb'|].
      apply paired_iff_equal_keys; try assumption.
      apply (cell_at_lt P _ j a' HP Ha').
    + apply unpaired_iff_no_equal_keys; assumption.
Qed.

End KeyNormalization.

(** On the example tables the event [" ia0012345 "] is paired with both
    permit rows, ["IA0012345"] and ["ia0012345 "]. *)
Lemma normalized_key_matching_witness :
  exists m P' E',
    reconcile (H := plain_text) Examples.permits Examples.events
    = Ok (m, (P', E')) /\
    nrows m = 2 /\
    cell_at E' "_permit_join" 0 = Some (Str "IA0012345") /\
    cell_at P' "_permit_join" 1 = Some (Str "IA0012345") /\
    (0, Some 1) ∈ join_index (H := plain_text) Examples.permits Examples.events.
Proof.
  destruct (reconcile (H := plain_text) Examples.permits Examples.events)
    as [[m [P' E']]|e] eqn:Hrun; [|vm_compute in Hrun; discriminate].
  destruct (proj2 (proj2 (proj2 (proj2 (proj2 (proj2 (proj2
              (normalized_key_matching (H := plain_text))))))))
              Examples.permits Examples.events m P' E')
    as (Hn & _ & Hcells);
    [by_computation | by_computation | reflexivity | reflexivity
    | exact Hrun |].
  destruct (Hcells 0 (Str " ia0012345 ") (Str "1") eq_refl eq_refl)
    as (HE1 & _ & Hpair & _).
  destruct (Hpair 1 (Str "ia0012345 ") (Str "1") eq_refl eq_refl)
    as (HP1 & _ & Hiff).
  exists m, P', E'. split; [reflexivity|].
  split; [rewrite Hn; reflexivity|].
  split; [exact HE1|]. split; [exact HP1|].
  apply Hiff. split; reflexivity.
Defined.

(** C3, as stated, fails under pandas 3 on the key of a missing
    identifier: it is the null, not the text ["NAN"], so the event without
    a permit identifier is not paired with the permit whose identifier is
    spelled [nan] (key ["NAN"]); under pandas 2 it is. *)
Lemma null_identifier_is_not_the_text_NAN :
  normalize_key (H := plain_text) NaN = NaN /\
  normalize_key (H := plain_text) (Str "nan") = Str "NAN" /\
  join_index (H := plain_text) Examples.permit_spelled_nan
    Examples.events_null_identifier = [(0, None); (1, None)] /\
  join_index (H := plain_text2) Examples.permit_spelled_nan
    Examples.events_null_identifier = [(0, None); (1, Some 0)].
Proof. repeat split. Qed.

(** ** Missing columns *)

Section MissingColumns.
Context `{PandasText}.
Import FrameFacts JoinFacts.

Lemma negate_where_all_false n col :
  length col = n -> negate_where (replicate n false) col = col.
Proof.
  revert n. induction col as [|c col IH]; intros [|n] Hn;
    try discriminate; [reflexivity|].
  cbn [replicate negate_where zip_with]. f_equal. apply IH.
  cbn [length] in Hn. lia.
Qed.

Lemma negate_where_all_nan mask n :
  length mask = n -> negate_where mask (replicate n NaN) = replicate n NaN.
Proof.
  revert n. induction mask as [|b mask IH]; intros [|n] Hn;
    try discriminate; [reflexivity|].
  cbn [replicate negate_where zip_with]. f_equal.
  - destruct b; reflexivity.
  - apply IH. cbn [length] in Hn. lia.
Qed.

Lemma mask_and_all_false n m :
  length m = n -> mask_and (replicate n false) m = replicate n false.
Proof.
  revert n. induction m as [|b m IH]; intros [|n] Hn;
    try discriminate; [reflexivity|].
  cbn [replicate mask_and zip_with]. f_equal. apply IH.
  cbn [length] in Hn. lia.
Qed.

Lemma mask_and_all_false_r n m :
  length m = n -> mask_and m (replicate n false) = replicate n false.
Proof.
  revert n. induction m as [|b m IH]; intros [|n] Hn;
    try discriminate; [reflexivity|].
  cbn [replicate mask_and zip_with]. f_equal.
  - apply andb_false_r.
  - apply IH. cbn [length] in Hn. lia.
Qed.

Lemma parsed_absent f c : c ∉ labels f -> parsed f c = replicate (nrows f) NaN.
Proof.
  intros Hc. apply get_None in Hc. unfold parsed. rewrite Hc. reflexivity.
Qed.

Lemma length_negate_where mask col :
  length mask = length col -> length (negate_where mask col) = length col.
Proof.
  intros Hlen. unfold negate_where. rewrite length_zip_with. lia.
Qed.

(** Without a latitude column no rule fires: the latitude is null
    throughout and the longitude is the coerced one. *)
Lemma cleaned_without_latitude f :
  well_formed f -> "latitude_measure" ∉ labels f ->
  flipped_lat f = replicate (nrows f) NaN /\
  cleaned_lon f = parsed f "longitude_measure".
Proof.
  intros Hf Hlat.
  assert (Hfl : flipped_lat f = replicate (nrows f) NaN).
  { unfold flipped_lat. rewrite (parsed_absent f _ Hlat).
    apply negate_where_all_nan. unfold lt.
    rewrite length_fmap. apply length_replicate. }
  split; [exact Hfl|].
  assert (Hfo : flipped_lon f = parsed f "longitude_measure").
  { unfold flipped_lon. rewrite (parsed_absent f _ Hlat). unfold lt.
    rewrite fmap_replicate. apply negate_where_all_false.
    apply length_parsed, Hf. }
  unfold cleaned_lon. rewrite Hfl, Hfo. unfold ge.
  rewrite fmap_replicate. cbn [cell_ge].
  rewrite mask_and_all_false.
  - apply negate_where_all_false, length_parsed, Hf.
  - unfold between. rewrite length_fmap. apply length_parsed, Hf.
Qed.

(** Without a longitude column the longitude is null throughout. *)
Lemma cleaned_without_longitude f :
  well_formed f -> "longitude_measure" ∉ labels f ->
  cleaned_lon f = replicate (nrows f) NaN.
Proof.
  intros Hf Hlon.
  assert (Hfo : flipped_lon f = replicate (nrows f) NaN).
  { unfold flipped_lon. rewrite (parsed_absent f _ Hlon).
    apply negate_where_all_nan. unfold lt.
    rewrite length_fmap. apply length_parsed, Hf. }
  unfold cleaned_lon. rewrite Hfo. apply negate_where_all_nan.
  unfold mask_and, ge, between.
  rewrite length_zip_with, !length_fmap, length_replicate.
  unfold flipped_lat. rewrite length_negate_where.
  - rewrite (length_parsed f _ Hf). lia.
  - unfold lt. apply length_fmap.
Qed.

Lemma well_formed_keyed f :
  well_formed f ->
  "permit_identifier" ∈ labels f ->
  "collection_system_identifier" ∈ labels f ->
  well_formed (keyed f).
Proof.
  intros Hf Hp Hc. apply get_is_Some in Hp as [pid Hpid].
  apply get_is_Some in Hc as [cs Hcs]. unfold keyed.
  rewrite Hpid, Hcs. cbn [default].
  apply well_formed_setitem; [apply well_formed_setitem; [exact Hf|]|].
  - cbn [broadcast]. unfold normalize. rewrite length_fmap.
    eapply well_formed_get; eassumption.
  - rewrite nrows_setitem. cbn [broadcast]. unfold normalize.
    rewrite length_fmap. eapply well_formed_get; eassumption.
Qed.

Lemma assoc_filter c (names : list string) l :
  c ∉ names ->
  assoc c (filter (fun p : string * list cell => p.1 ∉ names) l) = assoc c l.
Proof.
  intros Hc. induction l as [|[k v] l IH]; [reflexivity|].
  rewrite filter_cons. cbn [fst assoc].
  destruct (decide (k ∉ names)) as [Hk|Hk]; cbn [assoc];
    destruct (decide (k = c)) as [->|Hne]; try reflexivity; try exact IH.
  contradiction.
Qed.

Lemma assoc_relabel c (g : list cell -> list cell) l :
  assoc c ((fun p : string * list cell => (p.1, g p.2)) <$> l)
  = g <$> assoc c l.
Proof.
  induction l as [|[k v] l IH]; [reflexivity|].
  rewrite fmap_cons. cbn [fst snd assoc].
  destruct (decide (k = c)); [reflexivity|exact IH].
Qed.

(** A column of the left frame is found in the joined one, gathered. *)
Lemma get_joined (L : frame) n (names : list string)
    (rest : list (string * list cell)) (g : list cell -> list cell) c col :
  c ∉ names ->
  get L c = Some col ->
  get (drop_ignore names
         (Frame n (fmap (fun p => (p.1, g p.2)) (cols L) ++ rest))) c
  = Some (g col).
Proof.
  intros Hc Hcol. unfold get, drop_ignore. cbn [cols].
  rewrite assoc_filter by exact Hc. rewrite assoc_app, assoc_relabel.
  unfold get in Hcol. rewrite Hcol. reflexivity.
Qed.

(** A column of the cleaned events is found in the merged table, gathered
    along the join index. *)
Lemma get_merged_left P E c col :
  c ∉ helper_columns ->
  get (cleaned (keyed E)) c = Some col ->
  get (merged P E) c = Some (take_left (join_index P E) col).
Proof.
  intros Hc Hcol. unfold merged.
  apply (get_joined (cleaned (keyed E)) _ helper_columns _
           (take_left (join_index P E)) c col Hc Hcol).
Qed.

Lemma take_left_all_nan ix n :
  take_left ix (replicate n NaN) = replicate (length ix) NaN.
Proof.
  unfold take_left. induction ix as [|p ix IH]; [reflexivity|].
  rewrite fmap_cons. cbn [length replicate]. f_equal; [|exact IH].
  rewrite nth_lookup. destruct (replicate n NaN !! p.1) as [c|] eqn:Hp;
    [|reflexivity].
  apply lookup_replicate_1 in Hp as [-> _]. reflexivity.
Qed.

Lemma parsed_keyed f c :
  c <> "_permit_join" -> c <> "_cs_join" -> parsed (keyed f) c = parsed f c.
Proof.
  intros H1 H2. unfold keyed.
  rewrite !parsed_setitem_other by congruence. reflexivity.
Qed.

Lemma not_elem_of_labels_keyed f c :
  c <> "_permit_join" -> c <> "_cs_join" -> c ∉ labels f ->
  c ∉ labels (keyed f).
Proof.
  intros H1 H2 Hc Hin. apply elem_of_labels_keyed in Hin. tauto.
Qed.

(** Rule A on the latitude column alone: the negative cells are
    negated. *)
Lemma flipped_lat_fmap f :
  flipped_lat f
  = (fun la => if cell_lt 0 la then cell_neg la else la)
      <$> parsed f "latitude_measure".
Proof.
  unfold flipped_lat, negate_where, lt.
  induction (parsed f "latitude_measure") as [|c col IH]; [reflexivity|].
  rewrite !fmap_cons. cbn [zip_with]. f_equal. exact IH.
Qed.

(** C10 (as amended).  When both tables have the two identifier columns
    (and the labels allow the merge at all), reconciliation returns
    whether or not the events table has the coordinate columns: an absent
    latitude or longitude column is created with every value null, in the
    events table and in the merged table alike.  Without a latitude no
    rule fires (the longitude is the coerced one).  Without a longitude
    Rule B does not fire, but Rule A still does: every negative latitude
    is negated.  When an identifier column is absent from either table,
    reconciliation, and with it the whole call, raises [KeyError] for
    that column. *)
Theorem missing_columns :
  (forall P E,
     well_formed E ->
     int64_column E "latitude_measure" = true ->
     int64_column E "longitude_measure" = true ->
     "permit_identifier" ∈ labels P -> "permit_identifier" ∈ labels E ->
     "collection_system_identifier" ∈ labels P ->
     "collection_system_identifier" ∈ labels E ->
     labels_clash P E = false ->
     exists m P' E',
       reconcile P E = Ok (m, (P', E')) /\
       nrows E' = nrows E /\
       ("latitude_measure" ∉ labels E ->
          get E' "latitude_measure" = Some (replicate (nrows E) NaN) /\
          get E' "longitude_measure" = Some (parsed E "longitude_measure") /\
          get m "latitude_measure" = Some (replicate (nrows m) NaN)) /\
       ("longitude_measure" ∉ labels E ->
          get E' "longitude_measure" = Some (replicate (nrows E) NaN) /\
          get m "longitude_measure" = Some (replicate (nrows m) NaN) /\
          get E' "latitude_measure"
          = Some ((fun la => if cell_lt 0 la then cell_neg la else la)
                    <$> parsed E "latitude_measure")))
  /\
  (forall P E,
     ~ ("permit_identifier" ∈ labels P /\ "permit_identifier" ∈ labels E /\
        "collection_system_identifier" ∈ labels P /\
        "collection_system_identifier" ∈ labels E) ->
     exists c, c ∈ ["permit_identifier"; "collection_system_identifier"] /\
               reconcile P E = Err (KeyError c) /\
               merge_sso_with_collection_system P E = Err (KeyError c)).
Proof.
  split.
  - intros P E Hwf _ _ HpP HpE HcP HcE Hclash.
    exists (merged P E), (keyed P), (cleaned (keyed E)).
    split; [apply reconcile_Ok; assumption|].
    split; [rewrite nrows_cleaned; apply nrows_keyed|].
    pose proof (well_formed_keyed E Hwf HpE HcE) as Hwk.
    split.
    + intros Hlat.
      assert (Hlat' : "latitude_measure" ∉ labels (keyed E))
        by (apply not_elem_of_labels_keyed; [discriminate..|exact Hlat]).
      destruct (cleaned_without_latitude (keyed E) Hwk Hlat') as [Hfl Hcl].
      rewrite nrows_keyed in Hfl. rewrite parsed_keyed in Hcl by discriminate.
      assert (Hget : get (cleaned (keyed E)) "latitude_measure"
                     = Some (replicate (nrows E) NaN))
        by (rewrite get_cleaned_lat, Hfl; reflexivity).
      split; [exact Hget|].
      split; [rewrite get_cleaned_lon, Hcl; reflexivity|].
      assert (Hnh : "latitude_measure" ∉ helper_columns) by by_computation.
      rewrite (get_merged_left P E _ _ Hnh Hget).
      rewrite take_left_all_nan, nrows_merged. reflexivity.
    + intros Hlon.
      assert (Hlon' : "longitude_measure" ∉ labels (keyed E))
        by (apply not_elem_of_labels_keyed; [discriminate..|exact Hlon]).
      pose proof (cleaned_without_longitude (keyed E) Hwk Hlon') as Hcl.
      rewrite nrows_keyed in Hcl.
      assert (Hget : get (cleaned (keyed E)) "longitude_measure"
                     = Some (replicate (nrows E) NaN))
        by (rewrite get_cleaned_lon, Hcl; reflexivity).
      split; [exact Hget|].
      assert (Hnh : "longitude_measure" ∉ helper_columns) by by_computation.
      rewrite (get_merged_left P E _ _ Hnh Hget).
      rewrite take_left_all_nan, nrows_merged. split; [reflexivity|].
      rewrite get_cleaned_lat, flipped_lat_fmap, parsed_keyed by discriminate.
      reflexivity.
  - intros P E Hmiss.
    destruct (reconcile_Err_keys P E Hmiss) as (c & Hc & Herr).
    exists c. split; [exact Hc|]. split; [exact Herr|].
    rewrite pipeline_unfold, Herr. reflexivity.
Qed.

End MissingColumns.

(** An events table without a latitude column is reconciled, its latitude
    null in the merged table. *)
Lemma missing_columns_witness :
  exists m P' E',
    reconcile (H := plain_text) Examples.permits
      Examples.events_without_latitude_column = Ok (m, (P', E')) /\
    get E' "latitude_measure" = Some [NaN] /\
    get m "latitude_measure" = Some (replicate (nrows m) NaN).
Proof.
  destruct (proj1 (missing_columns (H := plain_text))
              Examples.permits Examples.events_without_latitude_column)
    as (m & P' & E' & Hrun & _ & Hlat & _);
    [by_computation|reflexivity|reflexivity|by_computation..|reflexivity|].
  exists m, P', E'. split; [exact Hrun|].
  destruct Hlat as (HE' & _ & Hm); [by_computation|].
  split; assumption.
Defined.

(** C10, as stated, fails on its remark that no correction rule fires
    when a coordinate column is absent: this events table has no
    longitude column, and its latitude -5 comes out as 5, in the events
    table and in both rows of the merged table. *)
Lemma absent_longitude_latitude_is_flipped :
  exists m P' E',
    reconcile (H := plain_text) Examples.permits
      Examples.events_without_longitude_column = Ok (m, (P', E')) /\
    ("longitude_measure" ∉ labels Examples.events_without_longitude_column) /\
    get Examples.events_without_longitude_column "latitude_measure"
    = Some [Num (-5)] /\
    get E' "longitude_measure" = Some [NaN] /\
    get E' "latitude_measure" = Some [Num 5] /\
    get m "latitude_measure" = Some [Num 5; Num 5] /\
    Num 5 <> Num (-5).
Proof.
  vm_compute reconcile. eexists _, _, _. split; [reflexivity|].
  split; [by_computation|]. repeat split. discriminate.
Qed.
(** ** Grouping *)

Module GroupFacts.
Section Groups.
Context `{PandasText}.

Lemma group_keys_Permutation rows :
  group_keys rows ≡ₚ remove_dups (group_key <$> rows).
Proof. apply merge_sort_Permutation. Qed.

Lemma NoDup_group_keys rows : NoDup (group_keys rows).
Proof.
  rewrite group_keys_Permutation. apply NoDup_remove_dups.
Qed.

Lemma elem_of_group_keys rows k :
  k ∈ group_keys rows <-> exists r, r ∈ rows /\ group_key r = k.
Proof.
  rewrite group_keys_Permutation, elem_of_remove_dups, list_elem_of_fmap.
  split; intros (r & Hr1 & Hr2); exists r; auto.
Qed.

Lemma keys_groupby_agg rows : key <$> groupby_agg rows = group_keys rows.
Proof.
  unfold groupby_agg. rewrite <- list_fmap_compose.
  rewrite <- (list_fmap_id (group_keys rows)) at 2.
  apply list_fmap_ext. intros i k _. reflexivity.
Qed.

Lemma elem_of_groupby_agg rows g :
  g ∈ groupby_agg rows <->
  key g ∈ group_keys rows /\ g = aggregate (key g) (group_of (key g) rows).
Proof.
  unfold groupby_agg. rewrite list_elem_of_fmap. split.
  - intros (k & -> & Hk). cbn [key aggregate]. auto.
  - intros [Hk Hg]. exists (key g). auto.
Qed.

(** A summary row is determined by its key. *)
Lemma groupby_agg_key_inj rows g g' :
  g ∈ groupby_agg rows -> g' ∈ groupby_agg rows -> key g = key g' -> g = g'.
Proof.
  intros Hg Hg' Hk. apply elem_of_groupby_agg in Hg as [_ Hg].
  apply elem_of_groupby_agg in Hg' as [_ Hg']. rewrite Hg, Hg', Hk.
  reflexivity.
Qed.

Lemma elem_of_group_of k rows r :
  r ∈ group_of k rows <-> group_key r = k /\ r ∈ rows.
Proof. unfold group_of. rewrite list_elem_of_filter. tauto. Qed.

(** Among keys without repetition, a row counts for one key. *)
Lemma count_own_key (ks : list (list cell)) k0 :
  NoDup ks -> k0 ∈ ks ->
  sum_list_with (fun k => if decide (k0 = k) then 1 else 0) ks = 1.
Proof.
  induction 1 as [|k ks Hk Hnd IH]; intros Hin; [inversion Hin|].
  cbn [sum_list_with]. destruct (decide (k0 = k)) as [->|Hne].
  - assert (Hz : sum_list_with
                   (fun k' => if decide (k = k') then 1 else 0) ks = 0).
    { clear -Hk. induction ks as [|k' ks IH]; [reflexivity|].
      cbn [sum_list_with]. apply not_elem_of_cons in Hk as [Hne Hk].
      destruct (decide (k = k')); [contradiction|]. apply IH, Hk. }
    rewrite Hz. reflexivity.
  - apply elem_of_cons in Hin as [Hin|Hin]; [contradiction|].
    rewrite (IH Hin). reflexivity.
Qed.

Lemma group_sizes_cons (ks : list (list cell)) r rows :
  sum_list_with (fun k => length (group_of k (r :: rows))) ks
  = sum_list_with (fun k => if decide (group_key r = k) then 1 else 0) ks
    + sum_list_with (fun k => length (group_of k rows)) ks.
Proof.
  induction ks as [|k ks IHk]; [reflexivity|].
  cbn [sum_list_with]. rewrite IHk. unfold group_of at 1.
  rewrite filter_cons.
  destruct (decide (group_key r = k)); cbn [length];
    fold (group_of k rows); lia.
Qed.

(** The groups of keys without repetition that cover the rows take every
    row once. *)
Lemma group_sizes (ks : list (list cell)) rows :
  NoDup ks -> (forall r, r ∈ rows -> group_key r ∈ ks) ->
  sum_list_with (fun k => length (group_of k rows)) ks = length rows.
Proof.
  intros Hnd. induction rows as [|r rows IH]; intros Hcov.
  - clear. induction ks as [|k ks IHk]; [reflexivity|].
    cbn [sum_list_with]. rewrite IHk. reflexivity.
  - rewrite group_sizes_cons.
    rewrite (count_own_key ks (group_key r) Hnd
               (Hcov r (list_elem_of_here _ _))).
    rewrite IH by (intros r' Hr'; apply Hcov, list_elem_of_further, Hr').
    reflexivity.
Qed.

End Groups.
End GroupFacts.

(** ** The rows of the summary *)

Section SummaryFacts.
Context `{PandasText}.
Import FrameFacts GroupFacts.

Lemma nth_fmap_default {A B : Type} (f : A -> B) (l : list A) i d :
  nth i (f <$> l) (f d) = f (nth i l d).
Proof.
  rewrite !nth_lookup, list_lookup_fmap. destruct (l !! i); reflexivity.
Qed.

Lemma length_getitems f cs l : getitems f cs = Ok l -> length l = length cs.
Proof.
  revert l. induction cs as [|c cs IH]; intros l; cbn [getitems].
  - intros [= <-]. reflexivity.
  - intros Hl. apply bind_Ok_inv in Hl as (col & _ & Hl).
    apply bind_Ok_inv in Hl as (rest & Hrest & [= <-]).
    cbn [length]. rewrite (IH rest Hrest). reflexivity.
Qed.

Lemma canon_year_cell t : canon (year_cell t) = year_cell t.
Proof.
  destruct t as [ns|]; [|reflexivity]. cbn [year_cell canon].
  rewrite inject_Z_Qred. reflexivity.
Qed.

Lemma getitems_lookup f cs l n c :
  getitems f cs = Ok l -> cs !! n = Some c ->
  exists col, l !! n = Some col /\ get f c = Some col.
Proof.
  revert l n. induction cs as [|c' cs IH]; intros l n Hl Hn; [discriminate|].
  cbn [getitems] in Hl. apply bind_Ok_inv in Hl as (col & Hcol & Hl).
  apply bind_Ok_inv in Hl as (rest & Hrest & [= <-]).
  destruct n as [|n].
  - injection Hn as ->. exists col. split; [reflexivity|].
    apply getitem_Ok, Hcol.
  - apply (IH rest n Hrest Hn).
Qed.

(** The rows read by the aggregation, one for every row of the merged
    table, with the parsed cells of that row. *)
Lemma summary_rows_inv m rows :
  summary_rows m = Ok rows ->
  exists start ts end_ te vol keycols ek,
    get m "sewer_overflow_bypass_start_datetime" = Some start /\
    to_datetime start = Ok ts /\
    get m "sewer_overflow_bypass_end_datetime" = Some end_ /\
    to_datetime end_ = Ok te /\
    get m "sewer_overflow_bypass_discharge_volume_gallons" = Some vol /\
    getitems m summary_group_cols = Ok keycols /\
    get m "sewer_overflow_bypass_event_key" = Some ek /\
    rows =
      (fun i =>
         {| group_key :=
              ((fun col => canon (nth i col NaN)) <$> keycols)
              ++ [year_cell (nth i ts None)];
            event_key := nth i ek NaN;
            sso_volume_gal := nth i (to_numeric_column vol) NaN;
            sso_start_dt := nth i ts None;
            sso_end_dt := nth i te None |})
      <$> seq 0 (nrows m).
Proof.
  unfold summary_rows. intros Hrows.
  apply bind_Ok_inv in Hrows as (start & Hstart & Hrows).
  apply bind_Ok_inv in Hrows as (ts & Hts & Hrows).
  apply bind_Ok_inv in Hrows as (end_ & Hend & Hrows).
  apply bind_Ok_inv in Hrows as (te & Hte & Hrows).
  apply bind_Ok_inv in Hrows as (vol & Hvol & Hrows).
  apply bind_Ok_inv in Hrows as (keycols & Hkeys & Hrows).
  apply bind_Ok_inv in Hrows as (ek & Hek & [= <-]).
  apply getitem_Ok in Hstart, Hend, Hvol, Hek.
  exists start, ts, end_, te, vol, keycols, ek.
  repeat (split; [assumption|]).
  apply list_fmap_ext. intros _ i _. f_equal.
  rewrite fmap_app. f_equal. rewrite list_fmap_singleton. f_equal.
  change NaN with (year_cell None) at 1.
  rewrite nth_fmap_default. apply canon_year_cell.
Qed.

Lemma length_summary_rows m rows :
  summary_rows m = Ok rows -> length rows = nrows m.
Proof.
  intros Hrows.
  apply summary_rows_inv in Hrows
    as (? & ? & ? & ? & ? & ? & ? & _ & _ & _ & _ & _ & _ & _ & ->).
  rewrite length_fmap. apply length_seq.
Qed.

Lemma nth_lookup_lt {A : Type} (l : list A) i d :
  i < length l -> l !! i = Some (nth i l d).
Proof.
  intros Hi. destruct (lookup_lt_is_Some_2 l i Hi) as [x Hx].
  rewrite (nth_lookup_Some _ _ d _ Hx). exact Hx.
Qed.

(** Every row the aggregation reads is made of the cells of its row of
    the merged table. *)
Lemma summary_rows_reads m rows :
  well_formed m -> summary_rows m = Ok rows -> summary_input m rows.
Proof.
  intros Hm Hrows. pose proof (length_summary_rows m rows Hrows) as Hlen.
  apply summary_rows_inv in Hrows
    as (start & ts & end_ & te & vol & keycols & ek
        & Hstart & Hts & Hend & Hte & Hvol & Hkeys & Hek & ->).
  exists start, end_, vol, ts, te. repeat (split; [assumption|]).
  intros i r Hr. rewrite list_lookup_fmap in Hr.
  destruct (seq 0 (nrows m) !! i) as [i'|] eqn:Hi; [|discriminate].
  apply lookup_seq in Hi as [-> Hi]. cbn [fmap option_fmap option_map] in Hr.
  injection Hr as <-. cbn [Nat.add].
  pose proof (length_getitems _ _ _ Hkeys) as Hklen.
  cbn [summary_group_cols length] in Hklen.
  constructor;
    cbn [group_key event_key sso_volume_gal sso_start_dt sso_end_dt].
  - intros n c Hc.
    destruct (getitems_lookup m _ keycols n c Hkeys Hc) as (col & Hcol & Hget).
    pose proof (well_formed_get m c col Hm Hget) as Hcl.
    exists (nth i col NaN). split.
    + unfold cell_at. rewrite Hget. cbn [mbind option_bind].
      apply nth_lookup_lt. lia.
    + rewrite lookup_app_l
        by (rewrite length_fmap; eapply lookup_lt_Some, Hcol).
      rewrite list_lookup_fmap, Hcol. reflexivity.
  - rewrite lookup_app_r by (rewrite length_fmap; lia).
    rewrite length_fmap, Hklen. reflexivity.
  - rewrite length_app, length_fmap, Hklen. reflexivity.
  - apply nth_lookup_lt. rewrite (to_datetime_length _ _ Hts).
    rewrite (well_formed_get m _ start Hm Hstart). exact Hi.
  - apply nth_lookup_lt. rewrite (to_datetime_length _ _ Hte).
    rewrite (well_formed_get m _ end_ Hm Hend). exact Hi.
  - unfold cell_at. rewrite Hek. cbn [mbind option_bind].
    apply nth_lookup_lt. rewrite (well_formed_get m _ ek Hm Hek). exact Hi.
  - apply nth_lookup_lt. rewrite length_to_numeric_column.
    rewrite (well_formed_get m _ vol Hm Hvol). exact Hi.
Qed.

(** The start of a row without a start cell is not parsed. *)
Lemma null_start_is_no_timestamp m rows i r :
  summary_input m rows -> rows !! i = Some r ->
  cell_at m "sewer_overflow_bypass_start_datetime" i = Some NaN ->
  sso_start_dt r = None.
Proof.
  intros (start & end_ & vol & ts & te & Hstart & Hts & _ & _ & _ & _ & Hread)
         Hr Hc.
  unfold cell_at in Hc. rewrite Hstart in Hc. cbn [mbind option_bind] in Hc.
  pose proof (to_datetime_null start ts i Hts Hc) as Hnone.
  rewrite (reads_start _ _ _ _ _ _ (Hread i r Hr)) in Hnone. congruence.
Qed.

(** Rows whose grouping cells agree have the same key. *)
Lemma equal_cells_equal_key m rows i j r1 r2 :
  summary_input m rows -> rows !! i = Some r1 -> rows !! j = Some r2 ->
  (forall c, c ∈ summary_group_cols ->
     canon <$> cell_at m c i = canon <$> cell_at m c j) ->
  year_cell (sso_start_dt r1) = year_cell (sso_start_dt r2) ->
  group_key r1 = group_key r2.
Proof.
  intros (start & end_ & vol & ts & te & _ & _ & _ & _ & _ & _ & Hread)
         Hr1 Hr2 Hcells Hyear.
  pose proof (Hread i r1 Hr1) as H1. pose proof (Hread j r2 Hr2) as H2.
  apply (list_eq_same_length _ _ 6);
    [apply (reads_length _ _ _ _ _ _ H2)|apply (reads_length _ _ _ _ _ _ H1)|].
  intros n x y Hn Hx Hy.
  destruct (decide (n = 5)) as [->|Hn5].
  - rewrite (reads_year _ _ _ _ _ _ H1) in Hx.
    rewrite (reads_year _ _ _ _ _ _ H2) in Hy. congruence.
  - destruct (lookup_lt_is_Some_2 summary_group_cols n) as [c Hc];
      [cbn [summary_group_cols length]; lia|].
    destruct (reads_key _ _ _ _ _ _ H1 n c Hc) as (x1 & Hx1 & Hk1).
    destruct (reads_key _ _ _ _ _ _ H2 n c Hc) as (x2 & Hx2 & Hk2).
    specialize (Hcells c (list_elem_of_lookup_2 _ _ _ Hc)).
    rewrite Hx1, Hx2 in Hcells. cbn [fmap option_fmap option_map] in Hcells.
    congruence.
Qed.

End SummaryFacts.

(** ** The summary *)

Section Summary.
Context `{PandasText}.
Import FrameFacts GroupFacts.

Lemma summarize_inv m s :
  summarize m = Ok s ->
  exists rows, summary_rows m = Ok rows /\ s = groupby_agg rows.
Proof.
  unfold summarize. intros Hs.
  apply bind_Ok_inv in Hs as (rows & Hrows & [= <-]). eauto.
Qed.

Lemma pipeline_summary P E out st :
  merge_sso_with_collection_system P E = Ok (out, st) ->
  exists rows,
    summary_rows (sso_events_with_collection_system out) = Ok rows /\
    summary_input (sso_events_with_collection_system out) rows /\
    sso_summary_by_permit_year out = groupby_agg rows.
Proof.
  intros Hrun. apply pipeline_inv in Hrun as (_ & _ & Hsum & Hout).
  apply summarize_inv in Hsum as (rows & Hrows & Hs).
  exists rows. rewrite Hout. cbn [sso_events_with_collection_system].
  split; [exact Hrows|]. split; [|exact Hs].
  apply summary_rows_reads; [apply well_formed_merged|exact Hrows].
Qed.

Lemma sum_group_sizes rows :
  sum_list_with (fun g => length (group_of (key g) rows)) (groupby_agg rows)
  = length rows.
Proof.
  rewrite <- (group_sizes (group_keys rows) rows (NoDup_group_keys rows)).
  - unfold groupby_agg. induction (group_keys rows) as [|k ks IH];
      [reflexivity|].
    rewrite fmap_cons. cbn [sum_list_with key aggregate]. rewrite IH.
    reflexivity.
  - intros r Hr. apply elem_of_group_keys. eauto.
Qed.

(** C6.  Every row of the merged table is one row of the summary input,
    made of its own cells, whatever is null in it, and belongs to exactly
    one summary group, the one of its six grouping values: the keys of the
    summary rows are pairwise different, every row finds its key among
    them, no group is empty, and the group sizes add up to the number of
    merged rows.  The sixth grouping value is the year of the parsed
    start, null when there is no parsed start, as when the start cell is
    missing; such a row has its group like any other.  Two rows whose six
    grouping values agree, nulls compared as equal, are in the same
    group. *)
Theorem every_row_in_one_group (P E : frame) (out : outputs)
    (st : frame * frame) :
  merge_sso_with_collection_system P E = Ok (out, st) ->
  let m := sso_events_with_collection_system out in
  let summary := sso_summary_by_permit_year out in
  exists rows,
    summary_rows m = Ok rows /\
    summary_input m rows /\
    NoDup (key <$> summary) /\
    (forall r, r ∈ rows ->
       exists g, g ∈ summary /\ key g = group_key r /\
         forall g', g' ∈ summary -> key g' = group_key r -> g' = g) /\
    (forall g, g ∈ summary -> exists r, r ∈ rows /\ group_key r = key g) /\
    sum_list_with (fun g => length (group_of (key g) rows)) summary
    = nrows m /\
    (forall i r, rows !! i = Some r ->
       (sso_start_dt r = None -> group_key r !! 5 = Some NaN) /\
       (cell_at m "sewer_overflow_bypass_start_datetime" i = Some NaN ->
        sso_start_dt r = None)) /\
    (forall i j r1 r2,
       rows !! i = Some r1 -> rows !! j = Some r2 ->
       (forall c, c ∈ summary_group_cols ->
          canon <$> cell_at m c i = canon <$> cell_at m c j) ->
       year_cell (sso_start_dt r1) = year_cell (sso_start_dt r2) ->
       exists g, g ∈ summary /\
         r1 ∈ group_of (key g) rows /\ r2 ∈ group_of (key g) rows).
Proof.
  intros Hrun m summary.
  destruct (pipeline_summary P E out st Hrun) as (rows & Hrows & Hin & Hsum).
  fold m in Hrows, Hin. fold summary in Hsum. exists rows.
  split; [exact Hrows|]. split; [exact Hin|].
  assert (Hgroup : forall r, r ∈ rows ->
            aggregate (group_key r) (group_of (group_key r) rows)
              ∈ groupby_agg rows).
  { intros r Hr. apply elem_of_groupby_agg. cbn [key aggregate].
    split; [|reflexivity]. apply elem_of_group_keys. eauto. }
  rewrite Hsum. split; [rewrite keys_groupby_agg; apply NoDup_group_keys|].
  split.
  { intros r Hr. exists (aggregate (group_key r) (group_of (group_key r) rows)).
    split; [apply Hgroup, Hr|]. split; [reflexivity|].
    intros g' Hg' Hk. eapply groupby_agg_key_inj; [exact Hg'| |exact Hk].
    apply Hgroup, Hr. }
  split.
  { intros g Hg. apply elem_of_groupby_agg in Hg as [Hk _].
    apply elem_of_group_keys in Hk. exact Hk. }
  split; [rewrite sum_group_sizes; apply (length_summary_rows m), Hrows|].
  split.
  { intros i r Hr. split.
    - intros Hnone.
      destruct Hin as (? & ? & ? & ts & te & _ & _ & _ & _ & _ & _ & Hread).
      rewrite (reads_year _ _ _ _ _ _ (Hread i r Hr)), Hnone. reflexivity.
    - apply (null_start_is_no_timestamp m rows i r Hin Hr). }
  intros i j r1 r2 Hr1 Hr2 Hcells Hyear.
  pose proof (equal_cells_equal_key m rows i j r1 r2 Hin Hr1 Hr2 Hcells Hyear)
    as Hk.
  exists (aggregate (group_key r1) (group_of (group_key r1) rows)).
  split; [apply Hgroup; eapply list_elem_of_lookup_2, Hr1|].
  cbn [key aggregate]. split; apply elem_of_group_of.
  - split; [reflexivity|eapply list_elem_of_lookup_2, Hr1].
  - split; [symmetry; exact Hk|eapply list_elem_of_lookup_2, Hr2].
Qed.

End Summary.

(** On the example the two events without a parsable start are one
    group, the event of 2021 another. *)
Lemma every_row_in_one_group_witness :
  exists out st rows,
    merge_sso_with_collection_system (H := plain_text)
      Examples.permit_one Examples.events_with_nulls = Ok (out, st) /\
    summary_rows (H := plain_text) (sso_events_with_collection_system out)
    = Ok rows /\
    length rows = 3 /\
    length (sso_summary_by_permit_year out) = 2 /\
    NoDup (key <$> sso_summary_by_permit_year out).
Proof.
  destruct (merge_sso_with_collection_system (H := plain_text)
              Examples.permit_one Examples.events_with_nulls)
    as [[out st]|e] eqn:Hrun; [|vm_compute in Hrun; discriminate].
  destruct (every_row_in_one_group (H := plain_text) _ _ out st Hrun)
    as (rows & Hrows & Hin & Hnd & _).
  exists out, st, rows. split; [reflexivity|]. split; [exact Hrows|].
  destruct Hin as (? & ? & ? & ? & ? & _ & _ & _ & _ & _ & Hlen & _).
  vm_compute in Hrun. injection Hrun as <- _.
  split; [rewrite Hlen; reflexivity|]. split; [reflexivity|exact Hnd].
Defined.

(** ** The aggregates *)

Module AggregateFacts.
Section Sums.
Context `{PandasText}.

(** [nunique] counts a list without repetition of the values present. *)
Lemma nunique_distinct (l : list cell) :
  exists d : list cell,
    NoDup d /\
    (forall k, k ∈ d <-> exists c, c ∈ l /\ c <> NaN /\ canon c = k) /\
    nunique l = length d.
Proof.
  exists (remove_dups (canon <$> filter (fun c => c <> NaN) l)).
  split; [apply NoDup_remove_dups|]. split; [|reflexivity].
  intros k. rewrite elem_of_remove_dups, list_elem_of_fmap. split.
  - intros (c & -> & Hc). apply list_elem_of_filter in Hc as [Hna Hc]. eauto.
  - intros (c & Hc & Hna & <-). exists c. split; [reflexivity|].
    apply list_elem_of_filter. auto.
Qed.

(** A value met again does not count again. *)
Lemma nunique_repeated (k : cell) (l : list cell) :
  k ∈ l -> nunique (k :: l) = nunique l.
Proof.
  intros Hk. unfold nunique. rewrite filter_cons.
  destruct (decide (k <> NaN)) as [Hna|Hna]; [|reflexivity].
  rewrite fmap_cons. cbn [remove_dups].
  destruct (decide_rel elem_of (canon k)
              (canon <$> filter (fun c => c <> NaN) l)) as [Hin|Hout];
    [reflexivity|].
  exfalso. apply Hout. apply list_elem_of_fmap_2, list_elem_of_filter. auto.
Qed.

(** A converted column is an int64 column or has no integer in it. *)
Lemma to_numeric_column_kind col :
  Forall (fun c => is_int64 c = true) (to_numeric_column col) \/
  Forall (fun c => is_int c = false) (to_numeric_column col).
Proof.
  unfold to_numeric_column.
  destruct (forallb is_int64 (to_numeric_cell <$> col)) eqn:Hall.
  - left. apply Forall_forall. intros c Hc.
    rewrite forallb_forall in Hall. apply Hall, list_elem_of_In, Hc.
  - right. apply Forall_fmap, Forall_forall. intros c _. cbn [compose].
    destruct c; reflexivity.
Qed.

Lemma is_int64_is_int c : is_int64 c = true -> is_int c = true.
Proof. destruct c; cbn; auto; discriminate. Qed.

Lemma forallb_is_int l :
  forallb is_int l = true <-> Forall (fun c => is_int c = true) l.
Proof.
  rewrite forallb_forall, Forall_forall. split; intros Hl c Hc;
    apply Hl; apply list_elem_of_In; exact Hc.
Qed.

Lemma values_of_ints l :
  Forall (fun c => is_int c = true) l -> omap value l = inject_Z <$> ints l.
Proof.
  induction 1 as [|c l Hc _ IH]; [reflexivity|].
  destruct c; try discriminate. unfold ints.
  cbn [omap list_omap value fmap list_fmap]. f_equal. exact IH.
Qed.

Lemma floats_values l :
  Forall (fun c => is_int c = false) l -> floats l = omap value l.
Proof.
  induction 1 as [|c l Hc _ IH]; [reflexivity|]. unfold floats in *.
  destruct c; try discriminate; cbn [omap list_omap as_float value];
    rewrite IH; reflexivity.
Qed.

Lemma exact_sum_inject zs :
  (exact_sum (inject_Z <$> zs) == inject_Z (foldr Z.add 0%Z zs))%Q.
Proof.
  induction zs as [|z zs IH]; [reflexivity|].
  rewrite fmap_cons. cbn [exact_sum foldr]. fold (exact_sum (inject_Z <$> zs)).
  rewrite IH, inject_Z_plus. reflexivity.
Qed.

Lemma sum_abs_inject zs :
  (sum_abs (inject_Z <$> zs)
   == inject_Z (foldr (fun z a => Z.abs z + a)%Z 0%Z zs))%Q.
Proof.
  induction zs as [|z zs IH]; [reflexivity|].
  rewrite fmap_cons. cbn [sum_abs foldr]. fold (sum_abs (inject_Z <$> zs)).
  rewrite IH, inject_Z_plus. reflexivity.
Qed.

Lemma abs_sum_le zs :
  (Z.abs (foldr Z.add 0 zs) <= foldr (fun z a => Z.abs z + a) 0 zs)%Z.
Proof.
  induction zs as [|z zs IH]; [reflexivity|]. cbn [foldr]. lia.
Qed.

(** An int64 total that fits is the sum. *)
Lemma nansum_int l :
  Forall (fun c => is_int c = true) l ->
  nansum l = inject_Z (wrap64 (foldr Z.add 0%Z (ints l))).
Proof.
  intros Hl. unfold nansum. rewrite (proj2 (forallb_is_int l) Hl).
  reflexivity.
Qed.

Lemma nansum_int_exact l :
  Forall (fun c => is_int c = true) l ->
  fits_int64 (foldr Z.add 0%Z (ints l)) = true ->
  (nansum l == Reference.total l)%Q.
Proof.
  intros Hl Hfit. rewrite (nansum_int l Hl), (wrap64_fits _ Hfit).
  unfold Reference.total. rewrite (values_of_ints l Hl).
  symmetry. apply exact_sum_inject.
Qed.

(** A float64 total is the float sum of the values present. *)
Lemma nansum_float l :
  Forall (fun c => is_int c = false) l ->
  (nansum l == float_sum (omap value l))%Q.
Proof.
  intros Hl. unfold nansum. rewrite (floats_values l Hl).
  destruct (forallb is_int l) eqn:Hall; [|reflexivity].
  apply forallb_is_int in Hall. destruct l as [|c l].
  - cbn. rewrite float_sum_exact; [reflexivity|constructor|].
    cbn. discriminate.
  - apply Forall_cons in Hall as [Hc _]. apply Forall_cons in Hl as [Hc' _].
    congruence.
Qed.

(** Where the sum is exactly representable the total is the sum. *)
Lemma nansum_exact l :
  Forall (fun c => is_int c = true) l \/
  Forall (fun c => is_int c = false) l ->
  Forall whole (omap value l) ->
  (sum_abs (omap value l) <= inject_Z (2 ^ 53))%Q ->
  (nansum l == Reference.total l)%Q.
Proof.
  intros [Hl|Hl] Hwhole Hbound.
  - apply (nansum_int_exact l Hl).
    rewrite (values_of_ints l Hl), sum_abs_inject in Hbound.
    rewrite <- Zle_Qle in Hbound. pose proof (abs_sum_le (ints l)) as Habs.
    unfold fits_int64. apply andb_true_iff.
    split; [apply Z.leb_le|apply Z.ltb_lt]; lia.
  - rewrite (nansum_float l Hl). apply float_sum_exact; assumption.
Qed.

Lemma omap_value_filter (l : list cell) :
  omap value (filter (fun c => c <> NaN) l) = omap value l.
Proof.
  induction l as [|c l IH]; [reflexivity|]. rewrite filter_cons.
  destruct (decide (c <> NaN)) as [Hc|Hc].
  - cbn [omap list_omap]. rewrite IH. reflexivity.
  - apply dec_stable in Hc. subst c. cbn [omap list_omap value]. exact IH.
Qed.

(** Nulls among the volumes add nothing to the total. *)
Lemma nansum_skips_nulls (l : list cell) :
  Forall (fun c => is_int c = true) l \/
  Forall (fun c => is_int c = false) l ->
  (nansum l == nansum (filter (fun c => c <> NaN) l))%Q.
Proof.
  intros [Hl|Hl].
  - assert (Hsame : filter (fun c => c <> NaN) l = l).
    { clear -Hl. induction Hl as [|c l Hc _ IH]; [reflexivity|].
      rewrite filter_cons. destruct (decide (c <> NaN)) as [_|Hna].
      - f_equal. exact IH.
      - apply dec_stable in Hna. subst c. discriminate. }
    rewrite Hsame. reflexivity.
  - assert (Hl' : Forall (fun c => is_int c = false)
                    (filter (fun c => c <> NaN) l)).
    { apply Forall_forall. intros c Hc.
      apply list_elem_of_filter in Hc as [_ Hc].
      rewrite Forall_forall in Hl. apply Hl, Hc. }
    rewrite (nansum_float l Hl), (nansum_float _ Hl'), omap_value_filter.
    reflexivity.
Qed.

End Sums.
End AggregateFacts.

Section Aggregates.
Context `{PandasText}.
Import FrameFacts GroupFacts AggregateFacts.

(** The volumes of a group are cells of the converted volume column. *)
Lemma group_volumes_kind m rows k :
  summary_input m rows ->
  Forall (fun c => is_int c = true) (sso_volume_gal <$> group_of k rows) \/
  Forall (fun c => is_int c = false) (sso_volume_gal <$> group_of k rows).
Proof.
  intros (start & end_ & vol & ts & te & _ & _ & _ & _ & _ & _ & Hread).
  assert (Hin : forall r, r ∈ group_of k rows ->
                  sso_volume_gal r ∈ to_numeric_column vol).
  { intros r Hr. apply elem_of_group_of in Hr as [_ Hr].
    apply list_elem_of_lookup in Hr as [i Hi].
    eapply list_elem_of_lookup_2, (reads_volume _ _ _ _ _ _ (Hread i r Hi)). }
  destruct (to_numeric_column_kind vol) as [Hcol|Hcol]; [left|right];
    apply Forall_fmap, Forall_forall; intros r Hr; cbn [compose];
    rewrite Forall_forall in Hcol.
  - apply is_int64_is_int, Hcol, Hin, Hr.
  - apply Hcol, Hin, Hr.
Qed.

(** C7.  For every summary group, [sso_event_count] is the number of
    distinct values, the null left out, among the event-key cells of the
    merged rows of the group: the count is the length of a list without
    repetition of exactly the keys that occur, and a key that occurs in
    further rows adds nothing to the count. *)
Theorem event_count_is_distinct (P E : frame) (out : outputs)
    (st : frame * frame) :
  merge_sso_with_collection_system P E = Ok (out, st) ->
  let m := sso_events_with_collection_system out in
  exists rows,
    summary_rows m = Ok rows /\
    summary_input m rows /\
    (forall g, g ∈ sso_summary_by_permit_year out ->
       sso_event_count g = nunique (event_key <$> group_of (key g) rows) /\
       exists d : list cell,
         NoDup d /\
         (forall k, k ∈ d <->
            exists i r x,
              rows !! i = Some r /\ group_key r = key g /\
              cell_at m "sewer_overflow_bypass_event_key" i = Some x /\
              x <> NaN /\ canon x = k) /\
         sso_event_count g = length d) /\
    (forall (k : cell) (l : list cell),
       k ∈ l -> nunique (k :: l) = nunique l).
Proof.
  intros Hrun m.
  destruct (pipeline_summary P E out st Hrun) as (rows & Hrows & Hin & Hsum).
  fold m in Hrows, Hin. exists rows. split; [exact Hrows|].
  split; [exact Hin|]. split; [|apply nunique_repeated].
  intros g Hg. rewrite Hsum in Hg. apply elem_of_groupby_agg in Hg as [_ Hg].
  assert (Hcount : sso_event_count g
                   = nunique (event_key <$> group_of (key g) rows))
    by (rewrite Hg at 1; reflexivity).
  split; [exact Hcount|].
  destruct (nunique_distinct (event_key <$> group_of (key g) rows))
    as (d & Hnd & Hd & Hlen).
  exists d. split; [exact Hnd|]. split; [|congruence].
  destruct Hin
    as (start & end_ & vol & ts & te & _ & _ & _ & _ & _ & _ & Hread).
  intros k. rewrite Hd. split.
  - intros (c & Hc & Hna & Hk). apply list_elem_of_fmap in Hc as (r & -> & Hr).
    apply elem_of_group_of in Hr as [Hkey Hr].
    apply list_elem_of_lookup in Hr as [i Hi]. exists i, r, (event_key r).
    split; [exact Hi|]. split; [exact Hkey|].
    split; [apply (reads_event_key _ _ _ _ _ _ (Hread i r Hi))|]. auto.
  - intros (i & r & x & Hi & Hkey & Hx & Hna & Hk).
    rewrite (reads_event_key _ _ _ _ _ _ (Hread i r Hi)) in Hx.
    injection Hx as <-. exists (event_key r). split; [|auto].
    apply list_elem_of_fmap_2, elem_of_group_of.
    split; [exact Hkey|]. eapply list_elem_of_lookup_2, Hi.
Qed.

(** C8 (as amended).  For every summary group, [sso_total_volume_gal] is
    the machine sum of the volumes of the group that parsed, a null volume
    adding nothing: in an int64 volume column the int64 sum, which wraps
    around, in a float64 column the float sum of the values present.  It
    is the sum itself wherever that is exactly representable: in an int64
    group whose sum fits int64, and in any group of whole numbers whose
    absolute values add up to at most 2^53.  The volumes 1000, null, 2000
    sum to 3000. *)
Theorem total_volume_skips_nulls (P E : frame) (out : outputs)
    (st : frame * frame) :
  merge_sso_with_collection_system P E = Ok (out, st) ->
  let m := sso_events_with_collection_system out in
  int64_column m "sewer_overflow_bypass_discharge_volume_gallons" = true ->
  exists rows,
    summary_rows m = Ok rows /\
    summary_input m rows /\
    (forall g, g ∈ sso_summary_by_permit_year out ->
       let vols := sso_volume_gal <$> group_of (key g) rows in
       (sso_total_volume_gal g
        == nansum (filter (fun c => c <> NaN) vols))%Q /\
       (Forall (fun c => is_int c = true) vols ->
          sso_total_volume_gal g
          = inject_Z (wrap64 (foldr Z.add 0%Z (ints vols))) /\
          (fits_int64 (foldr Z.add 0%Z (ints vols)) = true ->
           (sso_total_volume_gal g == Reference.total vols)%Q)) /\
       (Forall (fun c => is_int c = false) vols ->
          (sso_total_volume_gal g == float_sum (omap value vols))%Q) /\
       (Forall whole (omap value vols) ->
          (sum_abs (omap value vols) <= inject_Z (2 ^ 53))%Q ->
          (sso_total_volume_gal g == Reference.total vols)%Q)) /\
    (nansum [Num 1000; NaN; Num 2000] == 3000)%Q.
Proof.
  intros Hrun m _.
  destruct (pipeline_summary P E out st Hrun) as (rows & Hrows & Hin & Hsum).
  fold m in Hrows, Hin. exists rows. split; [exact Hrows|].
  split; [exact Hin|]. split.
  - intros g Hg vols. rewrite Hsum in Hg.
    apply elem_of_groupby_agg in Hg as [_ Hg].
    assert (Htotal : sso_total_volume_gal g = nansum vols)
      by (rewrite Hg at 1; reflexivity).
    pose proof (group_volumes_kind m rows (key g) Hin) as Hkind.
    fold vols in Hkind. rewrite Htotal.
    split; [apply nansum_skips_nulls, Hkind|].
    split; [|split].
    + intros Hint. split; [apply nansum_int, Hint|].
      apply nansum_int_exact, Hint.
    + apply nansum_float.
    + apply nansum_exact, Hkind.
  - rewrite nansum_exact.
    + reflexivity.
    + right. repeat constructor.
    + cbn [omap list_omap value]. repeat constructor.
      * exists 1000%Z. reflexivity.
      * exists 2000%Z. reflexivity.
    + cbn. discriminate.
Qed.

End Aggregates.

(** On the example the group of the two events without a parsable start
    has one distinct event key and the one volume that parsed. *)
Lemma event_count_is_distinct_witness :
  exists out st rows,
    merge_sso_with_collection_system (H := plain_text)
      Examples.permit_one Examples.events_with_nulls = Ok (out, st) /\
    summary_rows (H := plain_text) (sso_events_with_collection_system out)
    = Ok rows /\
    (sso_event_count <$> sso_summary_by_permit_year out) = [1; 1].
Proof.
  destruct (merge_sso_with_collection_system (H := plain_text)
              Examples.permit_one Examples.events_with_nulls)
    as [[out st]|e] eqn:Hrun; [|vm_compute in Hrun; discriminate].
  destruct (event_count_is_distinct (H := plain_text) _ _ out st Hrun)
    as (rows & Hrows & _).
  exists out, st, rows. split; [reflexivity|]. split; [exact Hrows|].
  vm_compute in Hrun. injection Hrun as <- _. reflexivity.
Defined.

Lemma total_volume_skips_nulls_witness :
  exists out st rows,
    merge_sso_with_collection_system (H := plain_text)
      Examples.permit_one Examples.events_with_nulls = Ok (out, st) /\
    int64_column (H := plain_text) (sso_events_with_collection_system out)
      "sewer_overflow_bypass_discharge_volume_gallons" = true /\
    summary_rows (H := plain_text) (sso_events_with_collection_system out)
    = Ok rows /\
    (sso_total_volume_gal <$> sso_summary_by_permit_year out)
    = [1000%Q; 2000%Q].
Proof.
  destruct (merge_sso_with_collection_system (H := plain_text)
              Examples.permit_one Examples.events_with_nulls)
    as [[out st]|e] eqn:Hrun; [|vm_compute in Hrun; discriminate].
  assert (Hcol : int64_column (H := plain_text)
                   (sso_events_with_collection_system out)
                   "sewer_overflow_bypass_discharge_volume_gallons" = true)
    by (vm_compute in Hrun; injection Hrun as <- _; reflexivity).
  destruct (total_volume_skips_nulls (H := plain_text) _ _ out st Hrun Hcol)
    as (rows & Hrows & _).
  exists out, st, rows. split; [reflexivity|]. split; [exact Hcol|].
  split; [exact Hrows|].
  vm_compute in Hrun. injection Hrun as <- _. reflexivity.
Defined.

(** C8, as stated, fails where the sum is not representable: the volumes
    9223372036854775807 and 1 of this group are int64, and their total
    comes out as -9223372036854775808. *)
Lemma int64_total_wraps_around :
  exists out st,
    merge_sso_with_collection_system (H := plain_text)
      Examples.permit_one Examples.events_big_volumes = Ok (out, st) /\
    get (sso_events_with_collection_system out)
      "sewer_overflow_bypass_discharge_volume_gallons"
    = Some [Int 9223372036854775807; Int 1] /\
    (sso_total_volume_gal <$> sso_summary_by_permit_year out)
    = [inject_Z (-9223372036854775808)] /\
    Reference.total [Int 9223372036854775807; Int 1]
    = inject_Z 9223372036854775808 /\
    ~ (inject_Z (-9223372036854775808) == inject_Z 9223372036854775808)%Q.
Proof.
  vm_compute merge_sso_with_collection_system.
  eexists _, _. split; [reflexivity|]. repeat split. discriminate.
Qed.

(** ** What decides whether the call raises *)

Section Outcome.
Context `{PandasText}.
Import FrameFacts.

Lemma is_ok_getitem f c : is_ok (getitem f c) = bool_decide (c ∈ labels f).
Proof.
  destruct (decide (c ∈ labels f)) as [Hc|Hc].
  - rewrite (bool_decide_eq_true_2 _ Hc).
    destruct (getitem_elem f c Hc) as [v ->]. reflexivity.
  - rewrite (bool_decide_eq_false_2 _ Hc), (getitem_Err f c Hc). reflexivity.
Qed.

Lemma is_ok_bind {A B : Type} (r : result A) (k : A -> result B) (b : bool) :
  (forall a, r = Ok a -> is_ok (k a) = b) ->
  is_ok (bind r k) = is_ok r && b.
Proof.
  intros Hk. destruct r as [a|e]; cbn [bind is_ok andb]; [|reflexivity].
  apply Hk. reflexivity.
Qed.

Lemma is_ok_getitems f cs :
  is_ok (getitems f cs) = forallb (fun c => bool_decide (c ∈ labels f)) cs.
Proof.
  induction cs as [|c cs IH]; [reflexivity|]. cbn [getitems forallb].
  rewrite <- is_ok_getitem, <- IH. apply is_ok_bind. intros col _.
  destruct (getitems f cs); reflexivity.
Qed.

(** The summary raises exactly when one of the nine columns it reads is
    not in the merged table or one of the two datetime columns is not
    read. *)
Lemma is_ok_summary_rows m :
  is_ok (summary_rows m)
  = forallb (fun c => bool_decide (c ∈ labels m)) summary_inputs
    && datetime_ok m "sewer_overflow_bypass_start_datetime"
    && datetime_ok m "sewer_overflow_bypass_end_datetime".
Proof.
  change summary_inputs
    with (["sewer_overflow_bypass_start_datetime";
           "sewer_overflow_bypass_end_datetime";
           "sewer_overflow_bypass_discharge_volume_gallons"]
          ++ summary_group_cols ++ ["sewer_overflow_bypass_event_key"])%list.
  cbn [app forallb]. rewrite forallb_app. cbn [forallb].
  rewrite andb_true_r, <- !is_ok_getitem, <- is_ok_getitems.
  unfold summary_rows, datetime_ok, getitem.
  destruct (get m "sewer_overflow_bypass_start_datetime") as [start|];
    cbn [bind is_ok andb]; [|reflexivity].
  destruct (get m "sewer_overflow_bypass_end_datetime") as [end_|];
    cbn [bind is_ok andb];
    [|destruct (to_datetime start); reflexivity].
  destruct (get m "sewer_overflow_bypass_discharge_volume_gallons")
    as [vol|]; cbn [bind is_ok andb];
    [|destruct (to_datetime start), (to_datetime end_); reflexivity].
  destruct (getitems m summary_group_cols) as [keycols|];
    cbn [bind is_ok andb];
    [|destruct (to_datetime start), (to_datetime end_); reflexivity].
  destruct (get m "sewer_overflow_bypass_event_key") as [ek|];
    cbn [bind is_ok andb];
    destruct (to_datetime start), (to_datetime end_); reflexivity.
Qed.

Lemma labels_setitem_congr f g c a b :
  labels f = labels g -> labels (setitem f c a) = labels (setitem g c b).
Proof. intros Hfg. rewrite !labels_setitem, Hfg. reflexivity. Qed.

Lemma labels_keyed_congr f g :
  labels f = labels g -> labels (keyed f) = labels (keyed g).
Proof.
  intros Hfg. unfold keyed. repeat apply labels_setitem_congr. exact Hfg.
Qed.

Lemma labels_cleaned_congr f g :
  labels f = labels g -> labels (cleaned f) = labels (cleaned g).
Proof.
  intros Hfg. unfold cleaned. repeat apply labels_setitem_congr. exact Hfg.
Qed.

Lemma labels_drop_ignore_congr names f g :
  labels f = labels g ->
  labels (drop_ignore names f) = labels (drop_ignore names g).
Proof. intros Hfg. rewrite !labels_drop_ignore, Hfg. reflexivity. Qed.

Lemma labels_clash_congr P E P2 E2 :
  labels P = labels P2 -> labels E = labels E2 ->
  labels_clash P E = labels_clash P2 E2.
Proof.
  intros HP HE. unfold labels_clash.
  rewrite (labels_cleaned_congr _ _ (labels_keyed_congr E E2 HE)).
  rewrite (labels_drop_ignore_congr helper_columns _ _
             (labels_keyed_congr P P2 HP)).
  reflexivity.
Qed.

Lemma labels_joined (L R : frame) (names : list string) (sfx : string) n
    (g h : list cell -> list cell) :
  labels (drop_ignore names
            (Frame n (fmap (fun p => (p.1, g p.2)) (cols L)
                      ++ zip (suffixed (labels L) sfx (labels R))
                             (fmap (fun p => h p.2) (cols R)))))
  = filter (fun l => l ∉ names)
      (labels L ++ suffixed (labels L) sfx (labels R))%list.
Proof.
  rewrite labels_drop_ignore. apply (f_equal (filter _)).
  unfold labels at 1. cbn [cols]. rewrite fmap_app, fst_relabel.
  apply (f_equal (app _)).
  apply fst_zip. unfold suffixed, labels. rewrite !length_fmap. lia.
Qed.

Lemma labels_merged P E :
  labels (merged P E)
  = filter (fun l => l ∉ helper_columns)
      (labels (cleaned (keyed E))
       ++ suffixed (labels (cleaned (keyed E))) "_coll"
            (labels (drop_ignore helper_columns (keyed P))))%list.
Proof. unfold merged. apply labels_joined. Qed.

Lemma labels_merged_congr P E P2 E2 :
  labels P = labels P2 -> labels E = labels E2 ->
  labels (merged P E) = labels (merged P2 E2).
Proof.
  intros HP HE. rewrite !labels_merged.
  rewrite (labels_cleaned_congr _ _ (labels_keyed_congr E E2 HE)).
  rewrite (labels_drop_ignore_congr helper_columns _ _
             (labels_keyed_congr P P2 HP)).
  reflexivity.
Qed.

Lemma is_ok_reconcile P E :
  is_ok (reconcile P E)
  = bool_decide ("permit_identifier" ∈ labels P /\
                 "permit_identifier" ∈ labels E /\
                 "collection_system_identifier" ∈ labels P /\
                 "collection_system_identifier" ∈ labels E)
    && negb (labels_clash P E).
Proof.
  destruct (decide ("permit_identifier" ∈ labels P /\
                    "permit_identifier" ∈ labels E /\
                    "collection_system_identifier" ∈ labels P /\
                    "collection_system_identifier" ∈ labels E))
    as [Hall|Hmiss].
  - rewrite (bool_decide_eq_true_2 _ Hall).
    destruct Hall as (HpP & HpE & HcP & HcE).
    destruct (labels_clash P E) eqn:Hclash.
    + rewrite (reconcile_Err_clash P E HpP HpE HcP HcE Hclash). reflexivity.
    + rewrite (reconcile_Ok P E HpP HpE HcP HcE Hclash). reflexivity.
  - rewrite (bool_decide_eq_false_2 _ Hmiss).
    destruct (reconcile_Err_keys P E Hmiss) as (c & _ & ->). reflexivity.
Qed.

Lemma is_ok_pipeline P E :
  is_ok (merge_sso_with_collection_system P E)
  = is_ok (reconcile P E) && is_ok (summary_rows (merged P E)).
Proof.
  rewrite pipeline_unfold.
  destruct (reconcile P E) as [r|e] eqn:Hr; cbn [bind is_ok andb];
    [|reflexivity].
  destruct (reconcile_inv P E r Hr) as (_ & _ & ->). cbn [fst].
  unfold summarize. destruct (summary_rows (merged P E)); reflexivity.
Qed.

(** Whether the call returns or raises is decided by the labels of the
    two tables and by the reading of the two datetime columns of the
    merged table. *)
Lemma outcome P E :
  is_ok (merge_sso_with_collection_system P E)
  = bool_decide ("permit_identifier" ∈ labels P /\
                 "permit_identifier" ∈ labels E /\
                 "collection_system_identifier" ∈ labels P /\
                 "collection_system_identifier" ∈ labels E)
    && negb (labels_clash P E)
    && (forallb (fun c => bool_decide (c ∈ labels (merged P E)))
          summary_inputs
        && datetime_ok (merged P E) "sewer_overflow_bypass_start_datetime"
        && datetime_ok (merged P E) "sewer_overflow_bypass_end_datetime").
Proof.
  rewrite is_ok_pipeline, is_ok_reconcile, is_ok_summary_rows. reflexivity.
Qed.

End Outcome.

(** ** Parsing *)

Section Parsing.
Context `{PandasText}.
Import FrameFacts.

Lemma numeric_to_numeric_cell c : numeric (to_numeric_cell c).
Proof.
  destruct c as [|z|q|s]; cbn [to_numeric_cell numeric]; try exact I.
  destruct (parse_int s); [exact I|]. destruct (parse_float s); exact I.
Qed.

(** A converted column has a number or a null for every cell, a null
    exactly where the cell does not read as a number. *)
Lemma to_numeric_column_lookup col i c :
  col !! i = Some c ->
  exists c', to_numeric_column col !! i = Some c' /\ numeric c' /\
             (c' = NaN <-> to_numeric_cell c = NaN).
Proof.
  intros Hc. pose proof (numeric_to_numeric_cell c) as Hnum.
  unfold to_numeric_column.
  destruct (forallb is_int64 (to_numeric_cell <$> col)).
  - exists (to_numeric_cell c). rewrite list_lookup_fmap, Hc.
    split; [reflexivity|]. split; [exact Hnum|reflexivity].
  - exists (as_float (to_numeric_cell c)).
    rewrite !list_lookup_fmap, Hc. split; [reflexivity|].
    destruct (to_numeric_cell c); cbn [as_float numeric] in *;
      split; try exact I; try contradiction; split; congruence.
Qed.

(** C5 (as amended).  In tables whose integers fit int64: the numeric
    parsing steps map a missing or unparsable cell to null and every
    other cell to a number, and do not raise; the coordinate cleanup
    always returns.  The datetime parsing step, when it returns, has a
    timestamp or a null for every cell and a null for every missing cell,
    but it can raise, on the column as a whole, and then the call raises:
    whether the call returns is decided by the labels of the two tables
    and by the two datetime columns being read, and by no other cell.  No
    step changes a row count: the converted columns span the table, the
    argument tables keep their rows, the summary reads one row for every
    merged row and the merged table has no fewer rows than the events.  A
    null latitude leaves the whole row as it is; a null longitude stays
    null, and the latitude of its row is still negated when it is
    negative. *)
Theorem parsing_never_fatal :
  (forall c, numeric (to_numeric_cell c)) /\
  to_numeric_cell NaN = NaN /\
  (forall s, parse_int s = None -> parse_float s = None ->
     to_numeric_cell (Str s) = NaN) /\
  (forall f c col,
     int64_column f c = true -> get f c = Some col ->
     length (to_numeric_column col) = length col /\
     forall i x, col !! i = Some x ->
       exists x', to_numeric_column col !! i = Some x' /\ numeric x' /\
                  (x' = NaN <-> to_numeric_cell x = NaN)) /\
  (forall col ts,
     to_datetime col = Ok ts ->
     length ts = length col /\
     forall i : nat, col !! i = Some NaN -> ts !! i = Some None) /\
  (forall f,
     int64_column f "latitude_measure" = true ->
     int64_column f "longitude_measure" = true ->
     exists f', coordinate_cleanup f = Ok f' /\ nrows f' = nrows f) /\
  (forall P E,
     int64_column E "latitude_measure" = true ->
     int64_column E "longitude_measure" = true ->
     int64_column (merged P E)
       "sewer_overflow_bypass_discharge_volume_gallons" = true ->
     is_ok (merge_sso_with_collection_system P E)
     = bool_decide ("permit_identifier" ∈ labels P /\
                    "permit_identifier" ∈ labels E /\
                    "collection_system_identifier" ∈ labels P /\
                    "collection_system_identifier" ∈ labels E)
       && negb (labels_clash P E)
       && (forallb (fun c => bool_decide (c ∈ labels (merged P E)))
             summary_inputs
           && datetime_ok (merged P E) "sewer_overflow_bypass_start_datetime"
           && datetime_ok (merged P E) "sewer_overflow_bypass_end_datetime")) /\
  (forall f c, well_formed f -> length (parsed f c) = nrows f) /\
  (forall P E out P' E',
     merge_sso_with_collection_system P E = Ok (out, (P', E')) ->
     nrows P' = nrows P /\ nrows E' = nrows E /\
     nrows E <= nrows (sso_events_with_collection_system out) /\
     exists rows,
       summary_rows (sso_events_with_collection_system out) = Ok rows /\
       length rows = nrows (sso_events_with_collection_system out)) /\
  (forall f f' lat' lon' i la lo,
     int64_column f "latitude_measure" = true ->
     int64_column f "longitude_measure" = true ->
     coordinate_cleanup f = Ok f' ->
     get f' "latitude_measure" = Some lat' ->
     get f' "longitude_measure" = Some lon' ->
     parsed f "latitude_measure" !! i = Some la ->
     parsed f "longitude_measure" !! i = Some lo ->
     (la = NaN -> lat' !! i = Some NaN /\ lon' !! i = Some lo) /\
     (lo = NaN ->
        lon' !! i = Some NaN /\
        lat' !! i = Some (if cell_lt 0 la then cell_neg la else la))).
Proof.
  split; [apply numeric_to_numeric_cell|].
  split; [reflexivity|].
  split.
  { intros s Hi Hf. cbn [to_numeric_cell]. rewrite Hi, Hf. reflexivity. }
  split.
  { intros f c col _ _. split; [apply length_to_numeric_column|].
    intros i x. apply to_numeric_column_lookup. }
  split.
  { intros col ts Hts. split; [apply (to_datetime_length _ _ Hts)|].
    intros i. apply (to_datetime_null _ _ i Hts). }
  split.
  { intros f _ _. exists (cleaned f).
    split; [apply coordinate_cleanup_eq|apply nrows_cleaned]. }
  split; [intros P E _ _ _; apply outcome|].
  split; [apply length_parsed|].
  split.
  { intros P E out P' E' Hrun.
    destruct (pipeline_summary P E out _ Hrun) as (rows & Hrows & _).
    pose proof (length_summary_rows _ rows Hrows) as Hlen.
    apply pipeline_inv in Hrun as (_ & [= -> ->] & _ & Hout).
    assert (Hm : sso_events_with_collection_system out = merged P E)
      by (rewrite Hout; reflexivity).
    rewrite Hm in *.
    split; [apply nrows_keyed|].
    split; [rewrite nrows_cleaned; apply nrows_keyed|].
    split; [|eauto].
    rewrite nrows_merged, <- (length_normalized_keys E).
    apply JoinFacts.length_left_indexer_ge. }
  intros f f' lat' lon' i la lo _ _ Hclean Hlat Hlon Hla Hlo.
  rewrite coordinate_cleanup_eq in Hclean. injection Hclean as <-.
  rewrite get_cleaned_lat in Hlat. rewrite get_cleaned_lon in Hlon.
  injection Hlat as <-. injection Hlon as <-.
  destruct (cleaned_lookup f i la lo Hla Hlo) as [Hlat' Hlon'].
  split.
  - intros ->. rewrite Hlat', Hlon'. split; reflexivity.
  - intros ->. rewrite Hlat', Hlon', row_cleanup_nan_lon. split; reflexivity.
Qed.

End Parsing.

(** The event with every parsed cell unreadable is processed: the call
    returns. *)
Lemma parsing_never_fatal_witness :
  is_ok (merge_sso_with_collection_system (H := plain_text)
           Examples.permits Examples.events_garbled) = true.
Proof.
  rewrite (proj1 (proj2 (proj2 (proj2 (proj2 (proj2 (proj2
             (parsing_never_fatal (H := plain_text))))))))
             Examples.permits Examples.events_garbled
             eq_refl eq_refl eq_refl).
  reflexivity.
Defined.

(** C5, as stated, fails twice.  The datetime step raises on two starts
    that are well-formed timestamps, each read on its own, but with
    different UTC offsets, and the call raises with it.  And a null
    coordinate does take part in a correction: the longitude of this row
    is no number and is read as null, and its latitude -5 comes out as
    5. *)
Lemma parsing_can_be_fatal :
  merge_sso_with_collection_system (H := plain_text)
    Examples.permits Examples.events_mixed_offsets = Err ValueError /\
  @to_datetime plain_text [Str "2020-01-01T00:00:00+01:00"]
  = Ok [Some 20200101000000%Z] /\
  @to_datetime plain_text [Str "2020-06-01T00:00:00+02:00"]
  = Ok [Some 20200601000000%Z] /\
  exists f',
    coordinate_cleanup (H := plain_text) Examples.events_unparsable_longitude
    = Ok f' /\
    parsed (H := plain_text) Examples.events_unparsable_longitude
      "longitude_measure" = [NaN] /\
    parsed (H := plain_text) Examples.events_unparsable_longitude
      "latitude_measure" = [Num (-5)] /\
    get f' "latitude_measure" = Some [Num 5] /\
    get f' "longitude_measure" = Some [NaN].
Proof.
  split; [reflexivity|]. split; [reflexivity|]. split; [reflexivity|].
  vm_compute coordinate_cleanup. eexists. repeat split.
Qed.
(** ** Assignments in place *)

Module InPlace.
Import FrameFacts.

Lemma elem_of_cols_setitem f c a p :
  p ∈ cols (setitem f c a) ->
  p = (c, broadcast (nrows f) a) \/ (p.1 <> c /\ p ∈ cols f).
Proof.
  unfold setitem. destruct (decide (c ∈ labels f)); cbn [cols].
  - intros Hp. apply list_elem_of_fmap in Hp as (q & -> & Hq).
    destruct (decide (q.1 = c)); auto.
  - intros Hp. apply elem_of_app in Hp as [Hp|Hp].
    + right. split; [|exact Hp]. intros <-. apply n.
      apply list_elem_of_fmap. exists p. auto.
    + apply list_elem_of_singleton in Hp. auto.
Qed.

Lemma col_is_setitem_eq f c a :
  col_is (setitem f c a) c (broadcast (nrows f) a).
Proof.
  split; [apply elem_of_labels_setitem; auto|].
  intros col Hcol. apply elem_of_cols_setitem in Hcol as [[= ->]|[Hne _]];
    [reflexivity|]. cbn [fst] in Hne. congruence.
Qed.

Lemma col_is_setitem_ne f c d a v :
  c <> d -> col_is f c v -> col_is (setitem f d a) c v.
Proof.
  intros Hcd [Hin Hall]. split; [apply elem_of_labels_setitem; auto|].
  intros col Hcol. apply elem_of_cols_setitem in Hcol as [[= -> _]|[_ Hcol]];
    [congruence|]. apply Hall, Hcol.
Qed.

Lemma col_is_get f c v : col_is f c v -> get f c = Some v.
Proof.
  intros [Hin Hall]. apply get_is_Some in Hin as [w Hw].
  pose proof (assoc_Some_elem _ _ _ Hw) as Hcol.
  rewrite (Hall w Hcol) in Hw. exact Hw.
Qed.

(** Writing a column that is already there changes nothing. *)
Lemma setitem_noop f c a :
  col_is f c (broadcast (nrows f) a) -> setitem f c a = f.
Proof.
  intros [Hin Hall]. unfold setitem.
  destruct (decide (c ∈ labels f)); [|contradiction].
  destruct f as [n l]. cbn [nrows cols] in *. f_equal.
  rewrite <- (list_fmap_id l) at 2. apply list_fmap_ext.
  intros i [k w] Hp. cbn [fst id]. destruct (decide (k = c)) as [->|];
    [|reflexivity].
  f_equal. symmetry. apply Hall. eapply list_elem_of_lookup_2, Hp.
Qed.

(** Of two assignments to one label the second stands. *)
Lemma setitem_setitem f c a b :
  setitem (setitem f c a) c b = setitem f c b.
Proof.
  unfold setitem at 1.
  destruct (decide (c ∈ labels (setitem f c a))) as [_|Hn];
    [|exfalso; apply Hn, elem_of_labels_setitem; auto].
  rewrite nrows_setitem. unfold setitem.
  destruct (decide (c ∈ labels f)); cbn [cols nrows]; f_equal.
  - rewrite <- list_fmap_compose. apply list_fmap_ext.
    intros i [k w] _. cbn [compose fst].
    destruct (decide (k = c)) as [->|Hne]; cbn [fst].
    + destruct (decide (c = c)); congruence.
    + destruct (decide (k = c)); congruence.
  - rewrite fmap_app, list_fmap_singleton. cbn [fst].
    destruct (decide (c = c)); [|congruence]. f_equal.
    rewrite <- (list_fmap_id (cols f)) at 2. apply list_fmap_ext.
    intros i [k w] Hp. cbn [fst id].
    destruct (decide (k = c)) as [->|]; [|reflexivity].
    exfalso. apply n. apply list_elem_of_fmap. exists (c, w).
    split; [reflexivity|]. eapply list_elem_of_lookup_2, Hp.
Qed.

Lemma setitem_in f c a :
  c ∈ labels f ->
  setitem f c a
  = Frame (nrows f)
      ((fun p : string * list cell =>
          if decide (p.1 = c) then (c, broadcast (nrows f) a) else p)
         <$> cols f).
Proof.
  intros Hc. unfold setitem. destruct (decide (c ∈ labels f));
    [reflexivity|contradiction].
Qed.

Lemma setitem_out f c a :
  c ∉ labels f ->
  setitem f c a = Frame (nrows f) (cols f ++ [(c, broadcast (nrows f) a)]).
Proof.
  intros Hc. unfold setitem. destruct (decide (c ∈ labels f));
    [contradiction|reflexivity].
Qed.

(** An assignment in place and an assignment to another label commute. *)
Lemma setitem_comm f c d a b :
  c <> d -> c ∈ labels f ->
  setitem (setitem f d b) c a = setitem (setitem f c a) d b.
Proof.
  intros Hcd Hc.
  rewrite (setitem_in (setitem f d b) c a)
    by (apply elem_of_labels_setitem; auto).
  destruct (decide (d ∈ labels f)) as [Hd|Hd].
  - rewrite (setitem_in (setitem f c a) d b)
      by (apply elem_of_labels_setitem; auto).
    rewrite !nrows_setitem, (setitem_in f d b Hd), (setitem_in f c a Hc).
    cbn [cols nrows]. f_equal. rewrite <- !list_fmap_compose.
    apply list_fmap_ext. intros i [k w] _. cbn [compose fst].
    destruct (decide (k = d)) as [->|Hkd]; cbn [fst].
    + destruct (decide (d = c)); [congruence|]. cbn [fst].
      destruct (decide (d = d)); congruence.
    + destruct (decide (k = c)) as [->|Hkc]; cbn [fst].
      * destruct (decide (c = d)); congruence.
      * destruct (decide (k = d)); congruence.
  - rewrite (setitem_out (setitem f c a) d b)
      by (rewrite elem_of_labels_setitem; intros [?|?]; congruence).
    rewrite !nrows_setitem, (setitem_out f d b Hd), (setitem_in f c a Hc).
    cbn [cols nrows]. f_equal. rewrite fmap_app, list_fmap_singleton.
    cbn [fst]. destruct (decide (d = c)); congruence.
Qed.

Lemma to_numeric_cell_numeric_id `{PandasText} c :
  numeric c -> to_numeric_cell c = c.
Proof. destruct c; [reflexivity..|intros []]. Qed.

Lemma numeric_cell_neg c : numeric c -> numeric (cell_neg c).
Proof. destruct c; intros Hc; exact Hc. Qed.

Lemma Forall_numeric_negate_where mask col :
  Forall numeric col -> Forall numeric (negate_where mask col).
Proof.
  intros Hcol. revert mask. induction Hcol as [|c col Hc Hcol IH];
    intros [|b mask]; cbn [negate_where zip_with]; try constructor.
  - destruct b; [apply numeric_cell_neg|]; exact Hc.
  - apply IH.
Qed.

Lemma Forall_numeric_parsed `{PandasText} f c : Forall numeric (parsed f c).
Proof.
  unfold parsed, to_numeric. destruct (get f c) as [col|]; cbn [broadcast].
  - apply Forall_forall. intros x Hx.
    apply list_elem_of_lookup in Hx as [i Hi].
    pose proof (lookup_lt_Some _ _ _ Hi) as Hlt.
    rewrite length_to_numeric_column in Hlt.
    destruct (lookup_lt_is_Some_2 col i Hlt) as [y Hy].
    destruct (to_numeric_column_lookup col i y Hy) as (x' & Hx' & Hnum & _).
    congruence.
  - apply Forall_replicate. exact I.
Qed.

Lemma fmap_to_numeric_cell_numeric `{PandasText} l :
  Forall numeric l -> to_numeric_cell <$> l = l.
Proof.
  induction 1 as [|c l Hc _ IH]; [reflexivity|].
  rewrite fmap_cons, IH, (to_numeric_cell_numeric_id c Hc). reflexivity.
Qed.

Lemma fits_wrap64 z : fits_int64 (wrap64 z) = true.
Proof.
  unfold fits_int64, wrap64. apply andb_true_iff.
  pose proof (Z.mod_pos_bound (z + 2 ^ 63) (2 ^ 64) ltac:(lia)).
  split; [apply Z.leb_le|apply Z.ltb_lt]; lia.
Qed.

Lemma of_one_kind_negate_where mask col :
  of_one_kind col -> of_one_kind (negate_where mask col).
Proof.
  intros [Hcol|Hcol]; [left|right]; revert mask;
    induction Hcol as [|c col Hc Hcol IH]; intros [|b mask];
    cbn [negate_where zip_with]; try constructor; try apply IH.
  - destruct b; [|exact Hc]. destruct c; try discriminate.
    cbn [cell_neg is_int64]. apply fits_wrap64.
  - destruct b; [|exact Hc]. destruct c; try discriminate; reflexivity.
Qed.

Lemma of_one_kind_parsed `{PandasText} f c : of_one_kind (parsed f c).
Proof.
  unfold parsed, to_numeric. destruct (get f c) as [col|]; cbn [broadcast].
  - apply AggregateFacts.to_numeric_column_kind.
  - right. apply Forall_replicate. reflexivity.
Qed.

(** Converting a numeric column of one kind leaves it as it is. *)
Lemma to_numeric_column_fixed `{PandasText} col :
  Forall numeric col -> of_one_kind col -> to_numeric_column col = col.
Proof.
  intros Hnum Hkind. unfold to_numeric_column.
  rewrite (fmap_to_numeric_cell_numeric col Hnum).
  destruct (forallb is_int64 col) eqn:Hall; [reflexivity|].
  destruct Hkind as [Hint|Hno].
  - rewrite (proj2 (forallb_forall _ _)) in Hall; [discriminate|].
    intros c Hc. rewrite Forall_forall in Hint.
    apply Hint, list_elem_of_In, Hc.
  - clear Hall Hnum. induction Hno as [|c col Hc _ IH]; [reflexivity|].
    rewrite fmap_cons, IH. destruct c; try discriminate; reflexivity.
Qed.

(** In a parsed column without the least int64, every number can be
    negated. *)
Lemma Forall_negatable_parsed `{PandasText} f c :
  least_int64_free f c = true -> Forall negatable (parsed f c).
Proof.
  unfold least_int64_free. fold (parsed f c). intros Hfree.
  rewrite forallb_forall in Hfree. apply Forall_forall. intros x Hx.
  specialize (Hfree x (proj1 (list_elem_of_In _ _) Hx)).
  apply negb_true_iff, bool_decide_eq_false in Hfree.
  destruct x as [|z|q|s]; cbn [negatable]; try exact I.
  destruct (of_one_kind_parsed f c) as [Hk|Hk]; rewrite Forall_forall in Hk;
    specialize (Hk _ Hx); cbn [is_int64 is_int] in Hk; [|discriminate].
  unfold fits_int64 in Hk. apply andb_true_iff in Hk as [Hlo Hhi].
  apply Z.leb_le in Hlo. apply Z.ltb_lt in Hhi.
  assert (z <> (- 2 ^ 63)%Z) by congruence. lia.
Qed.

End InPlace.

(** ** Calling again on the frames a call has written *)

Section Rerun.
Context `{PandasText}.
Import FrameFacts InPlace.

(** The five assignments of the cleanup amount to two. *)
Lemma cleaned_normal_form f :
  cleaned f
  = setitem (setitem f "latitude_measure" (Series (flipped_lat f)))
      "longitude_measure" (Series (cleaned_lon f)).
Proof.
  unfold cleaned. rewrite setitem_setitem.
  rewrite (setitem_comm _ "latitude_measure" "longitude_measure")
    by (try discriminate; apply elem_of_labels_setitem; auto).
  rewrite !setitem_setitem. reflexivity.
Qed.

Lemma col_is_cleaned_lat f :
  col_is (cleaned f) "latitude_measure" (flipped_lat f).
Proof.
  rewrite cleaned_normal_form. apply col_is_setitem_ne; [discriminate|].
  apply (col_is_setitem_eq f _ (Series (flipped_lat f))).
Qed.

Lemma col_is_cleaned_lon f :
  col_is (cleaned f) "longitude_measure" (cleaned_lon f).
Proof.
  rewrite cleaned_normal_form.
  apply (col_is_setitem_eq _ _ (Series (cleaned_lon f))).
Qed.

Lemma col_is_cleaned_other f c v :
  c <> "latitude_measure" -> c <> "longitude_measure" ->
  col_is f c v -> col_is (cleaned f) c v.
Proof.
  intros Hlat Hlon Hc. rewrite cleaned_normal_form.
  apply col_is_setitem_ne; [exact Hlon|].
  apply col_is_setitem_ne; [exact Hlat|exact Hc].
Qed.

Lemma col_is_keyed_permit f :
  col_is (keyed f) "_permit_join"
    (normalize (default [] (get f "permit_identifier"))).
Proof.
  unfold keyed. apply col_is_setitem_ne; [discriminate|].
  apply (col_is_setitem_eq f _ (Series _)).
Qed.

Lemma col_is_keyed_cs f :
  col_is (keyed f) "_cs_join"
    (normalize (default [] (get f "collection_system_identifier"))).
Proof. unfold keyed. apply (col_is_setitem_eq _ _ (Series _)). Qed.

(** Writing the helper columns again changes nothing. *)
Lemma keyed_fixed f pid cs :
  get f "permit_identifier" = Some pid ->
  get f "collection_system_identifier" = Some cs ->
  col_is f "_permit_join" (normalize pid) ->
  col_is f "_cs_join" (normalize cs) ->
  keyed f = f.
Proof.
  intros Hpid Hcs Hpj Hcj. unfold keyed. cbv zeta.
  rewrite Hpid, Hcs. cbn [default]. unfold id.
  rewrite (setitem_noop f "_permit_join" (Series (normalize pid)) Hpj).
  apply (setitem_noop f "_cs_join" (Series (normalize cs)) Hcj).
Qed.

Lemma keyed_idem f :
  "permit_identifier" ∈ labels f ->
  "collection_system_identifier" ∈ labels f ->
  keyed (keyed f) = keyed f.
Proof.
  intros Hp Hc. apply get_is_Some in Hp as [pid Hpid].
  apply get_is_Some in Hc as [cs Hcs].
  apply (keyed_fixed (keyed f) pid cs).
  - rewrite get_keyed_other by discriminate. exact Hpid.
  - rewrite get_keyed_other by discriminate. exact Hcs.
  - pose proof (col_is_keyed_permit f) as Hk. rewrite Hpid in Hk. exact Hk.
  - pose proof (col_is_keyed_cs f) as Hk. rewrite Hcs in Hk. exact Hk.
Qed.

Lemma keyed_cleaned_keyed f :
  "permit_identifier" ∈ labels f ->
  "collection_system_identifier" ∈ labels f ->
  keyed (cleaned (keyed f)) = cleaned (keyed f).
Proof.
  intros Hp Hc. apply get_is_Some in Hp as [pid Hpid].
  apply get_is_Some in Hc as [cs Hcs].
  apply (keyed_fixed (cleaned (keyed f)) pid cs).
  - rewrite get_cleaned_other, get_keyed_other by discriminate. exact Hpid.
  - rewrite get_cleaned_other, get_keyed_other by discriminate. exact Hcs.
  - apply col_is_cleaned_other; [discriminate..|].
    pose proof (col_is_keyed_permit f) as Hk. rewrite Hpid in Hk. exact Hk.
  - apply col_is_cleaned_other; [discriminate..|].
    pose proof (col_is_keyed_cs f) as Hk. rewrite Hcs in Hk. exact Hk.
Qed.

(** A cleaned row is clean: neither rule fires on it again. *)
Lemma row_cleanup_idem p :
  negatable p.1 -> negatable p.2 ->
  row_cleanup (row_cleanup p) = row_cleanup p.
Proof.
  assert (Hneg : forall c, negatable c -> cell_lt 0 c = true ->
                   cell_lt 0 (cell_neg c) = false).
  { intros c Hn Hc. destruct (value c) as [x|] eqn:Hx.
    - destruct (value_cell_neg c x Hx Hn) as (Hx' & _ & _).
      apply (cell_lt_value 0 c x Hx) in Hc.
      apply not_true_is_false. rewrite (cell_lt_value 0 _ _ Hx'). lra.
    - rewrite (cell_lt_value_None 0 c Hx) in Hc. discriminate. }
  assert (Hband : forall c, negatable c -> cell_between 60 110 c = true ->
                    cell_between 60 110 (cell_neg c) = false).
  { intros c Hn Hc. unfold cell_between in *.
    apply andb_prop in Hc as [Hge _].
    destruct (value c) as [x|] eqn:Hx.
    - destruct (value_cell_neg c x Hx Hn) as (Hx' & _ & _).
      apply (cell_ge_value 60 c x Hx) in Hge.
      apply andb_false_intro1, not_true_is_false.
      rewrite (cell_ge_value 60 _ _ Hx'). lra.
    - unfold cell_ge in Hge. rewrite Hx in Hge. discriminate. }
  assert (Hnn : forall c, negatable c -> negatable (cell_neg c)).
  { intros c Hn. destruct (value c) as [x|] eqn:Hx.
    - apply (value_cell_neg c x Hx Hn).
    - destruct c; try discriminate; exact I. }
  assert (Hb : forall r, negatable r.2 ->
                 flip_lon_only (flip_lon_only r) = flip_lon_only r).
  { intros [la lo] Hn. unfold flip_lon_only. cbn [fst snd] in *.
    destruct (cell_ge 0 la && cell_between 60 110 lo) eqn:Hc; cbn [fst snd].
    - apply andb_prop in Hc as [_ Hc].
      rewrite (Hband lo Hn Hc), andb_false_r. reflexivity.
    - rewrite Hc. reflexivity. }
  assert (Ha : forall r, negatable r.1 -> cell_lt 0 (flip_both r).1 = false).
  { intros [la lo] Hn. unfold flip_both. cbn [fst] in *.
    destruct (cell_lt 0 la) eqn:Hc; cbn [fst]; [apply Hneg; assumption|].
    exact Hc. }
  intros Hp1 Hp2. unfold row_cleanup.
  assert (Hfb2 : negatable (flip_both p).2).
  { unfold flip_both. destruct (cell_lt 0 p.1); cbn [snd]; auto. }
  assert (Hfb : flip_both (flip_lon_only (flip_both p))
                = flip_lon_only (flip_both p)).
  { unfold flip_both at 1.
    replace (flip_lon_only (flip_both p)).1 with (flip_both p).1
      by (unfold flip_lon_only; destruct (_ && _); reflexivity).
    rewrite (Ha p Hp1). reflexivity. }
  rewrite Hfb. apply Hb, Hfb2.
Qed.

Lemma length_flipped_lat f : well_formed f -> length (flipped_lat f) = nrows f.
Proof.
  intros Hf. unfold flipped_lat. rewrite length_negate_where.
  - apply length_parsed, Hf.
  - unfold lt. apply length_fmap.
Qed.

Lemma length_cleaned_lon f : well_formed f -> length (cleaned_lon f) = nrows f.
Proof.
  intros Hf.
  assert (Hfo : length (flipped_lon f) = nrows f).
  { unfold flipped_lon. rewrite length_negate_where.
    - apply length_parsed, Hf.
    - unfold lt. rewrite length_fmap, !length_parsed by exact Hf. reflexivity. }
  unfold cleaned_lon. rewrite length_negate_where; [exact Hfo|].
  unfold mask_and, ge, between.
  rewrite length_zip_with, !length_fmap, Hfo, length_flipped_lat by exact Hf.
  lia.
Qed.

Lemma parsed_cleaned_lat f :
  parsed (cleaned f) "latitude_measure" = flipped_lat f.
Proof.
  unfold parsed. rewrite get_cleaned_lat. cbn [to_numeric broadcast].
  apply to_numeric_column_fixed; unfold flipped_lat.
  - apply Forall_numeric_negate_where, Forall_numeric_parsed.
  - apply of_one_kind_negate_where, of_one_kind_parsed.
Qed.

Lemma parsed_cleaned_lon f :
  parsed (cleaned f) "longitude_measure" = cleaned_lon f.
Proof.
  unfold parsed. rewrite get_cleaned_lon. cbn [to_numeric broadcast].
  apply to_numeric_column_fixed; unfold cleaned_lon, flipped_lon.
  - apply Forall_numeric_negate_where, Forall_numeric_negate_where,
      Forall_numeric_parsed.
  - apply of_one_kind_negate_where, of_one_kind_negate_where,
      of_one_kind_parsed.
Qed.

(** Cleaning a cleaned frame leaves its coordinates as they are. *)
Lemma cleaned_columns_fixed f :
  well_formed f ->
  Forall negatable (parsed f "latitude_measure") ->
  Forall negatable (parsed f "longitude_measure") ->
  flipped_lat (cleaned f) = flipped_lat f /\
  cleaned_lon (cleaned f) = cleaned_lon f.
Proof.
  intros Hf Hnla Hnlo.
  assert (Hrow : forall i,
            flipped_lat (cleaned f) !! i = flipped_lat f !! i /\
            cleaned_lon (cleaned f) !! i = cleaned_lon f !! i).
  { intros i. destruct (decide (i < nrows f)) as [Hi|Hi].
    - destruct (lookup_lt_is_Some_2 (parsed f "latitude_measure") i)
        as [la Hla]; [rewrite length_parsed by exact Hf; exact Hi|].
      destruct (lookup_lt_is_Some_2 (parsed f "longitude_measure") i)
        as [lo Hlo]; [rewrite length_parsed by exact Hf; exact Hi|].
      destruct (cleaned_lookup f i la lo Hla Hlo) as [HX HY].
      destruct (cleaned_lookup (cleaned f) i
                  (row_cleanup (la, lo)).1 (row_cleanup (la, lo)).2)
        as [HX' HY'].
      + rewrite parsed_cleaned_lat. exact HX.
      + rewrite parsed_cleaned_lon. exact HY.
      + rewrite <- surjective_pairing in HX', HY'.
        rewrite Forall_forall in Hnla, Hnlo.
        rewrite row_cleanup_idem in HX', HY'
          by (cbn [fst snd];
              first [eapply Hnla, list_elem_of_lookup_2, Hla
                    |eapply Hnlo, list_elem_of_lookup_2, Hlo]).
        rewrite HX, HY. split; assumption.
    - assert (Hwf' : well_formed (cleaned f)).
      { rewrite cleaned_normal_form.
        apply well_formed_setitem; [apply well_formed_setitem; [exact Hf|]|].
        - apply length_flipped_lat, Hf.
        - rewrite nrows_setitem. apply length_cleaned_lon, Hf. }
      split.
      + rewrite !(proj2 (lookup_ge_None _ _)); [reflexivity| |].
        * rewrite length_flipped_lat by exact Hf. lia.
        * rewrite length_flipped_lat, nrows_cleaned by exact Hwf'. lia.
      + rewrite !(proj2 (lookup_ge_None _ _)); [reflexivity| |].
        * rewrite length_cleaned_lon by exact Hf. lia.
        * rewrite length_cleaned_lon, nrows_cleaned by exact Hwf'. lia. }
  split; apply list_eq; intros i; apply Hrow.
Qed.

Lemma cleaned_idem f :
  well_formed f ->
  Forall negatable (parsed f "latitude_measure") ->
  Forall negatable (parsed f "longitude_measure") ->
  cleaned (cleaned f) = cleaned f.
Proof.
  intros Hf Hnla Hnlo.
  destruct (cleaned_columns_fixed f Hf Hnla Hnlo) as [HX HY].
  rewrite (cleaned_normal_form (cleaned f)), HX, HY.
  rewrite (setitem_noop (cleaned f) "latitude_measure"
             (Series (flipped_lat f)) (col_is_cleaned_lat f)).
  apply (setitem_noop (cleaned f) "longitude_measure"
           (Series (cleaned_lon f)) (col_is_cleaned_lon f)).
Qed.

End Rerun.

Section Idempotence.
Context `{PandasText}.
Import FrameFacts InPlace.

Lemma get_drop_ignore (names : list string) f c :
  c ∉ names -> get (drop_ignore names f) c = get f c.
Proof. intros Hc. unfold get, drop_ignore. cbn [cols]. apply assoc_filter, Hc. Qed.

Lemma normalized_keys_keyed f :
  normalized_keys (keyed f) = normalized_keys f.
Proof.
  unfold normalized_keys.
  rewrite nrows_keyed, !get_keyed_other by discriminate. reflexivity.
Qed.

Lemma normalized_keys_cleaned f :
  normalized_keys (cleaned f) = normalized_keys f.
Proof.
  unfold normalized_keys.
  rewrite nrows_cleaned, !get_cleaned_other by discriminate. reflexivity.
Qed.

(** The frames a call has written are frames the call leaves alone. *)
Lemma written_frames_fixed P E :
  well_formed E ->
  least_int64_free E "latitude_measure" = true ->
  least_int64_free E "longitude_measure" = true ->
  "permit_identifier" ∈ labels P -> "permit_identifier" ∈ labels E ->
  "collection_system_identifier" ∈ labels P ->
  "collection_system_identifier" ∈ labels E ->
  keyed (keyed P) = keyed P /\
  cleaned (keyed (cleaned (keyed E))) = cleaned (keyed E) /\
  merged (keyed P) (cleaned (keyed E)) = merged P E /\
  labels_clash (keyed P) (cleaned (keyed E)) = labels_clash P E.
Proof.
  intros Hwf Hla Hlo HpP HpE HcP HcE.
  pose proof (keyed_idem P HpP HcP) as HkP.
  pose proof (keyed_cleaned_keyed E HpE HcE) as HkE.
  assert (HcE' : cleaned (cleaned (keyed E)) = cleaned (keyed E)).
  { apply cleaned_idem; [apply well_formed_keyed; assumption|..];
      rewrite parsed_keyed by discriminate;
      apply Forall_negatable_parsed; assumption. }
  split; [exact HkP|]. split; [rewrite HkE; exact HcE'|].
  split.
  - unfold merged, join_index.
    rewrite HkE, HcE', HkP, normalized_keys_cleaned, !normalized_keys_keyed.
    reflexivity.
  - unfold labels_clash. rewrite HkE, HcE', HkP. reflexivity.
Qed.


(** Called again on the tables as a first call left them, with its helper
    columns and the cleaned coordinates written into them, the call
    returns, leaves them as they are, and yields the same merged table,
    the same summary and the same raw permit table; its raw event table
    is the events as the first call left them, so with the coordinates
    already coerced and sign-corrected, less the helper columns.  (The
    least int64 apart, which negation leaves negative.) *)
Theorem second_call_on_written_tables (P E : frame) (out : outputs)
    (P' E' : frame) :
  well_formed E ->
  int64_column E "latitude_measure" = true ->
  int64_column E "longitude_measure" = true ->
  least_int64_free E "latitude_measure" = true ->
  least_int64_free E "longitude_measure" = true ->
  merge_sso_with_collection_system P E = Ok (out, (P', E')) ->
  exists out2,
    merge_sso_with_collection_system P' E' = Ok (out2, (P', E')) /\
    sso_events_with_collection_system out2
    = sso_events_with_collection_system out /\
    sso_summary_by_permit_year out2 = sso_summary_by_permit_year out /\
    collection_system_permit_raw out2 = collection_system_permit_raw out /\
    sewer_overflow_bypass_event_raw out2 = drop_ignore helper_columns E' /\
    get (sewer_overflow_bypass_event_raw out2) "latitude_measure"
    = get E' "latitude_measure" /\
    get (sewer_overflow_bypass_event_raw out2) "longitude_measure"
    = get E' "longitude_measure".
Proof.
  intros Hwf _ _ Hla Hlo Hrun.
  apply pipeline_inv in Hrun as (Hrec & [= -> ->] & Hsum & Hout).
  apply reconcile_inv in Hrec as ((HpP & HpE & HcP & HcE) & Hclash & _).
  destruct (written_frames_fixed P E Hwf Hla Hlo HpP HpE HcP HcE)
    as (HkP & HkE & Hm & Hcl).
  assert (Hrec2 : reconcile (keyed P) (cleaned (keyed E))
                  = Ok (merged P E, (keyed P, cleaned (keyed E)))).
  { rewrite <- Hm at 1. rewrite <- HkP at 3. rewrite <- HkE at 3.
    apply reconcile_Ok.
    - apply elem_of_labels_keyed. auto.
    - apply elem_of_labels_cleaned. right. right.
      apply elem_of_labels_keyed. auto.
    - apply elem_of_labels_keyed. auto.
    - apply elem_of_labels_cleaned. right. right.
      apply elem_of_labels_keyed. auto.
    - fold (labels_clash (keyed P) (cleaned (keyed E))).
      rewrite Hcl. exact Hclash. }
  exists {| collection_system_permit_raw :=
              drop_ignore helper_columns (keyed P);
            sewer_overflow_bypass_event_raw :=
              drop_ignore helper_columns (cleaned (keyed E));
            sso_events_with_collection_system := merged P E;
            sso_summary_by_permit_year := sso_summary_by_permit_year out |}.
  split.
  { rewrite pipeline_unfold, Hrec2. cbn [bind fst snd]. rewrite Hsum.
    reflexivity. }
  cbn [sso_events_with_collection_system sso_summary_by_permit_year
       collection_system_permit_raw sewer_overflow_bypass_event_raw].
  split; [rewrite Hout; reflexivity|]. split; [reflexivity|].
  split; [rewrite Hout; cbn [collection_system_permit_raw];
          apply drop_ignore_keyed|].
  split; [reflexivity|].
  split; apply get_drop_ignore; by_computation.
Qed.

End Idempotence.


(** Two calls in a row on the example tables. *)
Lemma second_call_on_written_tables_witness :
  exists out P' E' out2,
    merge_sso_with_collection_system (H := plain_text)
      Examples.permits Examples.events = Ok (out, (P', E')) /\
    merge_sso_with_collection_system (H := plain_text) P' E'
    = Ok (out2, (P', E')) /\
    sso_events_with_collection_system out2
    = sso_events_with_collection_system out /\
    sso_summary_by_permit_year out2 = sso_summary_by_permit_year out /\
    get (sewer_overflow_bypass_event_raw out) "latitude_measure"
    = Some [Num (-41)] /\
    get (sewer_overflow_bypass_event_raw out2) "latitude_measure"
    = Some [Num 41].
Proof.
  destruct (merge_sso_with_collection_system (H := plain_text)
              Examples.permits Examples.events)
    as [[out [P' E']]|e] eqn:Hrun; [|vm_compute in Hrun; discriminate].
  destruct (second_call_on_written_tables (H := plain_text)
              Examples.permits Examples.events out P' E')
    as (out2 & Hrun2 & Hm & Hs & _ & Hraw & _);
    [by_computation|reflexivity..|exact Hrun|].
  exists out, P', E', out2. split; [reflexivity|].
  split; [exact Hrun2|]. split; [exact Hm|]. split; [exact Hs|].
  rewrite Hraw. vm_compute in Hrun. injection Hrun as <- _ <-.
  split; reflexivity.
Defined.
(** * Further properties of the pipeline *)

(** ** What the coordinate cleanup establishes *)

Section CleanupInvariant.
Context `{PandasText}.
Import FrameFacts InPlace.

(** Negating an int64 or a float twice gives it back. *)
Lemma cell_neg_involutive c :
  (is_int c = true -> is_int64 c = true) -> cell_neg (cell_neg c) = c.
Proof.
  destruct c as [|z|[n d]|s]; try reflexivity.
  - intros Hz. specialize (Hz eq_refl). cbn [is_int64] in Hz.
    cbn [cell_neg]. f_equal. unfold fits_int64 in Hz.
    apply andb_true_iff in Hz as [Hlo Hhi].
    apply Z.leb_le in Hlo. apply Z.ltb_lt in Hhi.
    destruct (decide (z = - 2 ^ 63)%Z) as [->|Hne]; [reflexivity|].
    assert (Hfit : forall y, (- 2 ^ 63 <= y < 2 ^ 63)%Z ->
                     fits_int64 y = true).
    { intros y Hy. unfold fits_int64. apply andb_true_iff.
      split; [apply Z.leb_le|apply Z.ltb_lt]; lia. }
    rewrite (wrap64_fits (- z)) by (apply Hfit; lia).
    rewrite Z.opp_involutive. apply wrap64_fits, Hfit. lia.
  - intros _. cbn [cell_neg]. unfold Qopp. cbn [Qnum Qden].
    rewrite Z.opp_involutive. reflexivity.
Qed.

(** What one cleaned row looks like: each coordinate is the one that
    came in or its negation; and when the latitude is a number that
    negation negates, the cleaned latitude is not negative and the cleaned
    longitude is outside the band. *)
Lemma row_cleanup_post p :
  (is_int p.2 = true -> is_int64 p.2 = true) ->
  (negatable p.1 -> cell_lt 0 (row_cleanup p).1 = false) /\
  cell_ge 0 (row_cleanup p).1 && cell_between 60 110 (row_cleanup p).2
  = false /\
  ((row_cleanup p).1 = p.1 \/ (row_cleanup p).1 = cell_neg p.1) /\
  ((row_cleanup p).2 = p.2 \/ (row_cleanup p).2 = cell_neg p.2).
Proof.
  destruct p as [la lo]. unfold row_cleanup. cbn [fst snd]. intros Hk.
  assert (Hlat : negatable la ->
                 cell_lt 0 (flip_lon_only (flip_both (la, lo))).1 = false).
  { intros Hn.
    replace (flip_lon_only (flip_both (la, lo))).1
      with (flip_both (la, lo)).1
      by (unfold flip_lon_only; destruct (_ && _); reflexivity).
    unfold flip_both. cbn [fst].
    destruct (cell_lt 0 la) eqn:Hc; cbn [fst]; [|exact Hc].
    destruct (value la) as [x|] eqn:Hx.
    - destruct (value_cell_neg la x Hx Hn) as (Hx' & _ & _).
      apply (cell_lt_value 0 la x Hx) in Hc.
      apply not_true_is_false. rewrite (cell_lt_value 0 _ _ Hx'). lra.
    - rewrite (cell_lt_value_None 0 la Hx) in Hc. discriminate. }
  assert (Hband : forall c, cell_between 60 110 c = true ->
                    cell_between 60 110 (cell_neg c) = false).
  { intros c Hc. unfold cell_between in *.
    apply andb_prop in Hc as [Hge Hle].
    destruct (value c) as [x|] eqn:Hx.
    - apply (cell_ge_value 60 c x Hx) in Hge.
      apply (cell_le_value 110 c x Hx) in Hle.
      assert (Hn : negatable c).
      { destruct c as [|z|q|s]; cbn [negatable]; try exact I.
        cbn [value] in Hx. injection Hx as <-.
        unfold Qle, inject_Z in Hge, Hle. cbn [Qnum Qden] in Hge, Hle.
        lia. }
      destruct (value_cell_neg c x Hx Hn) as (Hx' & _ & _).
      apply andb_false_intro1, not_true_is_false.
      rewrite (cell_ge_value 60 _ _ Hx'). lra.
    - unfold cell_ge in Hge. rewrite Hx in Hge. discriminate. }
  split; [exact Hlat|]. split.
  - destruct (flip_both (la, lo)) as [la1 lo1]. unfold flip_lon_only.
    cbn [fst snd].
    destruct (cell_ge 0 la1 && cell_between 60 110 lo1) eqn:Hc;
      cbn [fst snd]; [|exact Hc].
    apply andb_prop in Hc as [_ Hc]. rewrite (Hband lo1 Hc).
    apply andb_false_r.
  - unfold flip_both, flip_lon_only. cbn [fst snd].
    destruct (cell_lt 0 la); cbn [fst snd];
      destruct (_ && _); cbn [fst snd];
      rewrite ?(cell_neg_involutive lo Hk); auto.
Qed.

(** On an events table whose coordinates fit int64 where they are
    integers: after the cleanup a coordinate differs from the parsed one
    by its sign at most (negation being that of its dtype, which wraps
    around on an int64); no row with a latitude has its longitude in the
    band 60..110 with a latitude that is not negative; and the latitude
    of a row is not negative, unless it is the least int64, which is its
    own negative. *)
Theorem cleaned_coordinates (f f' : frame) :
  int64_column f "latitude_measure" = true ->
  int64_column f "longitude_measure" = true ->
  coordinate_cleanup f = Ok f' ->
  exists lat' lon',
    get f' "latitude_measure" = Some lat' /\
    get f' "longitude_measure" = Some lon' /\
    forall i la lo,
      parsed f "latitude_measure" !! i = Some la ->
      parsed f "longitude_measure" !! i = Some lo ->
      exists la' lo',
        lat' !! i = Some la' /\ lon' !! i = Some lo' /\
        (negatable la -> forall x, value la' = Some x -> (0 <= x)%Q) /\
        (forall x y, value la' = Some x -> value lo' = Some y ->
           (0 <= x)%Q -> ~ (60 <= y /\ y <= 110)%Q) /\
        (la = Int (- 2 ^ 63) -> la' = Int (- 2 ^ 63)) /\
        (la' = la \/ la' = cell_neg la) /\
        (lo' = lo \/ lo' = cell_neg lo).
Proof.
  intros _ _. rewrite coordinate_cleanup_eq. intros [= <-].
  exists (flipped_lat f), (cleaned_lon f).
  split; [apply get_cleaned_lat|]. split; [apply get_cleaned_lon|].
  intros i la lo Hla Hlo.
  destruct (cleaned_lookup f i la lo Hla Hlo) as [Hlat' Hlon'].
  assert (Hk : is_int lo = true -> is_int64 lo = true).
  { intros Hint.
    destruct (of_one_kind_parsed f "longitude_measure") as [Hkind|Hkind];
      rewrite Forall_forall in Hkind;
      specialize (Hkind lo (list_elem_of_lookup_2 _ _ _ Hlo));
      [exact Hkind|congruence]. }
  destruct (row_cleanup_post (la, lo) Hk) as (Hneg & Hband & Hsla & Hslo).
  cbn [fst snd] in *.
  eexists _, _. split; [exact Hlat'|]. split; [exact Hlon'|].
  split; [|split; [|split; [|split; [exact Hsla|exact Hslo]]]].
  - intros Hn x Hx. specialize (Hneg Hn).
    destruct (Qlt_le_dec x 0) as [Hlt|Hle]; [|exact Hle].
    apply (cell_lt_value 0 _ x Hx) in Hlt. congruence.
  - intros x y Hx Hy Hpos [H60 H110].
    apply (cell_ge_value 0 _ x Hx) in Hpos.
    rewrite Hpos in Hband. cbn [andb] in Hband. unfold cell_between in Hband.
    apply (cell_ge_value 60 _ y Hy) in H60.
    apply (cell_le_value 110 _ y Hy) in H110.
    rewrite H60, H110 in Hband. discriminate.
  - intros ->. destruct Hsla as [->| ->]; reflexivity.
Qed.

(** Cleaning a cleaned events table changes nothing, when no
    coordinate of the table reads as the least int64 (and the integers it
    has fit int64). *)
Theorem coordinate_cleanup_idempotent (f f' : frame) :
  well_formed f ->
  int64_column f "latitude_measure" = true ->
  int64_column f "longitude_measure" = true ->
  least_int64_free f "latitude_measure" = true ->
  least_int64_free f "longitude_measure" = true ->
  coordinate_cleanup f = Ok f' ->
  coordinate_cleanup f' = Ok f'.
Proof.
  intros Hf _ _ Hla Hlo. rewrite coordinate_cleanup_eq. intros [= <-].
  rewrite coordinate_cleanup_eq, (cleaned_idem f Hf); [reflexivity|..];
    apply Forall_negatable_parsed; assumption.
Qed.

End CleanupInvariant.

Lemma cleaned_coordinates_witness :
  exists f' lat' lon',
    coordinate_cleanup (H := plain_text) Examples.events_with_nulls = Ok f' /\
    get f' "latitude_measure" = Some lat' /\
    get f' "longitude_measure" = Some lon'.
Proof.
  destruct (coordinate_cleanup (H := plain_text) Examples.events_with_nulls)
    as [f'|e] eqn:Hrun; [|vm_compute in Hrun; discriminate].
  destruct (cleaned_coordinates (H := plain_text)
              Examples.events_with_nulls f')
    as (lat' & lon' & Hlat & Hlon & _); [reflexivity..|exact Hrun|].
  exists f', lat', lon'. split; [reflexivity|]. split; assumption.
Defined.

Lemma coordinate_cleanup_idempotent_witness :
  exists f',
    coordinate_cleanup (H := plain_text) Examples.events = Ok f' /\
    coordinate_cleanup (H := plain_text) f' = Ok f'.
Proof.
  destruct (coordinate_cleanup (H := plain_text) Examples.events)
    as [f'|e] eqn:Hrun; [|vm_compute in Hrun; discriminate].
  exists f'. split; [reflexivity|].
  apply (coordinate_cleanup_idempotent (H := plain_text) Examples.events f');
    [by_computation|reflexivity..|exact Hrun].
Defined.

(** ** Normalized keys are in normal form *)

Module TextNormalForm.
Import Text.

Lemma upper_char_idem c : upper_char (upper_char c) = upper_char c.
Proof. destruct c as [[] [] [] [] [] [] [] []]; reflexivity. Qed.

Lemma upper_idem s : upper (upper s) = upper s.
Proof.
  induction s as [|c s IH]; [reflexivity|]. cbn [upper].
  rewrite upper_char_idem, IH. reflexivity.
Qed.

Lemma length_lstrip s : String.length (lstrip s) <= String.length s.
Proof.
  induction s as [|c s IH]; [reflexivity|]. cbn [lstrip].
  destruct (is_space c); cbn [String.length]; lia.
Qed.

(** A text that [lstrip] leaves alone does not start with whitespace. *)
Lemma lstrip_fixed_head c s :
  lstrip (String c s) = String c s -> is_space c = false.
Proof.
  cbn [lstrip]. destruct (is_space c); [|reflexivity]. intros Hs.
  pose proof (length_lstrip s) as Hlen. rewrite Hs in Hlen.
  cbn [String.length] in Hlen. lia.
Qed.

Lemma lstrip_idem s : lstrip (lstrip s) = lstrip s.
Proof.
  induction s as [|c s IH]; [reflexivity|]. cbn [lstrip].
  destruct (is_space c) eqn:Hc; [exact IH|]. cbn [lstrip]. rewrite Hc.
  reflexivity.
Qed.

Lemma lstrip_rstrip_fixed s : lstrip s = s -> lstrip (rstrip s) = rstrip s.
Proof.
  destruct s as [|c s]; [reflexivity|]. intros Hs.
  apply lstrip_fixed_head in Hs. cbn [rstrip].
  destruct (rstrip s); rewrite ?Hs; cbn [lstrip]; rewrite Hs; reflexivity.
Qed.

Lemma rstrip_idem s : rstrip (rstrip s) = rstrip s.
Proof.
  induction s as [|c s IH]; [reflexivity|]. cbn [rstrip].
  destruct (rstrip s) as [|d r] eqn:Hr.
  - destruct (is_space c) eqn:Hc; [reflexivity|]. cbn [rstrip]. rewrite Hc.
    reflexivity.
  - cbn [rstrip] in IH |- *. rewrite IH. reflexivity.
Qed.

Lemma strip_idem s : strip (strip s) = strip s.
Proof.
  unfold strip. rewrite (lstrip_rstrip_fixed (lstrip s) (lstrip_idem s)).
  apply rstrip_idem.
Qed.

End TextNormalForm.

Section NormalForm.
Context `{PandasText}.

(** A normalized key is a fixed point of stripping and of uppercasing, and
    normalizing it again gives the same key: the helper columns of a table
    that has them already come out the same. *)
Theorem normalized_key_normal_form :
  (forall c, Text.strip (normalize_cell c) = normalize_cell c) /\
  (forall c, Text.upper (normalize_cell c) = normalize_cell c) /\
  (forall c, normalize_cell (Str (normalize_cell c)) = normalize_cell c) /\
  (forall col, normalize (normalize col) = normalize col).
Proof.
  assert (Hs : forall c, Text.strip (normalize_cell c) = normalize_cell c).
  { intros c. unfold normalize_cell.
    rewrite <- TextFacts.strip_upper, TextNormalForm.strip_idem.
    reflexivity. }
  assert (Hu : forall c, Text.upper (normalize_cell c) = normalize_cell c).
  { intros c. unfold normalize_cell. apply TextNormalForm.upper_idem. }
  assert (Hn : forall c,
             normalize_cell (Str (normalize_cell c)) = normalize_cell c).
  { intros c. unfold normalize_cell at 1. cbn [astype_str].
    rewrite Hs. apply Hu. }
  split; [exact Hs|]. split; [exact Hu|]. split; [exact Hn|].
  intros col. unfold normalize. rewrite <- list_fmap_compose.
  apply list_fmap_ext. intros i c _. cbn [compose]. unfold normalize_key.
  destruct (null_stays_null && isna c) eqn:Hnull.
  - apply andb_prop in Hnull as [-> Hc]. destruct c; try discriminate.
    reflexivity.
  - cbn [isna]. rewrite andb_false_r, Hn. reflexivity.
Qed.

End NormalForm.

(** ** The rows of the merged table *)

Section MergedRows.
Context `{PandasText}.
Import FrameFacts JoinFacts.

Lemma matches_from_sorted j k rk :
  StronglySorted Nat.lt (matches_from j k rk).
Proof.
  revert j. induction rk as [|k' rk IH]; intros j; cbn [matches_from];
    [constructor|].
  destruct (decide (k' = k)); [|apply IH].
  apply StronglySorted_cons. split; [|apply IH].
  apply Forall_forall. intros x Hx.
  apply elem_of_matches_from in Hx as [Hle _]. lia.
Qed.

Lemma left_indexer_from_sorted i lk rk :
  StronglySorted index_lt (left_indexer_from i lk rk).
Proof.
  revert i. induction lk as [|k lk IH]; intros i; cbn [left_indexer_from];
    [constructor|].
  apply StronglySorted_app_2; [| |apply IH].
  - intros [a oa] [b ob] Ha Hb. left. cbn [fst].
    apply elem_of_left_indexer_from in Hb as (_ & Hb & _).
    assert (a = i); [|lia].
    destruct (matches k rk) as [|j js].
    + apply list_elem_of_singleton in Ha. congruence.
    + apply list_elem_of_fmap in Ha as (x & [= -> _] & _). reflexivity.
  - pose proof (matches_from_sorted 0 k rk) as Hs. fold (matches k rk) in Hs.
    destruct (matches k rk) as [|j js]; [repeat constructor|].
    revert Hs. generalize (j :: js). intros l Hs.
    eapply StronglySorted_fmap; [|exact Hs].
    intros x y Hxy. right. cbn [fst snd]. auto.
Qed.

(** Every row of the merged table is an event row with a permit row of
    the same normalized key pair, or with nulls when no permit row has
    that key pair; the rows come in the order of the events, the rows of
    one event in the order of the permits, so that no pair of an event and
    a permit occurs twice. *)
Theorem merged_rows_pair_equal_keys (P E m : frame) (st : frame * frame) :
  reconcile P E = Ok (m, st) ->
  exists ix : list (nat * option nat),
    length ix = nrows m /\
    StronglySorted index_lt ix /\
    forall p i oj, ix !! p = Some (i, oj) ->
      row_at m p
      = filter (fun q => q.1 ∉ helper_columns)
          (joined_row st.2 st.1 helper_columns "_coll" i oj) /\
      exists k,
        normalized_keys E !! i = Some k /\
        match oj with
        | Some j => normalized_keys P !! j = Some k
        | None => k ∉ normalized_keys P
        end.
Proof.
  intros Hrec. apply reconcile_inv in Hrec as (_ & _ & [= -> ->]).
  exists (join_index P E). split; [symmetry; apply nrows_merged|].
  split; [apply left_indexer_from_sorted|].
  intros p i oj Hp. cbn [fst snd]. split; [apply row_at_merged, Hp|].
  apply elem_of_join_index. eapply list_elem_of_lookup_2, Hp.
Qed.

End MergedRows.

Lemma merged_rows_pair_equal_keys_witness :
  exists m st (ix : list (nat * option nat)),
    reconcile (H := plain_text) Examples.permits Examples.events
    = Ok (m, st) /\
    length ix = nrows m /\
    StronglySorted index_lt ix.
Proof.
  destruct (reconcile (H := plain_text) Examples.permits Examples.events)
    as [[m st]|e] eqn:Hrun; [|vm_compute in Hrun; discriminate].
  destruct (merged_rows_pair_equal_keys (H := plain_text) _ _ m st Hrun)
    as (ix & Hlen & Hsorted & _).
  exists m, st, ix. split; [reflexivity|]. split; assumption.
Defined.

(** ** The shape of the tables the call makes and leaves *)

Section Shapes.
Context `{PandasText}.
Import FrameFacts JoinFacts InPlace.

Lemma well_formed_cleaned f : well_formed f -> well_formed (cleaned f).
Proof.
  intros Hf. rewrite cleaned_normal_form.
  apply well_formed_setitem; [apply well_formed_setitem; [exact Hf|]|].
  - apply length_flipped_lat, Hf.
  - rewrite nrows_setitem. apply length_cleaned_lon, Hf.
Qed.

(** The merged table is a well-formed table; so are the tables the call
    leaves behind and the raw outputs when the inputs were. *)
Theorem tables_stay_well_formed (P E : frame) (out : outputs)
    (P' E' : frame) :
  merge_sso_with_collection_system P E = Ok (out, (P', E')) ->
  well_formed (sso_events_with_collection_system out) /\
  (well_formed P ->
   well_formed P' /\ well_formed (collection_system_permit_raw out)) /\
  (well_formed E ->
   well_formed E' /\ well_formed (sewer_overflow_bypass_event_raw out)).
Proof.
  intros Hrun. apply pipeline_inv in Hrun as (Hrec & [= -> ->] & _ & Hout).
  apply reconcile_inv in Hrec as ((HpP & HpE & HcP & HcE) & _ & _).
  rewrite Hout.
  cbn [sso_events_with_collection_system collection_system_permit_raw
       sewer_overflow_bypass_event_raw].
  split; [apply well_formed_merged|]. split.
  - intros HP. split; [apply well_formed_keyed; assumption|].
    apply well_formed_drop_ignore, HP.
  - intros HE. split; [|apply well_formed_drop_ignore, HE].
    apply well_formed_cleaned, well_formed_keyed; assumption.
Qed.

(** The labels of the merged table: those of the events (coordinates
    included) other than the helpers, in their order, then those of the
    permits other than the helpers, a permit label that the events have
    too being suffixed with [_coll].  In particular the identifiers of
    the permit table are there as [permit_identifier_coll] and
    [collection_system_identifier_coll], and no helper is. *)
Theorem merged_schema (P E m P' E' : frame) :
  reconcile P E = Ok (m, (P', E')) ->
  labels m
  = (filter (fun l => l ∉ helper_columns) (labels E')
     ++ filter (fun l => l ∉ helper_columns)
          (suffixed (labels E') "_coll"
             (labels (drop_ignore helper_columns P'))))%list /\
  Forall (fun l => l ∉ labels m) helper_columns /\
  (forall c, c ∈ labels E -> c ∉ helper_columns -> c ∈ labels m) /\
  ("latitude_measure" ∈ labels m) /\ ("longitude_measure" ∈ labels m) /\
  (forall c, c ∈ labels P -> c ∉ helper_columns -> c ∉ labels E' ->
     c ∈ labels m) /\
  ("permit_identifier_coll" ∈ labels m) /\
  ("collection_system_identifier_coll" ∈ labels m).
Proof.
  intros Hrec.
  apply reconcile_inv in Hrec as ((HpP & HpE & HcP & HcE) & _ & [= -> -> ->]).
  pose proof (labels_merged P E) as Hl. rewrite filter_app in Hl.
  split; [exact Hl|].
  assert (Hin : forall c, c ∉ helper_columns ->
            c ∈ labels (cleaned (keyed E)) \/
            c ∈ suffixed (labels (cleaned (keyed E))) "_coll"
                  (labels (drop_ignore helper_columns (keyed P))) ->
            c ∈ labels (merged P E)).
  { intros c Hc Hor. rewrite Hl, elem_of_app, !list_elem_of_filter. tauto. }
  assert (HE : forall c, c ∈ labels E -> c ∈ labels (cleaned (keyed E))).
  { intros c Hc. apply elem_of_labels_cleaned. right. right.
    apply elem_of_labels_keyed. auto. }
  assert (HP : forall c, c ∈ labels P -> c ∉ helper_columns ->
            (if decide (c ∈ labels (cleaned (keyed E)))
             then (c ++ "_coll")%string else c)
            ∈ suffixed (labels (cleaned (keyed E))) "_coll"
                (labels (drop_ignore helper_columns (keyed P)))).
  { intros c Hc Hh. unfold suffixed.
    apply list_elem_of_fmap. exists c. split; [reflexivity|].
    rewrite labels_drop_ignore. apply list_elem_of_filter.
    split; [exact Hh|]. apply elem_of_labels_keyed. auto. }
  split.
  { apply Forall_forall. intros l Hh Hm. rewrite Hl in Hm.
    apply elem_of_app in Hm as [Hm|Hm];
      apply list_elem_of_filter in Hm as [Hn _]; contradiction. }
  split; [intros c Hc Hh; apply Hin; auto|].
  split; [apply Hin; [by_computation|]; left; apply elem_of_labels_cleaned;
          auto|].
  split; [apply Hin; [by_computation|]; left; apply elem_of_labels_cleaned;
          auto|].
  split.
  { intros c Hc Hh Hout. apply Hin; [exact Hh|]. right.
    pose proof (HP c Hc Hh) as Hs.
    destruct (decide (c ∈ labels (cleaned (keyed E)))); [contradiction|].
    exact Hs. }
  split.
  - apply Hin; [by_computation|]. right.
    assert (Hh : "permit_identifier" ∉ helper_columns) by by_computation.
    pose proof (HP _ HpP Hh) as Hs.
    destruct (decide ("permit_identifier" ∈ labels (cleaned (keyed E))))
      as [_|Hn]; [exact Hs|]. destruct (Hn (HE _ HpE)).
  - apply Hin; [by_computation|]. right.
    assert (Hh : "collection_system_identifier" ∉ helper_columns)
      by by_computation.
    pose proof (HP _ HcP Hh) as Hs.
    destruct (decide ("collection_system_identifier"
                      ∈ labels (cleaned (keyed E)))) as [_|Hn];
      [exact Hs|]. destruct (Hn (HE _ HcE)).
Qed.

(** What the call does to the two tables it is given: it keeps their rows
    and every column other than the helpers and the coordinates, writes
    the normalized identifiers into the helper columns, and leaves the
    permit table otherwise as it was. *)
Theorem argument_tables_after_call (P E : frame) (out : outputs)
    (P' E' : frame) :
  merge_sso_with_collection_system P E = Ok (out, (P', E')) ->
  nrows P' = nrows P /\ nrows E' = nrows E /\
  (forall c, c ∉ helper_columns -> get P' c = get P c) /\
  (forall c, c ∉ helper_columns ->
     c <> "latitude_measure" -> c <> "longitude_measure" ->
     get E' c = get E c) /\
  (forall f f', (f, f') = (P, P') \/ (f, f') = (E, E') ->
     exists pid cs,
       get f "permit_identifier" = Some pid /\
       get f "collection_system_identifier" = Some cs /\
       get f' "_permit_join" = Some (normalize pid) /\
       get f' "_cs_join" = Some (normalize cs)) /\
  drop_ignore helper_columns P' = drop_ignore helper_columns P.
Proof.
  intros Hrun. apply pipeline_inv in Hrun as (Hrec & [= -> ->] & _ & _).
  apply reconcile_inv in Hrec as ((HpP & HpE & HcP & HcE) & _ & _).
  assert (Hne : forall c : string,
            c ∉ helper_columns -> c <> "_permit_join" /\ c <> "_cs_join").
  { intros c Hc. split; intros ->; apply Hc; by_computation. }
  split; [apply nrows_keyed|].
  split; [rewrite nrows_cleaned; apply nrows_keyed|].
  split; [intros c Hc; destruct (Hne c Hc); apply get_keyed_other; assumption|].
  split.
  { intros c Hc Hlat Hlon. destruct (Hne c Hc).
    rewrite get_cleaned_other by assumption.
    apply get_keyed_other; assumption. }
  split; [|apply drop_ignore_keyed].
  intros f f' [[= -> ->]|[= -> ->]].
  - apply get_is_Some in HpP as [pid Hpid].
    apply get_is_Some in HcP as [cs Hcs]. exists pid, cs.
    rewrite get_keyed_permit, get_keyed_cs, Hpid, Hcs. auto.
  - apply get_is_Some in HpE as [pid Hpid].
    apply get_is_Some in HcE as [cs Hcs]. exists pid, cs.
    rewrite !get_cleaned_other by discriminate.
    rewrite get_keyed_permit, get_keyed_cs, Hpid, Hcs. auto.
Qed.

End Shapes.

Lemma tables_stay_well_formed_witness :
  exists out P' E',
    merge_sso_with_collection_system (H := plain_text)
      Examples.permits Examples.events = Ok (out, (P', E')) /\
    well_formed (sso_events_with_collection_system out).
Proof.
  destruct (merge_sso_with_collection_system (H := plain_text)
              Examples.permits Examples.events)
    as [[out [P' E']]|e] eqn:Hrun; [|vm_compute in Hrun; discriminate].
  exists out, P', E'. split; [reflexivity|].
  exact (proj1 (tables_stay_well_formed (H := plain_text) _ _ out P' E' Hrun)).
Defined.

Lemma merged_schema_witness :
  exists m P' E',
    reconcile (H := plain_text) Examples.permits Examples.events
    = Ok (m, (P', E')) /\
    ("permit_identifier_coll" ∈ labels m).
Proof.
  destruct (reconcile (H := plain_text) Examples.permits Examples.events)
    as [[m [P' E']]|e] eqn:Hrun; [|vm_compute in Hrun; discriminate].
  exists m, P', E'. split; [reflexivity|].
  destruct (merged_schema (H := plain_text) _ _ m P' E' Hrun)
    as (_ & _ & _ & _ & _ & _ & Hpid & _). exact Hpid.
Defined.

Lemma argument_tables_after_call_witness :
  exists out P' E',
    merge_sso_with_collection_system (H := plain_text)
      Examples.permits Examples.events = Ok (out, (P', E')) /\
    nrows P' = 2 /\ nrows E' = 1.
Proof.
  destruct (merge_sso_with_collection_system (H := plain_text)
              Examples.permits Examples.events)
    as [[out [P' E']]|e] eqn:Hrun; [|vm_compute in Hrun; discriminate].
  exists out, P', E'. split; [reflexivity|].
  destruct (argument_tables_after_call (H := plain_text) _ _ out P' E' Hrun)
    as (HP & HE & _). split; assumption.
Defined.

(** ** When the call returns and what it raises *)

Section Exceptions.
Context `{PandasText}.
Import FrameFacts.

Lemma getitem_Err_inv f c e :
  getitem f c = Err e -> e = KeyError c /\ c ∉ labels f.
Proof.
  unfold getitem. destruct (get f c) eqn:Hc; [discriminate|].
  intros [= <-]. split; [reflexivity|]. apply get_None, Hc.
Qed.

Lemma getitems_Err_inv f cs e :
  getitems f cs = Err e ->
  exists c, c ∈ cs /\ e = KeyError c /\ c ∉ labels f.
Proof.
  induction cs as [|c cs IH]; cbn [getitems]; [discriminate|].
  destruct (getitem f c) as [col|e'] eqn:Hc; cbn [bind].
  - destruct (getitems f cs) as [rest|e'] eqn:Hcs; cbn [bind];
      [discriminate|].
    intros [= <-]. destruct (IH eq_refl) as (c' & Hin & He & Hn).
    exists c'. split; [apply list_elem_of_further, Hin|auto].
  - intros [= <-]. apply getitem_Err_inv in Hc as [He Hn].
    exists c. split; [apply list_elem_of_here|auto].
Qed.

(** The summary raises [KeyError], for a column it reads and the merged
    table lacks, or what the reading of one of the two datetime columns
    raises, and nothing else. *)
Lemma summary_rows_Err_inv m e :
  summary_rows m = Err e ->
  (exists c, c ∈ summary_inputs /\ e = KeyError c /\ c ∉ labels m) \/
  (exists c col,
     c ∈ ["sewer_overflow_bypass_start_datetime";
          "sewer_overflow_bypass_end_datetime"] /\
     get m c = Some col /\ to_datetime col = Err e).
Proof.
  unfold summary_rows.
  destruct (getitem m "sewer_overflow_bypass_start_datetime")
    as [start|e1] eqn:H1; cbn [bind].
  2:{ intros [= <-]. apply getitem_Err_inv in H1 as [He Hn]. left.
      eexists. split; [|split; [exact He|exact Hn]]. by_computation. }
  destruct (to_datetime start) as [ts|e1] eqn:Hts; cbn [bind].
  2:{ intros [= <-]. right. apply getitem_Ok in H1.
      eexists _, start. split; [apply list_elem_of_here|auto]. }
  destruct (getitem m "sewer_overflow_bypass_end_datetime")
    as [end_|e2] eqn:H2; cbn [bind].
  2:{ intros [= <-]. apply getitem_Err_inv in H2 as [He Hn]. left.
      eexists. split; [|split; [exact He|exact Hn]]. by_computation. }
  destruct (to_datetime end_) as [te|e2] eqn:Hte; cbn [bind].
  2:{ intros [= <-]. right. apply getitem_Ok in H2.
      eexists _, end_.
      split; [apply list_elem_of_further, list_elem_of_here|auto]. }
  destruct (getitem m "sewer_overflow_bypass_discharge_volume_gallons")
    as [vol|e3] eqn:H3; cbn [bind].
  2:{ intros [= <-]. apply getitem_Err_inv in H3 as [He Hn]. left.
      eexists. split; [|split; [exact He|exact Hn]]. by_computation. }
  destruct (getitems m summary_group_cols) as [keycols|e4] eqn:H4;
    cbn [bind].
  2:{ intros [= <-]. apply getitems_Err_inv in H4 as (c & Hin & He & Hn).
      left. exists c. split; [|split; [exact He|exact Hn]].
      unfold summary_group_cols in Hin. unfold summary_inputs.
      do 3 apply list_elem_of_further.
      repeat (apply elem_of_cons in Hin as [->|Hin];
              [repeat (first [apply list_elem_of_here
                             |apply list_elem_of_further])|]).
      inversion Hin. }
  destruct (getitem m "sewer_overflow_bypass_event_key")
    as [ek|e5] eqn:H5; cbn [bind]; [discriminate|].
  intros [= <-]. apply getitem_Err_inv in H5 as [He Hn]. left.
  eexists. split; [|split; [exact He|exact Hn]]. by_computation.
Qed.

(** A label of either input table, the helpers apart, is a label of the
    merged table. *)
Lemma input_label_in_merged P E c :
  c ∉ helper_columns -> c ∈ labels E \/ c ∈ labels P ->
  c ∈ labels (merged P E).
Proof.
  intros Hh Hc. rewrite labels_merged. apply list_elem_of_filter.
  split; [exact Hh|]. apply elem_of_app.
  destruct (decide (c ∈ labels (cleaned (keyed E)))) as [Hin|Hout];
    [left; exact Hin|].
  right. destruct Hc as [Hc|Hc].
  - exfalso. apply Hout, elem_of_labels_cleaned. right. right.
    apply elem_of_labels_keyed. auto.
  - unfold suffixed. apply list_elem_of_fmap. exists c. split.
    + destruct (decide (c ∈ labels (cleaned (keyed E))));
        [contradiction|reflexivity].
    + rewrite labels_drop_ignore. apply list_elem_of_filter.
      split; [exact Hh|]. apply elem_of_labels_keyed. auto.
Qed.

(** The call returns exactly when both tables have the two
    identifier columns, the labels allow the merge, the merged table has
    the nine columns the summary reads, and the start and the end column
    of the merged table read as datetimes without an error (a column of
    mixed UTC offsets does not); it does so in particular when each of the
    nine columns is in one of the two tables and the two columns read.
    When the call raises, it raises the merge error of clashing labels,
    [KeyError] for one of the columns it reads by name, or what the
    reading of the start or the end column raises, and nothing else. *)
Theorem when_the_call_returns (P E : frame) :
  (is_ok (merge_sso_with_collection_system P E) = true <->
   Forall (fun c => (c ∈ labels P) /\ (c ∈ labels E)) identifier_columns /\
   labels_clash P E = false /\
   Forall (fun c => c ∈ labels (merged P E)) summary_inputs /\
   datetime_ok (merged P E) "sewer_overflow_bypass_start_datetime" = true /\
   datetime_ok (merged P E) "sewer_overflow_bypass_end_datetime" = true) /\
  (Forall (fun c => (c ∈ labels P) /\ (c ∈ labels E)) identifier_columns ->
   labels_clash P E = false ->
   Forall (fun c => (c ∈ labels E) \/ (c ∈ labels P)) summary_inputs ->
   datetime_ok (merged P E) "sewer_overflow_bypass_start_datetime" = true ->
   datetime_ok (merged P E) "sewer_overflow_bypass_end_datetime" = true ->
   is_ok (merge_sso_with_collection_system P E) = true) /\
  (forall e,
     merge_sso_with_collection_system P E = Err e ->
     (e = MergeError /\ labels_clash P E = true) \/
     (exists c, e = KeyError c /\
                c ∈ (identifier_columns ++ summary_inputs)%list) \/
     (exists c col,
        c ∈ ["sewer_overflow_bypass_start_datetime";
             "sewer_overflow_bypass_end_datetime"] /\
        get (merged P E) c = Some col /\ to_datetime col = Err e /\
        datetime_ok (merged P E) c = false)).
Proof.
  assert (Hids :
    Forall (fun c => (c ∈ labels P) /\ (c ∈ labels E)) identifier_columns <->
    ("permit_identifier" ∈ labels P /\ "permit_identifier" ∈ labels E /\
     "collection_system_identifier" ∈ labels P /\
     "collection_system_identifier" ∈ labels E)).
  { unfold identifier_columns. rewrite !Forall_cons, Forall_nil. tauto. }
  assert (Hiff :
    is_ok (merge_sso_with_collection_system P E) = true <->
    Forall (fun c => (c ∈ labels P) /\ (c ∈ labels E)) identifier_columns /\
    labels_clash P E = false /\
    Forall (fun c => c ∈ labels (merged P E)) summary_inputs /\
    datetime_ok (merged P E) "sewer_overflow_bypass_start_datetime" = true /\
    datetime_ok (merged P E) "sewer_overflow_bypass_end_datetime" = true).
  { rewrite outcome, Hids.
    rewrite !andb_true_iff, bool_decide_eq_true, negb_true_iff.
    rewrite forallb_forall, Forall_forall.
    split.
    - intros [[Hall Hclash] [[Hcols Hs] He]]. split; [exact Hall|].
      split; [exact Hclash|]. split; [|auto]. intros c Hc.
      apply list_elem_of_In in Hc. apply Hcols in Hc.
      apply bool_decide_eq_true in Hc. exact Hc.
    - intros (Hall & Hclash & Hcols & Hs & He). split; [auto|].
      split; [split; [|exact Hs]|exact He]. intros c Hc.
      apply bool_decide_eq_true, Hcols, list_elem_of_In, Hc. }
  split; [exact Hiff|]. split.
  - intros Hall Hclash Hcols Hs He. apply Hiff. split; [exact Hall|].
    split; [exact Hclash|]. split; [|auto].
    rewrite Forall_forall in Hcols |- *.
    intros c Hc. apply input_label_in_merged; [|apply Hcols, Hc].
    intros Hh. unfold summary_inputs in Hc. unfold helper_columns in Hh.
    repeat (apply elem_of_cons in Hc as [->|Hc];
            [repeat (apply elem_of_cons in Hh as [Hh|Hh]; [discriminate|]);
             inversion Hh|]).
    inversion Hc.
  - intros e Hrun. rewrite pipeline_unfold in Hrun.
    destruct (reconcile P E) as [r|e'] eqn:Hrec; cbn [bind] in Hrun.
    + right. unfold summarize in Hrun.
      destruct (reconcile_inv P E r Hrec) as (_ & _ & Hm).
      subst r. cbn [fst snd] in Hrun.
      destruct (summary_rows (merged P E)) as [rows|e'] eqn:Hrows;
        cbn [bind] in Hrun; [discriminate|].
      injection Hrun as <-.
      apply summary_rows_Err_inv in Hrows
        as [(c & Hin & He & _)|(c & col & Hin & Hget & Herr)].
      * left. exists c. split; [exact He|]. apply elem_of_app. auto.
      * right. exists c, col. split; [exact Hin|]. split; [exact Hget|].
        split; [exact Herr|]. unfold datetime_ok. rewrite Hget, Herr.
        reflexivity.
    + injection Hrun as <-.
      destruct (decide ("permit_identifier" ∈ labels P /\
                        "permit_identifier" ∈ labels E /\
                        "collection_system_identifier" ∈ labels P /\
                        "collection_system_identifier" ∈ labels E))
        as [(HpP & HpE & HcP & HcE)|Hmiss].
      * left. destruct (labels_clash P E) eqn:Hclash.
        -- rewrite (reconcile_Err_clash P E HpP HpE HcP HcE Hclash) in Hrec.
           injection Hrec as <-. auto.
        -- rewrite (reconcile_Ok P E HpP HpE HcP HcE Hclash) in Hrec.
           discriminate.
      * right. left. apply reconcile_Err_keys in Hmiss as (c & Hc & Herr).
        rewrite Herr in Hrec. injection Hrec as <-. exists c.
        split; [reflexivity|]. apply elem_of_app. left. exact Hc.
Qed.

End Exceptions.

Lemma when_the_call_returns_witness :
  is_ok (merge_sso_with_collection_system (H := plain_text)
           Examples.permit_one Examples.events_with_nulls) = true.
Proof.
  apply (proj1 (proj2 (when_the_call_returns (H := plain_text)
                         Examples.permit_one Examples.events_with_nulls)));
    by_computation.
Defined.

(** Without the permit identifier in the events the call raises
    [KeyError] for it; with start times of two UTC offsets it raises
    [ValueError]. *)
Example missing_identifier_raises :
  merge_sso_with_collection_system (H := plain_text)
    Examples.permits Examples.events_without_identifier_column
  = Err (KeyError "permit_identifier") /\
  merge_sso_with_collection_system (H := plain_text)
    Examples.permits Examples.events_mixed_offsets
  = Err ValueError.
Proof. split; reflexivity. Qed.

(** ** The first and the last event of a group *)

Section Extremum.
Variable f : Z -> Z -> Z.
Variable R : Z -> Z -> Prop.
Hypothesis R_refl : forall a, R a a.
Hypothesis R_trans : forall a b c, R a b -> R b c -> R a c.
Hypothesis f_choice : forall a b, f a b = a \/ f a b = b.
Hypothesis f_l : forall a b, R (f a b) a.
Hypothesis f_r : forall a b, R (f a b) b.

(** Folding from an accumulator: the result is the accumulator or a value
    of the list, and is related to both. *)
Lemma nanreduce_fold (l : list (option Z)) (acc : option Z) :
  let r := fold_left (fun acc t => match acc, t with
                                   | Some a, Some b => Some (f a b)
                                   | None, _ => t
                                   | _, None => acc
                                   end) l acc in
  (r = None <-> acc = None /\ Forall (fun t => t = None) l) /\
  (forall m, r = Some m ->
     (acc = Some m \/ Some m ∈ l) /\
     (forall a, acc = Some a -> R m a) /\
     (forall x, Some x ∈ l -> R m x)).
Proof.
  revert acc. induction l as [|t l IH]; intros acc; cbn [fold_left].
  - split.
    + split; [intros ->; auto|tauto].
    + intros m ->. split; [auto|]. split.
      * intros a [= ->]. apply R_refl.
      * intros x Hx. inversion Hx.
  - specialize (IH (match acc, t with
                    | Some a, Some b => Some (f a b)
                    | None, _ => t
                    | _, None => acc
                    end)).
    cbv zeta in IH. destruct IH as [IHnone IHsome]. split.
    + rewrite IHnone, Forall_cons.
      destruct acc as [a|], t as [b|]; intuition discriminate.
    + intros m Hm. destruct (IHsome m Hm) as (Hin & Hacc & Hl).
      assert (Hl' : forall x, Some x ∈ l -> R m x) by exact Hl.
      destruct acc as [a|], t as [b|].
      * assert (Hab : R m (f a b)) by (apply Hacc; reflexivity).
        split; [|split].
        -- destruct Hin as [[= Hf]|Hin]; [|right; right; exact Hin].
           destruct (f_choice a b) as [Hc|Hc]; rewrite Hc in Hf; subst.
           ++ left. reflexivity.
           ++ right. left.
        -- intros a' [= <-]. eapply R_trans; [exact Hab|apply f_l].
        -- intros x Hx. apply elem_of_cons in Hx as [[= <-]|Hx];
             [eapply R_trans; [exact Hab|apply f_r]|apply Hl', Hx].
      * split; [|split].
        -- destruct Hin as [Hin|Hin]; [left; exact Hin|right; right; exact Hin].
        -- exact Hacc.
        -- intros x Hx. apply elem_of_cons in Hx as [Hx|Hx];
             [discriminate|apply Hl', Hx].
      * split; [|split].
        -- right. destruct Hin as [[= ->]|Hin]; [left|right; exact Hin].
        -- intros a' [=].
        -- intros x Hx. apply elem_of_cons in Hx as [[= <-]|Hx];
             [apply Hacc; reflexivity|apply Hl', Hx].
      * split; [|split].
        -- right. destruct Hin as [Hin|Hin]; [discriminate|right; exact Hin].
        -- intros a' [=].
        -- intros x Hx. apply elem_of_cons in Hx as [Hx|Hx];
             [discriminate|apply Hl', Hx].
Qed.

End Extremum.

Module ExtremumFacts.

(** [nanmin] is the least of the timestamps present, NaT when none is. *)
Lemma nanmin_spec (l : list (option Z)) :
  (nanmin l = None <-> Forall (fun t => t = None) l) /\
  (forall m, nanmin l = Some m ->
     Some m ∈ l /\ forall x, Some x ∈ l -> (m <= x)%Z).
Proof.
  destruct (nanreduce_fold Z.min Z.le Z.le_refl Z.le_trans
              ltac:(intros a b; lia) Z.le_min_l Z.le_min_r l None)
    as [Hnone Hsome].
  split.
  - unfold nanmin, nanreduce. rewrite Hnone. tauto.
  - intros m Hm. destruct (Hsome m Hm) as ([Hin|Hin] & _ & Hl);
      [discriminate|auto].
Qed.

(** [nanmax] is the greatest of the timestamps present, NaT when none is. *)
Lemma nanmax_spec (l : list (option Z)) :
  (nanmax l = None <-> Forall (fun t => t = None) l) /\
  (forall m, nanmax l = Some m ->
     Some m ∈ l /\ forall x, Some x ∈ l -> (x <= m)%Z).
Proof.
  destruct (nanreduce_fold Z.max (fun a b => (b <= a)%Z)
              ltac:(cbv beta; intros; lia) ltac:(cbv beta; intros; lia)
              ltac:(cbv beta; intros; lia) ltac:(cbv beta; intros; lia)
              ltac:(cbv beta; intros; lia) l None)
    as [Hnone Hsome].
  split.
  - unfold nanmax, nanreduce. rewrite Hnone. tauto.
  - intros m Hm. destruct (Hsome m Hm) as ([Hin|Hin] & _ & Hl);
      [discriminate|auto].
Qed.

End ExtremumFacts.

Section FirstLast.
Context `{PandasText}.
Import GroupFacts ExtremumFacts.

(** For every summary group, [sso_first_event] is the earliest
    timestamp that the start column of the merged table reads as in the
    rows of the group, and [sso_last_event] the latest that the end column
    reads as there, rows without a timestamp being skipped; each is null
    exactly when no row of the group has one. *)
Theorem first_and_last_event (P E : frame) (out : outputs)
    (st : frame * frame) :
  merge_sso_with_collection_system P E = Ok (out, st) ->
  let m := sso_events_with_collection_system out in
  exists rows start end_ ts te,
    summary_rows m = Ok rows /\
    summary_input m rows /\
    get m "sewer_overflow_bypass_start_datetime" = Some start /\
    to_datetime start = Ok ts /\
    get m "sewer_overflow_bypass_end_datetime" = Some end_ /\
    to_datetime end_ = Ok te /\
    forall g, g ∈ sso_summary_by_permit_year out ->
      (sso_first_event g = None <->
       forall i r, rows !! i = Some r -> group_key r = key g ->
         ts !! i = Some None) /\
      (forall t, sso_first_event g = Some t ->
         (exists i r, rows !! i = Some r /\ group_key r = key g /\
                      ts !! i = Some (Some t)) /\
         forall i r t', rows !! i = Some r -> group_key r = key g ->
           ts !! i = Some (Some t') -> (t <= t')%Z) /\
      (sso_last_event g = None <->
       forall i r, rows !! i = Some r -> group_key r = key g ->
         te !! i = Some None) /\
      (forall t, sso_last_event g = Some t ->
         (exists i r, rows !! i = Some r /\ group_key r = key g /\
                      te !! i = Some (Some t)) /\
         forall i r t', rows !! i = Some r -> group_key r = key g ->
           te !! i = Some (Some t') -> (t' <= t)%Z).
Proof.
  intros Hrun m.
  destruct (pipeline_summary P E out st Hrun) as (rows & Hrows & Hin & Hsum).
  fold m in Hrows, Hin. pose proof Hin as Hin'.
  destruct Hin'
    as (start & end_ & vol & ts & te & Hs & Hts & He & Hte & _ & _ & Hread).
  exists rows, start, end_, ts, te.
  split; [exact Hrows|]. split; [exact Hin|].
  split; [exact Hs|]. split; [exact Hts|].
  split; [exact He|]. split; [exact Hte|].
  intros g Hg. rewrite Hsum in Hg.
  apply elem_of_groupby_agg in Hg as [_ Hg].
  assert (Hfirst : sso_first_event g
                   = nanmin (sso_start_dt <$> group_of (key g) rows))
    by (rewrite Hg at 1; reflexivity).
  assert (Hlast : sso_last_event g
                  = nanmax (sso_end_dt <$> group_of (key g) rows))
    by (rewrite Hg at 1; reflexivity).
  destruct (nanmin_spec (sso_start_dt <$> group_of (key g) rows))
    as [Hmin0 Hmin].
  destruct (nanmax_spec (sso_end_dt <$> group_of (key g) rows))
    as [Hmax0 Hmax].
  assert (Hrow : forall r, r ∈ group_of (key g) rows <->
                   exists i, rows !! i = Some r /\ group_key r = key g).
  { intros r. rewrite elem_of_group_of, list_elem_of_lookup.
    split; [intros (Hk & i & Hi)|intros (i & Hi & Hk)]; eauto. }
  assert (Hst : forall i r, rows !! i = Some r ->
                  ts !! i = Some (sso_start_dt r)).
  { intros i r Hi. apply (reads_start _ _ _ _ _ _ (Hread i r Hi)). }
  assert (Hen : forall i r, rows !! i = Some r ->
                  te !! i = Some (sso_end_dt r)).
  { intros i r Hi. apply (reads_end _ _ _ _ _ _ (Hread i r Hi)). }
  rewrite Hfirst, Hlast. split; [|split; [|split]].
  - rewrite Hmin0, Forall_fmap, Forall_forall. split.
    + intros Hall i r Hi Hk. rewrite (Hst i r Hi). f_equal.
      apply Hall, Hrow. eauto.
    + intros Hall r Hr. apply Hrow in Hr as (i & Hi & Hk). cbn [compose].
      specialize (Hall i r Hi Hk). rewrite (Hst i r Hi) in Hall.
      congruence.
  - intros t Ht. destruct (Hmin t Ht) as [Hin0 Hle]. split.
    + apply list_elem_of_fmap in Hin0 as (r & Hr & Hin0).
      apply Hrow in Hin0 as (i & Hi & Hk). exists i, r.
      split; [exact Hi|]. split; [exact Hk|]. rewrite (Hst i r Hi).
      congruence.
    + intros i r t' Hi Hk Ht'. apply Hle. rewrite (Hst i r Hi) in Ht'.
      injection Ht' as <-. apply list_elem_of_fmap_2, Hrow. eauto.
  - rewrite Hmax0, Forall_fmap, Forall_forall. split.
    + intros Hall i r Hi Hk. rewrite (Hen i r Hi). f_equal.
      apply Hall, Hrow. eauto.
    + intros Hall r Hr. apply Hrow in Hr as (i & Hi & Hk). cbn [compose].
      specialize (Hall i r Hi Hk). rewrite (Hen i r Hi) in Hall.
      congruence.
  - intros t Ht. destruct (Hmax t Ht) as [Hin0 Hle]. split.
    + apply list_elem_of_fmap in Hin0 as (r & Hr & Hin0).
      apply Hrow in Hin0 as (i & Hi & Hk). exists i, r.
      split; [exact Hi|]. split; [exact Hk|]. rewrite (Hen i r Hi).
      congruence.
    + intros i r t' Hi Hk Ht'. apply Hle. rewrite (Hen i r Hi) in Ht'.
      injection Ht' as <-. apply list_elem_of_fmap_2, Hrow. eauto.
Qed.

End FirstLast.

Lemma first_and_last_event_witness :
  exists out st rows,
    merge_sso_with_collection_system (H := plain_text)
      Examples.permit_one Examples.events_with_nulls = Ok (out, st) /\
    summary_rows (H := plain_text) (sso_events_with_collection_system out)
    = Ok rows /\
    length (sso_first_event <$> sso_summary_by_permit_year out) = 2 /\
    (sso_first_event <$> sso_summary_by_permit_year out) !! 1 = Some None.
Proof.
  destruct (merge_sso_with_collection_system (H := plain_text)
              Examples.permit_one Examples.events_with_nulls)
    as [[out st]|e] eqn:Hrun; [|vm_compute in Hrun; discriminate].
  destruct (first_and_last_event (H := plain_text) _ _ out st Hrun)
    as (rows & _ & _ & _ & _ & Hrows & _).
  exists out, st, rows. split; [reflexivity|]. split; [exact Hrows|].
  vm_compute in Hrun. injection Hrun as <- _. split; reflexivity.
Defined.

(** ** The order of the summary *)

Module OrderFacts.

Lemma Qle_bool_total x y : Qle_bool x y = true \/ Qle_bool y x = true.
Proof.
  rewrite !Qle_bool_iff. destruct (Qlt_le_dec x y) as [Hlt|Hle]; [|auto].
  left. apply Qlt_le_weak, Hlt.
Qed.

Lemma cell_leb_total a b : cell_leb a b = true \/ cell_leb b a = true.
Proof.
  unfold cell_leb.
  destruct (value a) as [x|] eqn:Ha, (value b) as [y|] eqn:Hb; auto.
  - apply Qle_bool_total.
  - destruct a as [| | |s], b as [| | |t]; try discriminate; auto.
    apply String.leb_total.
Qed.

Lemma key_leb_total k1 k2 : key_leb k1 k2 = true \/ key_leb k2 k1 = true.
Proof.
  revert k2. induction k1 as [|a k1 IH]; intros [|b k2]; cbn [key_leb]; auto.
  destruct (decide (a = b)) as [->|Hne].
  - destruct (decide (b = b)); [apply IH|congruence].
  - destruct (decide (b = a)); [congruence|apply cell_leb_total].
Qed.

#[local] Instance key_leb_Total :
  Total (fun k1 k2 : list cell => Is_true (key_leb k1 k2)).
Proof.
  intros k1 k2. destruct (key_leb_total k1 k2) as [Hk|Hk]; rewrite Hk;
    [left|right]; exact I.
Qed.

Lemma group_keys_Sorted rows :
  Sorted (fun k1 k2 => Is_true (key_leb k1 k2)) (group_keys rows).
Proof. unfold group_keys. apply Sorted_merge_sort, key_leb_Total. Qed.

End OrderFacts.

Section SummaryOrder.
Context `{PandasText}.
Import GroupFacts.

(** The summary comes out in the order of its keys: each row's key is at
    most the key of the next row, the keys being compared value by value,
    numbers before texts before the null. *)
Theorem summary_sorted_by_key (P E : frame) (out : outputs)
    (st : frame * frame) :
  merge_sso_with_collection_system P E = Ok (out, st) ->
  Sorted (fun k1 k2 => Is_true (key_leb k1 k2))
    (key <$> sso_summary_by_permit_year out).
Proof.
  intros Hrun.
  destruct (pipeline_summary P E out st Hrun) as (rows & _ & _ & ->).
  rewrite keys_groupby_agg. apply OrderFacts.group_keys_Sorted.
Qed.

End SummaryOrder.

Lemma summary_sorted_by_key_witness :
  exists out st,
    merge_sso_with_collection_system (H := plain_text)
      Examples.permit_one Examples.events_with_nulls = Ok (out, st) /\
    Sorted (fun k1 k2 => Is_true (key_leb k1 k2))
      (key <$> sso_summary_by_permit_year out).
Proof.
  destruct (merge_sso_with_collection_system (H := plain_text)
              Examples.permit_one Examples.events_with_nulls)
    as [[out st]|e] eqn:Hrun; [|vm_compute in Hrun; discriminate].
  exists out, st. split; [reflexivity|].
  exact (summary_sorted_by_key (H := plain_text) _ _ out st Hrun).
Defined.

(** ** What the grouping conserves *)

Module ConservationFacts.
Import GroupFacts AggregateFacts.

Lemma total_cons c l :
  (Reference.total (c :: l) == Reference.total [c] + Reference.total l)%Q.
Proof.
  unfold Reference.total. destruct c as [|z|q|s];
    cbn [omap list_omap foldr value]; ring.
Qed.

Lemma total_nil : (Reference.total [] == 0)%Q.
Proof. reflexivity. Qed.

(** Among keys without repetition, a value counted under its own key is
    counted once. *)
Lemma sum_own_key (ks : list (list cell)) k0 (q : Q) :
  NoDup ks -> k0 ∈ ks ->
  (foldr Qplus 0 ((fun k => if decide (k0 = k) then q else 0) <$> ks)
   == q)%Q.
Proof.
  induction 1 as [|k ks Hk Hnd IH]; intros Hin; [inversion Hin|].
  rewrite fmap_cons. cbn [foldr]. destruct (decide (k0 = k)) as [->|Hne].
  - assert (Hz : (foldr Qplus 0
                    ((fun k' => if decide (k = k') then q else 0) <$> ks)
                  == 0)%Q).
    { clear -Hk. induction ks as [|k' ks IH]; [reflexivity|].
      rewrite fmap_cons. cbn [foldr].
      apply not_elem_of_cons in Hk as [Hne Hk].
      destruct (decide (k = k')); [contradiction|]. rewrite (IH Hk). ring. }
    rewrite Hz. ring.
  - apply elem_of_cons in Hin as [Hin|Hin]; [contradiction|].
    rewrite (IH Hin). ring.
Qed.

Lemma group_totals_cons (ks : list (list cell)) r rows :
  (foldr Qplus 0
     ((fun k => Reference.total (sso_volume_gal <$> group_of k (r :: rows)))
        <$> ks)
   == foldr Qplus 0
        ((fun k => if decide (group_key r = k)
                   then Reference.total [sso_volume_gal r] else 0) <$> ks)
      + foldr Qplus 0
          ((fun k => Reference.total (sso_volume_gal <$> group_of k rows))
             <$> ks))%Q.
Proof.
  induction ks as [|k ks IHk]; [cbn; ring|].
  rewrite !fmap_cons. cbn [foldr]. rewrite IHk. unfold group_of at 1.
  rewrite filter_cons. fold (group_of k rows).
  destruct (decide (group_key r = k)).
  - rewrite fmap_cons, total_cons. ring.
  - ring.
Qed.

(** The totals of the groups of keys without repetition that cover the
    rows add up to the total of the rows. *)
Lemma group_totals (ks : list (list cell)) rows :
  NoDup ks -> (forall r, r ∈ rows -> group_key r ∈ ks) ->
  (foldr Qplus 0
     ((fun k => Reference.total (sso_volume_gal <$> group_of k rows)) <$> ks)
   == Reference.total (sso_volume_gal <$> rows))%Q.
Proof.
  intros Hnd. induction rows as [|r rows IH]; intros Hcov.
  - clear. induction ks as [|k ks IHk]; [reflexivity|].
    rewrite fmap_cons. cbn [foldr]. rewrite IHk. cbn. ring.
  - rewrite group_totals_cons, fmap_cons.
    rewrite (total_cons (sso_volume_gal r) (sso_volume_gal <$> rows)).
    rewrite (sum_own_key ks (group_key r) _ Hnd
               (Hcov r (list_elem_of_here _ _))).
    rewrite IH by (intros r' Hr'; apply Hcov, list_elem_of_further, Hr').
    reflexivity.
Qed.

Lemma sum_abs_nonneg (l : list Q) : (0 <= sum_abs l)%Q.
Proof.
  induction l as [|q l IH]; [apply Qle_refl|]. cbn [sum_abs foldr].
  fold (sum_abs l). pose proof (Qabs_nonneg q). lra.
Qed.

(** The values of a group are among the values of the rows. *)
Lemma group_values k rows :
  (Forall whole (omap value (sso_volume_gal <$> rows)) ->
   Forall whole (omap value (sso_volume_gal <$> group_of k rows))) /\
  (sum_abs (omap value (sso_volume_gal <$> group_of k rows))
   <= sum_abs (omap value (sso_volume_gal <$> rows)))%Q.
Proof.
  induction rows as [|r rows [IHw IHs]]; [split; [auto|apply Qle_refl]|].
  unfold group_of in *. rewrite filter_cons, fmap_cons.
  assert (Hstep : forall l : list cell,
            (sum_abs (omap value l)
             <= sum_abs (omap value (sso_volume_gal r :: l)))%Q).
  { intros l. cbn [omap list_omap].
    destruct (value (sso_volume_gal r)) as [q|]; [|apply Qle_refl].
    cbn [sum_abs foldr]. fold (sum_abs (omap value l)).
    pose proof (Qabs_nonneg q). lra. }
  destruct (decide (group_key r = k)) as [Hk|Hk].
  - rewrite fmap_cons. cbn [omap list_omap].
    destruct (value (sso_volume_gal r)) as [q|].
    + split.
      * intros Hall. apply Forall_cons in Hall as [Hq Hall].
        apply Forall_cons. auto.
      * cbn [sum_abs foldr].
        fold (sum_abs (omap value
                         (sso_volume_gal
                            <$> filter (fun r => group_key r = k) rows))).
        fold (sum_abs (omap value (sso_volume_gal <$> rows))). lra.
    + split; assumption.
  - split.
    + intros Hall. apply IHw. cbn [omap list_omap] in Hall.
      destruct (value (sso_volume_gal r));
        [apply Forall_cons in Hall as [_ Hall]|]; exact Hall.
    + eapply Qle_trans; [exact IHs|apply Hstep].
Qed.

(** Where every machine sum is exact, the totals of the summary add up to
    the total of the rows. *)
Lemma summary_totals `{PandasText} rows :
  (forall k,
     Forall (fun c => is_int c = true) (sso_volume_gal <$> group_of k rows) \/
     Forall (fun c => is_int c = false) (sso_volume_gal <$> group_of k rows)) ->
  Forall whole (omap value (sso_volume_gal <$> rows)) ->
  (sum_abs (omap value (sso_volume_gal <$> rows)) <= inject_Z (2 ^ 53))%Q ->
  (foldr Qplus 0 (sso_total_volume_gal <$> groupby_agg rows)
   == Reference.total (sso_volume_gal <$> rows))%Q.
Proof.
  intros Hkind Hwhole Hbound.
  rewrite <- (group_totals (group_keys rows) rows (NoDup_group_keys rows))
    by (intros r Hr; apply elem_of_group_keys; eauto).
  unfold groupby_agg. induction (group_keys rows) as [|k ks IH];
    [reflexivity|].
  rewrite !fmap_cons. cbn [foldr sso_total_volume_gal aggregate].
  rewrite IH. destruct (group_values k rows) as [Hw Hs].
  rewrite (nansum_exact _ (Hkind k) (Hw Hwhole)); [reflexivity|].
  eapply Qle_trans; [exact Hs|exact Hbound].
Qed.

Lemma length_remove_dups_le (l : list cell) :
  length (remove_dups l) <= length l.
Proof.
  induction l as [|c l IH]; [reflexivity|]. cbn [remove_dups].
  destruct (decide_rel elem_of c l); cbn [length]; lia.
Qed.

Lemma nunique_le (l : list cell) : nunique l <= length l.
Proof.
  unfold nunique.
  etransitivity; [apply length_remove_dups_le|].
  rewrite length_fmap. apply length_filter.
Qed.

Lemma nunique_zero (l : list cell) :
  nunique l = 0 <-> Forall (fun c => c = NaN) l.
Proof.
  destruct (nunique_distinct l) as (d & _ & Hd & ->).
  rewrite Forall_forall. split.
  - intros Hz c Hc. destruct (decide (c = NaN)) as [|Hna]; [assumption|].
    apply nil_length_inv in Hz. subst d.
    assert (Hin : canon c ∈ @nil cell) by (apply Hd; eauto).
    inversion Hin.
  - intros Hall. destruct d as [|k d]; [reflexivity|].
    assert (Hin : k ∈ k :: d) by apply list_elem_of_here.
    apply Hd in Hin as (c & Hc & Hna & _). destruct (Hna (Hall c Hc)).
Qed.

End ConservationFacts.

Section Conservation.
Context `{PandasText}.
Import GroupFacts ConservationFacts.

(** The volumes the aggregation adds up are the volume column of
    the merged table, read as numbers.  Where these are whole numbers
    whose absolute values add up to 2^53 at most, so that every machine
    sum is exact, the grouping loses no volume: the totals of the summary
    rows add up to the sum of all parsed volumes. *)
Theorem volume_is_conserved (P E : frame) (out : outputs)
    (st : frame * frame) :
  merge_sso_with_collection_system P E = Ok (out, st) ->
  let m := sso_events_with_collection_system out in
  int64_column m "sewer_overflow_bypass_discharge_volume_gallons" = true ->
  exists rows vol,
    summary_rows m = Ok rows /\
    summary_input m rows /\
    get m "sewer_overflow_bypass_discharge_volume_gallons" = Some vol /\
    sso_volume_gal <$> rows = to_numeric_column vol /\
    (Forall whole (omap value (to_numeric_column vol)) ->
     (sum_abs (omap value (to_numeric_column vol)) <= inject_Z (2 ^ 53))%Q ->
     (foldr Qplus 0 (sso_total_volume_gal <$> sso_summary_by_permit_year out)
      == Reference.total (to_numeric_column vol))%Q).
Proof.
  intros Hrun m _.
  destruct (pipeline_summary P E out st Hrun) as (rows & Hrows & Hin & Hsum).
  fold m in Hrows, Hin.
  assert (Hwf : well_formed m).
  { apply pipeline_inv in Hrun as (_ & _ & _ & Hout). unfold m.
    rewrite Hout. cbn [sso_events_with_collection_system].
    apply well_formed_merged. }
  pose proof Hin as Hin'.
  destruct Hin'
    as (start & end_ & vol & ts & te & _ & _ & _ & _ & Hv & Hlen & Hread).
  assert (Hvols : sso_volume_gal <$> rows = to_numeric_column vol).
  { apply list_eq_same_length with (nrows m).
    - rewrite length_to_numeric_column.
      apply (FrameFacts.well_formed_get m _ vol Hwf Hv).
    - rewrite length_fmap. exact Hlen.
    - intros i x y _ Hx Hy. rewrite list_lookup_fmap in Hx.
      destruct (rows !! i) as [r|] eqn:Hi; [|discriminate].
      injection Hx as <-.
      rewrite (reads_volume _ _ _ _ _ _ (Hread i r Hi)) in Hy.
      congruence. }
  exists rows, vol. split; [exact Hrows|]. split; [exact Hin|].
  split; [exact Hv|]. split; [exact Hvols|].
  intros Hwhole Hbound. rewrite Hsum, <- Hvols in *.
  apply summary_totals; [|assumption..].
  intros k. apply (group_volumes_kind m rows k Hin).
Qed.

(** The event count of a group is at most the number of the merged
    rows of the group, which is at least one; it is zero exactly when the
    event-key cell of every merged row of the group is null. *)
Theorem event_count_bounds (P E : frame) (out : outputs)
    (st : frame * frame) :
  merge_sso_with_collection_system P E = Ok (out, st) ->
  let m := sso_events_with_collection_system out in
  exists rows,
    summary_rows m = Ok rows /\
    summary_input m rows /\
    forall g, g ∈ sso_summary_by_permit_year out ->
      sso_event_count g <= length (group_of (key g) rows) /\
      1 <= length (group_of (key g) rows) /\
      (sso_event_count g = 0 <->
       forall i r, rows !! i = Some r -> group_key r = key g ->
         cell_at m "sewer_overflow_bypass_event_key" i = Some NaN).
Proof.
  intros Hrun m.
  destruct (pipeline_summary P E out st Hrun) as (rows & Hrows & Hin & Hsum).
  fold m in Hrows, Hin.
  exists rows. split; [exact Hrows|]. split; [exact Hin|].
  destruct Hin
    as (start & end_ & vol & ts & te & _ & _ & _ & _ & _ & _ & Hread).
  intros g Hg. rewrite Hsum in Hg.
  apply elem_of_groupby_agg in Hg as [Hk Hg].
  assert (Hcount : sso_event_count g
                   = nunique (event_key <$> group_of (key g) rows))
    by (rewrite Hg at 1; reflexivity).
  rewrite Hcount. split; [|split].
  - etransitivity; [apply nunique_le|]. rewrite length_fmap. reflexivity.
  - apply elem_of_group_keys in Hk as (r & Hr & Hkey).
    assert (Hin : r ∈ group_of (key g) rows)
      by (apply elem_of_group_of; auto).
    destruct (group_of (key g) rows); [inversion Hin|cbn [length]; lia].
  - rewrite nunique_zero, Forall_fmap, Forall_forall. split.
    + intros Hall i r Hi Hkey.
      rewrite (reads_event_key _ _ _ _ _ _ (Hread i r Hi)). f_equal.
      apply Hall, elem_of_group_of. split; [exact Hkey|].
      eapply list_elem_of_lookup_2, Hi.
    + intros Hall r Hr. apply elem_of_group_of in Hr as [Hkey Hr].
      apply list_elem_of_lookup in Hr as [i Hi]. cbn [compose].
      specialize (Hall i r Hi Hkey).
      rewrite (reads_event_key _ _ _ _ _ _ (Hread i r Hi)) in Hall.
      congruence.
Qed.

End Conservation.

Lemma volume_is_conserved_witness :
  exists out st rows vol,
    merge_sso_with_collection_system (H := plain_text)
      Examples.permit_one Examples.events_with_nulls = Ok (out, st) /\
    summary_rows (H := plain_text) (sso_events_with_collection_system out)
    = Ok rows /\
    sso_volume_gal <$> rows = to_numeric_column (H := plain_text) vol.
Proof.
  destruct (merge_sso_with_collection_system (H := plain_text)
              Examples.permit_one Examples.events_with_nulls)
    as [[out st]|e] eqn:Hrun; [|vm_compute in Hrun; discriminate].
  assert (Hint : int64_column (H := plain_text)
                   (sso_events_with_collection_system out)
                   "sewer_overflow_bypass_discharge_volume_gallons" = true).
  { pose proof Hrun as Hc. vm_compute in Hc. injection Hc as <- _.
    reflexivity. }
  destruct (volume_is_conserved (H := plain_text) _ _ out st Hrun Hint)
    as (rows & vol & Hrows & _ & _ & Hvols & _).
  exists out, st, rows, vol. split; [reflexivity|]. split; assumption.
Defined.

Lemma event_count_bounds_witness :
  exists out st rows,
    merge_sso_with_collection_system (H := plain_text)
      Examples.permit_one Examples.events_with_nulls = Ok (out, st) /\
    summary_rows (H := plain_text) (sso_events_with_collection_system out)
    = Ok rows /\
    Forall (fun g => sso_event_count g <= length (group_of (key g) rows))
      (sso_summary_by_permit_year out).
Proof.
  destruct (merge_sso_with_collection_system (H := plain_text)
              Examples.permit_one Examples.events_with_nulls)
    as [[out st]|e] eqn:Hrun; [|vm_compute in Hrun; discriminate].
  destruct (event_count_bounds (H := plain_text) _ _ out st Hrun)
    as (rows & Hrows & _ & Hb).
  exists out, st, rows. split; [reflexivity|]. split; [exact Hrows|].
  apply Forall_forall. intros g Hg. apply (Hb g Hg).
Defined.
(** ** The archive: download and member lookup *)

Module SourceFacts.
Import Source.

Lemma prefix_spec p s :
  String.prefix p s = true <-> exists b, s = p ++ b.
Proof.
  revert s. induction p as [|c p IH]; intros s.
  - split; [intros _; exists s; reflexivity|intros _; destruct s; reflexivity].
  - destruct s as [|d s]; cbn [String.prefix].
    + split; [discriminate|intros (b & Hb); discriminate].
    + destruct (Ascii.ascii_dec c d) as [->|Hne].
      * rewrite IH. split; intros (b & Hb); exists b.
        -- simpl. rewrite Hb. reflexivity.
        -- simpl in Hb. injection Hb as Hb. exact Hb.
      * split; [discriminate|].
        intros (b & Hb). simpl in Hb. injection Hb as Hcd _. congruence.
Qed.

Lemma contains_spec pat s : contains pat s = true <-> occurs_in pat s.
Proof.
  unfold occurs_in. induction s as [|c s IH]; cbn [contains].
  - rewrite orb_false_r, prefix_spec. split.
    + intros (b & Hb). exists EmptyString, b. exact Hb.
    + intros ([|x a] & b & Hb); [exists b; exact Hb|discriminate].
  - rewrite orb_true_iff, prefix_spec, IH. split.
    + intros [(b & Hb)|(a & b & Hb)].
      * exists EmptyString, b. exact Hb.
      * exists (String c a), b. simpl. rewrite Hb. reflexivity.
    + intros ([|x a] & b & Hb).
      * left. exists b. exact Hb.
      * right. exists a, b. simpl in Hb. injection Hb as _ Hb. exact Hb.
Qed.

Lemma contains_false pat s : contains pat s = false <-> ~ occurs_in pat s.
Proof.
  rewrite <- contains_spec. destruct (contains pat s); split;
    intros; congruence.
Qed.

Lemma find_name_inr pat names n :
  find_name pat names = inr n <-> first_match pat names n.
Proof.
  unfold find_name, first_match. induction names as [|m names IH];
    cbn [List.find].
  - split; [discriminate|].
    intros ([|x before] & after & Hnames & _); discriminate.
  - destruct (contains pat (lower m)) eqn:Hm.
    + split.
      * intros [= <-]. exists [], names. split; [reflexivity|].
        split; [apply contains_spec, Hm|]. intros x Hx. inversion Hx.
      * intros ([|x before] & after & Hnames & Hn & Hbefore).
        -- cbn [app] in Hnames. congruence.
        -- cbn [app] in Hnames. injection Hnames as <- _.
           apply contains_spec in Hm.
           destruct (Hbefore m (list_elem_of_here _ _) Hm).
    + rewrite IH. split.
      * intros (before & after & -> & Hn & Hbefore).
        exists (m :: before), after. split; [reflexivity|].
        split; [exact Hn|]. intros x Hx.
        apply elem_of_cons in Hx as [->|Hx]; [|auto].
        apply contains_false, Hm.
      * intros ([|x before] & after & Hnames & Hn & Hbefore).
        -- cbn [app] in Hnames. injection Hnames as <- _.
           apply contains_spec in Hn. congruence.
        -- cbn [app] in Hnames. injection Hnames as <- ->.
           exists before, after. split; [reflexivity|].
           split; [exact Hn|]. intros y Hy.
           apply Hbefore, list_elem_of_further, Hy.
Qed.

Lemma find_name_inl pat names e :
  find_name pat names = inl e <->
  e = StopIteration /\ forall m, m ∈ names -> ~ occurs_in pat (lower m).
Proof.
  unfold find_name. induction names as [|m names IH]; cbn [List.find].
  - split; [intros [= <-]|intros [-> _]; reflexivity].
    split; [reflexivity|]. intros x Hx. inversion Hx.
  - destruct (contains pat (lower m)) eqn:Hm.
    + split; [discriminate|]. intros [_ Hall].
      apply contains_spec in Hm.
      destruct (Hall m (list_elem_of_here _ _) Hm).
    + rewrite IH. split; intros [-> Hall]; (split; [reflexivity|]).
      * intros x Hx. apply elem_of_cons in Hx as [->|Hx]; [|auto].
        apply contains_false, Hm.
      * intros x Hx. apply Hall, list_elem_of_further, Hx.
Qed.

Lemma lower_char_swapcase c :
  lower_char (Text.swapcase_char c) = lower_char c.
Proof.
  destruct c as [[] [] [] [] [] [] [] []]; vm_compute; reflexivity.
Qed.

Lemma same_but_case_lower s t :
  Text.same_but_case s t = true -> lower s = lower t.
Proof.
  revert t. induction s as [|c s IH]; intros [|d t];
    cbn [Text.same_but_case lower]; try discriminate; [reflexivity|].
  intros Hst. apply andb_true_iff in Hst as [Hcd Hst].
  rewrite (IH t Hst). f_equal.
  apply orb_true_iff in Hcd as [Hcd|Hcd]; apply bool_decide_eq_true in Hcd.
  - congruence.
  - rewrite Hcd. symmetry. apply lower_char_swapcase.
Qed.

Lemma find_name_same_but_case pat (names names' : list string) :
  Forall2 (fun n n' => Text.same_but_case n n' = true) names names' ->
  match find_name pat names, find_name pat names' with
  | inr n, inr n' => Text.same_but_case n n' = true
  | inl e, inl e' => e = e'
  | _, _ => False
  end.
Proof.
  unfold find_name. induction 1 as [|n n' names names' Hn _ IH];
    cbn [List.find]; [reflexivity|].
  rewrite <- (same_but_case_lower n n' Hn).
  destruct (contains pat (lower n)); [exact Hn|exact IH].
Qed.

End SourceFacts.

Section Lookup.
Import Source SourceFacts.

(** The lookup returns, for each of the two tables, the first member of
    the archive whose lower-case name has the table's name in it, and
    raises StopIteration exactly when one of the two tables has no such
    member. *)
Theorem table_names_first_matches (names : list string) :
  (forall coll sso,
     table_names names = inr (coll, sso) <->
     first_match "collection_system_permit" names coll /\
     first_match "sewer_overflow_bypass_event" names sso) /\
  (forall e,
     table_names names = inl e <->
     e = StopIteration /\
     ((forall m, m ∈ names ->
         ~ occurs_in "collection_system_permit" (lower m)) \/
      (forall m, m ∈ names ->
         ~ occurs_in "sewer_overflow_bypass_event" (lower m)))).
Proof.
  unfold table_names. split.
  - intros coll sso. rewrite <- !find_name_inr.
    destruct (find_name "collection_system_permit" names) as [e|c];
      [split; [discriminate|intros [? _]; discriminate]|].
    destruct (find_name "sewer_overflow_bypass_event" names) as [e|s];
      [split; [discriminate|intros [_ ?]; discriminate]|].
    split; [intros [= -> ->]; auto|intros [[= ->] [= ->]]; reflexivity].
  - intros e.
    destruct (find_name "collection_system_permit" names) as [e1|c] eqn:Hc.
    + apply find_name_inl in Hc as [-> Hc]. split.
      * intros [= <-]. auto.
      * intros [-> _]. reflexivity.
    + destruct (find_name "sewer_overflow_bypass_event" names)
        as [e2|s] eqn:Hs.
      * apply find_name_inl in Hs as [-> Hs]. split.
        -- intros [= <-]. auto.
        -- intros [-> _]. reflexivity.
      * split; [discriminate|]. intros [_ [Hall|Hall]].
        -- apply find_name_inr in Hc as (before & after & -> & Hn & _).
           destruct (Hall c); [|exact Hn].
           apply elem_of_app. right. apply list_elem_of_here.
        -- apply find_name_inr in Hs as (before & after & -> & Hn & _).
           destruct (Hall s); [|exact Hn].
           apply elem_of_app. right. apply list_elem_of_here.
Qed.

(** The lookup does not see the case of the member names: on two archives
    whose names differ in the case of letters only it fails on both or
    finds members of the same names up to case. *)
Theorem table_names_ignore_case (names names' : list string) :
  Forall2 (fun n n' => Text.same_but_case n n' = true) names names' ->
  match table_names names, table_names names' with
  | inr (coll, sso), inr (coll', sso') =>
      Text.same_but_case coll coll' = true /\
      Text.same_but_case sso sso' = true
  | inl e, inl e' => e = e'
  | _, _ => False
  end.
Proof.
  intros Hnames. unfold table_names.
  pose proof (find_name_same_but_case "collection_system_permit"
                names names' Hnames) as Hc.
  pose proof (find_name_same_but_case "sewer_overflow_bypass_event"
                names names' Hnames) as Hs.
  destruct (find_name "collection_system_permit" names) as [e1|c],
    (find_name "collection_system_permit" names') as [e1'|c'];
    try contradiction; [exact Hc|].
  destruct (find_name "sewer_overflow_bypass_event" names) as [e2|s],
    (find_name "sewer_overflow_bypass_event" names') as [e2'|s'];
    try contradiction; [exact Hs|].
  split; assumption.
Qed.

End Lookup.

Lemma table_names_ignore_case_witness :
  Source.table_names Examples.archive_names
  = inr ("Collection_System_Permit.csv", "SEWER_OVERFLOW_BYPASS_EVENT.csv")
  /\
  Source.table_names Examples.archive_names_lower
  = inr ("collection_system_permit.csv", "sewer_overflow_bypass_event.csv")
  /\
  match Source.table_names Examples.archive_names,
        Source.table_names Examples.archive_names_lower with
  | inr (coll, sso), inr (coll', sso') =>
      Text.same_but_case coll coll' = true /\
      Text.same_but_case sso sso' = true
  | inl e, inl e' => e = e'
  | _, _ => False
  end.
Proof.
  split; [reflexivity|]. split; [reflexivity|].
  apply (table_names_ignore_case Examples.archive_names
           Examples.archive_names_lower).
  repeat constructor.
Defined.

Section Download.
Import Source.

(** A download that raises leaves the cache file as it was, cached or
    absent: the request was sent once, and it met no answer or an answer
    with a status from 400 to 599. *)
Theorem failed_download_keeps_cache (force : bool)
    (server : option response) (w w' : world) (e : io_exn) :
  download_sso_zip force server w = (inl e, w') ->
  zip_file w' = zip_file w /\
  requests_sent w' = S (requests_sent w) /\
  (force = true \/ zip_file w = None) /\
  match server with
  | None => e = RequestException
  | Some r =>
      (400 <= status_code r < 600)%Z /\ e = HTTPError (status_code r)
  end.
Proof.
  unfold download_sso_zip, exists_, requests_get, raise_for_status,
    write_bytes.
  assert (Hwhy : (if match zip_file w with Some _ => true | None => false end
                     && negb force then True
                  else force = true \/ zip_file w = None)).
  { destruct (zip_file w), force; cbn; auto. }
  destruct (match zip_file w with Some _ => true | None => false end
            && negb force); [discriminate|].
  destruct server as [r|].
  - destruct ((400 <=? status_code r) && (status_code r <? 600))%Z eqn:Hst;
      [|discriminate].
    intros [= <- <-]. cbn [zip_file requests_sent].
    repeat split; try assumption; lia.
  - intros [= <- <-]. cbn [zip_file requests_sent]. auto.
Qed.

(** After a download that returns the cache file is there, holding what
    was cached before or, when a request was sent, the body of the answer;
    every later call that is not forced returns it without a request,
    whatever the server would answer. *)
Theorem download_then_cached (force : bool) (server : option response)
    (w w' : world) :
  download_sso_zip force server w = (inr tt, w') ->
  (w' = w /\ force = false /\ zip_file w <> None \/
   exists r, server = Some r /\
     ~ (400 <= status_code r < 600)%Z /\
     w' = World (Some (content r)) (S (requests_sent w))) /\
  forall server', download_sso_zip false server' w' = (inr tt, w').
Proof.
  intros Hrun.
  assert (Hcase :
    w' = w /\ force = false /\ zip_file w <> None \/
    exists r, server = Some r /\
      ~ (400 <= status_code r < 600)%Z /\
      w' = World (Some (content r)) (S (requests_sent w))).
  { revert Hrun.
    unfold download_sso_zip, exists_, requests_get, raise_for_status,
      write_bytes.
    destruct (zip_file w) as [data|] eqn:Hzip, force; cbn [andb negb].
    2: { intros [= <-]. left. split; [reflexivity|].
         split; [reflexivity|discriminate]. }
    all: destruct server as [r|]; [|discriminate].
    all: destruct ((400 <=? status_code r) && (status_code r <? 600))%Z
           eqn:Hst; [discriminate|].
    all: intros [= <-]; right; exists r; cbn [requests_sent].
    all: repeat split; try reflexivity; lia. }
  split; [exact Hcase|]. intros server'.
  assert (Hfile : exists_ w' = true).
  { unfold exists_. destruct Hcase as [(-> & _ & Hzip)|(r & _ & _ & ->)].
    - destruct (zip_file w); [reflexivity|congruence].
    - reflexivity. }
  unfold download_sso_zip. rewrite Hfile. reflexivity.
Qed.

End Download.

Lemma failed_download_keeps_cache_witness :
  exists w',
    Source.download_sso_zip true (Some (Source.Response 503 []))
      (Source.World (Some Examples.archive_bytes) 0)
    = (inl (Source.HTTPError 503), w') /\
    Source.zip_file w' = Some Examples.archive_bytes.
Proof.
  eexists. split; [reflexivity|].
  exact (proj1 (failed_download_keeps_cache true
                  (Some (Source.Response 503 []))
                  (Source.World (Some Examples.archive_bytes) 0) _ _
                  eq_refl)).
Defined.

Lemma download_then_cached_witness :
  exists w',
    Source.download_sso_zip false
      (Some (Source.Response 200 Examples.archive_bytes))
      (Source.World None 0)
    = (inr tt, w') /\
    Source.download_sso_zip false None w' = (inr tt, w').
Proof.
  eexists. split; [reflexivity|].
  exact (proj2 (download_then_cached false
                  (Some (Source.Response 200 Examples.archive_bytes))
                  (Source.World None 0) _ eq_refl) None).
Defined.

